(** * SUNSTUDIO: generation strategies and the Gemini service layer

    A shallow embedding of [services/geminiService.ts], of the
    generation-strategy module that imports it and of the saving of the key
    in [components/SettingsModal.tsx], with the properties of the
    dispatcher, the retry wrapper, the WAV framing, the five strategies, the
    video submission path, the data URIs and the stored key. *)

From Stdlib Require Import ZArith Ascii Lia DecimalString.
From Stdlib Require String.
From stdpp Require Import base list strings gmap.

Local Open Scope Z_scope.

(** ** JavaScript values and strings *)

Module JS.

(** The dynamically typed values the service inspects: thrown errors,
    opaque metadata, passthrough inputs. *)
#[local] Unset Elimination Schemes.
Inductive JsVal : Type :=
| JUndefined
| JNull
| JBool (b : bool)
| JNum (n : Z)
| JStr (s : string)
| JObj (fields : list (string * JsVal)).
#[local] Set Elimination Schemes.

(** Result of running a piece of code: it returns, it throws (a rejected
    promise, once awaited), or it never settles. *)
Inductive Outcome (A : Type) : Type :=
| Returns (a : A)
| Throws (e : JsVal)
| Diverges.
Arguments Returns {A} a.
Arguments Throws {A} e.
Arguments Diverges {A}.

Definition obind {A B} (m : Outcome A) (f : A -> Outcome B) : Outcome B :=
  match m with
  | Returns a => f a
  | Throws e => Throws e
  | Diverges => Diverges
  end.

(** [new Error(msg)] and the engine's [TypeError]. *)
Definition mkError (msg : string) : JsVal := JObj [("message", JStr msg)].
Definition mkTypeError (msg : string) : JsVal :=
  JObj [("name", JStr "TypeError"); ("message", JStr msg)].
Definition mkRangeError (msg : string) : JsVal :=
  JObj [("name", JStr "RangeError"); ("message", JStr msg)].
Definition mkDOMException (name msg : string) : JsVal :=
  JObj [("name", JStr name); ("message", JStr msg)].

(** ToBoolean. *)
Definition truthy (v : JsVal) : bool :=
  match v with
  | JUndefined | JNull => false
  | JBool b => b
  | JNum n => negb (n =? 0)
  | JStr s => negb (String.eqb s "")
  | JObj _ => true
  end.

(** Truthiness of an optional string field ([undefined] or a string). *)
Definition truthy_str (o : option string) : bool :=
  match o with
  | Some s => negb (String.eqb s "")
  | None => false
  end.

(** [a || b] on optional strings. *)
Definition or_str (a b : option string) : option string :=
  if truthy_str a then a else b.

(** [a || "literal"]. *)
Definition or_default (a : option string) (d : string) : string :=
  match a with
  | Some s => if String.eqb s "" then d else s
  | None => d
  end.

Fixpoint assoc (k : string) (fs : list (string * JsVal)) : JsVal :=
  match fs with
  | [] => JUndefined
  | (k', v) :: fs' => if String.eqb k k' then v else assoc k fs'
  end.

(** Property read [v.k]: a [TypeError] on [null] and [undefined],
    [undefined] on the primitives for the names read here. *)
Definition get_prop (v : JsVal) (k : string) : Outcome JsVal :=
  match v with
  | JUndefined | JNull => Throws (mkTypeError "Cannot read properties of null or undefined")
  | JObj fs => Returns (assoc k fs)
  | _ => Returns JUndefined
  end.

(** [v === n] for a number literal [n]. *)
Definition strict_eq_num (v : JsVal) (n : Z) : bool :=
  match v with
  | JNum m => m =? n
  | _ => false
  end.

Definition code (c : ascii) : Z := Z.of_N (N_of_ascii c).
Definition chr (n : Z) : ascii := ascii_of_N (Z.to_N (n mod 256)).

Definition lower_char (c : ascii) : ascii :=
  let n := code c in
  if (65 <=? n) && (n <=? 90) then chr (n + 32) else c.
Definition upper_char (c : ascii) : ascii :=
  let n := code c in
  if (97 <=? n) && (n <=? 122) then chr (n - 32) else c.

Fixpoint map_string (f : ascii -> ascii) (s : string) : string :=
  match s with
  | EmptyString => EmptyString
  | String c s' => String (f c) (map_string f s')
  end.

Definition toLowerCase : string -> string := map_string lower_char.
Definition toUpperCase : string -> string := map_string upper_char.

Definition startsWith (s p : string) : bool := String.prefix p s.

(** [s.includes(sub)]. *)
Fixpoint includes (s sub : string) : bool :=
  if String.prefix sub s then true
  else match s with
       | EmptyString => false
       | String _ s' => includes s' sub
       end.

(** Decimal rendering of an integer number. *)
Definition num_to_string (n : Z) : string := NilZero.string_of_int (Z.to_int n).

(** ToString, as applied by [+] on a string and by [new Error(x)]; a
    plain object renders as the default [Object.prototype.toString]. *)
Definition to_string (v : JsVal) : string :=
  match v with
  | JUndefined => "undefined"
  | JNull => "null"
  | JBool true => "true"
  | JBool false => "false"
  | JNum n => num_to_string n
  | JStr s => s
  | JObj _ => "[object Object]"
  end.

(** A template-literal hole holding an optional string. *)
Definition interp (o : option string) : string :=
  match o with
  | Some s => s
  | None => "undefined"
  end.

(** Pieces of the regular expressions the service applies to data URIs. *)
Fixpoint strip_prefix (p s : string) : option string :=
  match p, s with
  | EmptyString, _ => Some s
  | String a p', String b s' => if Ascii.eqb a b then strip_prefix p' s' else None
  | String _ _, EmptyString => None
  end.

Fixpoint span (f : ascii -> bool) (s : string) : string * string :=
  match s with
  | EmptyString => (EmptyString, EmptyString)
  | String c s' =>
      if f c then let '(a, b) := span f s' in (String c a, b)
      else (EmptyString, s)
  end.

(** [\w]. *)
Definition is_word (c : ascii) : bool :=
  let n := code c in
  ((65 <=? n) && (n <=? 90)) || ((97 <=? n) && (n <=? 122))
  || ((48 <=? n) && (n <=? 57)) || (n =? 95).

(** [[a-zA-Z+]]. *)
Definition is_alpha_plus (c : ascii) : bool :=
  let n := code c in
  ((65 <=? n) && (n <=? 90)) || ((97 <=? n) && (n <=? 122)) || (n =? 43).

(** A match of [^data:(media/cls+);base64,]: the captured MIME type and
    the text after the match.  The class never contains [;], so the greedy
    run is the only candidate. *)
Definition match_data_uri (media : string) (cls : ascii -> bool) (s : string)
  : option (string * string) :=
  match strip_prefix ("data:" +:+ media +:+ "/") s with
  | Some r =>
      let '(sub, r') := span cls r in
      if String.eqb sub "" then None
      else match strip_prefix ";base64," r' with
           | Some rest => Some (media +:+ "/" +:+ sub, rest)
           | None => None
           end
  | None => None
  end.

Definition is_line_terminator (c : ascii) : bool :=
  let n := code c in (n =? 10) || (n =? 13).

(** The text after the last [;base64,] that [.*] can reach from the start
    of [s] without crossing a line terminator. *)
Fixpoint after_last_marker (s : string) : option string :=
  match s with
  | EmptyString => None
  | String c s' =>
      match (if is_line_terminator c then None else after_last_marker s') with
      | Some r => Some r
      | None => strip_prefix ";base64," s
      end
  end.

(** [s.replace(/^data:.*;base64,/, "")]. *)
Definition strip_any_data_uri (s : string) : string :=
  match strip_prefix "data:" s with
  | Some body =>
      match after_last_marker body with
      | Some rest => rest
      | None => s
      end
  | None => s
  end.

Definition nl : string := String (chr 10) EmptyString.

End JS.
Export JS.

Notation "'let!' x ':=' m 'in' k" := (obind m (fun x => k))
  (at level 10, x name, m at level 100, k at level 200).
Notation "'let!' ' p ':=' m 'in' k" := (obind m (fun p => k))
  (at level 10, p pattern, m at level 100, k at level 200).

(** ** Runtime built-ins used by the audio helpers *)

Module Runtime.

Definition b64_alphabet : string :=
  "ABCDEFGHIJKLMNOPQRSTUVWXYZabcdefghijklmnopqrstuvwxyz0123456789+/".

Definition b64_char (n : Z) : ascii :=
  match String.get (Z.to_nat n) b64_alphabet with
  | Some c => c
  | None => "="%char
  end.

Definition b64_index (c : ascii) : option Z :=
  let n := code c in
  if (65 <=? n) && (n <=? 90) then Some (n - 65)
  else if (97 <=? n) && (n <=? 122) then Some (n - 71)
  else if (48 <=? n) && (n <=? 57) then Some (n + 4)
  else if n =? 43 then Some 62
  else if n =? 47 then Some 63
  else None.

Fixpoint b64_encode (l : list Z) : list ascii :=
  match l with
  | a :: b :: c :: rest =>
      b64_char (Z.shiftr a 2)
      :: b64_char (Z.lor (Z.shiftl (Z.land a 3) 4) (Z.shiftr b 4))
      :: b64_char (Z.lor (Z.shiftl (Z.land b 15) 2) (Z.shiftr c 6))
      :: b64_char (Z.land c 63)
      :: b64_encode rest
  | [a; b] =>
      [b64_char (Z.shiftr a 2);
       b64_char (Z.lor (Z.shiftl (Z.land a 3) 4) (Z.shiftr b 4));
       b64_char (Z.shiftl (Z.land b 15) 2);
       "="%char]
  | [a] =>
      [b64_char (Z.shiftr a 2); b64_char (Z.shiftl (Z.land a 3) 4); "="%char; "="%char]
  | [] => []
  end.

Fixpoint b64_decode (l : list Z) : list Z :=
  match l with
  | a :: b :: c :: d :: rest =>
      let n := Z.lor (Z.lor (Z.shiftl a 18) (Z.shiftl b 12)) (Z.lor (Z.shiftl c 6) d) in
      Z.land (Z.shiftr n 16) 255 :: Z.land (Z.shiftr n 8) 255 :: Z.land n 255
      :: b64_decode rest
  | [a; b; c] =>
      let n := Z.lor (Z.lor (Z.shiftl a 10) (Z.shiftl b 4)) (Z.shiftr c 2) in
      [Z.land (Z.shiftr n 8) 255; Z.land n 255]
  | [a; b] => [Z.land (Z.lor (Z.shiftl a 2) (Z.shiftr b 4)) 255]
  | _ => []
  end.

Definition is_ascii_whitespace (c : ascii) : bool :=
  let n := code c in
  (n =? 9) || (n =? 10) || (n =? 12) || (n =? 13) || (n =? 32).

Definition is_pad (c : ascii) : bool := code c =? 61.

(** Removes one or two trailing [=] when the length is a multiple of 4. *)
Definition strip_padding (cs : list ascii) : list ascii :=
  if (Z.of_nat (length cs) mod 4 =? 0) then
    match rev cs with
    | p1 :: p2 :: r => if is_pad p1 then (if is_pad p2 then rev r else rev (p2 :: r)) else cs
    | _ => cs
    end
  else cs.

Fixpoint indices (cs : list ascii) : option (list Z) :=
  match cs with
  | [] => Some []
  | c :: cs' =>
      match b64_index c, indices cs' with
      | Some n, Some ns => Some (n :: ns)
      | _, _ => None
      end
  end.

Definition fromCharCodes (l : list Z) : string :=
  String.string_of_list_ascii (map chr l).

Definition charCodes (s : string) : list Z :=
  map code (String.list_ascii_of_string s).

Definition InvalidCharacterError : JsVal :=
  mkDOMException "InvalidCharacterError" "The string to be decoded is not correctly encoded.".

(** [atob]: the forgiving base64 decoding of the HTML standard. *)
Definition atob (s : string) : Outcome string :=
  let cs := filter (fun c => is_ascii_whitespace c = false) (String.list_ascii_of_string s) in
  let cs := strip_padding cs in
  if Z.of_nat (length cs) mod 4 =? 1 then Throws InvalidCharacterError
  else match indices cs with
       | None => Throws InvalidCharacterError
       | Some ns => Returns (fromCharCodes (b64_decode ns))
       end.

(** [btoa] on a binary string; every character of a [string] is below 256,
    so the range error of the built-in cannot arise. *)
Definition btoa (s : string) : string :=
  String.string_of_list_ascii (b64_encode (charCodes s)).

(** [target.set(src, offset)] on a [Uint8Array]. *)
Definition uint8_set (target src : list Z) (offset : nat) : Outcome (list Z) :=
  if (length target <? offset + length src)%nat
  then Throws (mkRangeError "offset is out of bounds")
  else Returns (take offset target ++ src ++ drop (offset + length src) target).

(** [DataView] writes over a byte buffer. *)
Definition setUint8 (view : list Z) (offset : nat) (value : Z) : Outcome (list Z) :=
  if (length view <? offset + 1)%nat
  then Throws (mkRangeError "Offset is outside the bounds of the DataView")
  else Returns (<[offset := value mod 256]> view).

Definition setUint16_le (view : list Z) (offset : nat) (value : Z) : Outcome (list Z) :=
  if (length view <? offset + 2)%nat
  then Throws (mkRangeError "Offset is outside the bounds of the DataView")
  else
    let v := value mod 65536 in
    Returns (<[offset + 1 := Z.land (Z.shiftr v 8) 255]>
             (<[offset := Z.land v 255]> view))%nat.

Definition setUint32_le (view : list Z) (offset : nat) (value : Z) : Outcome (list Z) :=
  if (length view <? offset + 4)%nat
  then Throws (mkRangeError "Offset is outside the bounds of the DataView")
  else
    let v := value mod 4294967296 in
    Returns (<[offset + 3 := Z.land (Z.shiftr v 24) 255]>
             (<[offset + 2 := Z.land (Z.shiftr v 16) 255]>
              (<[offset + 1 := Z.land (Z.shiftr v 8) 255]>
               (<[offset := Z.land v 255]> view))))%nat.

(** Little-endian reads, used to state header fields. *)
Definition getUint16_le (view : list Z) (offset : nat) : Z :=
  (view !!! offset) + 256 * (view !!! (offset + 1)%nat).

Definition getUint32_le (view : list Z) (offset : nat) : Z :=
  (view !!! offset) + 256 * (view !!! (offset + 1)%nat)
  + 65536 * (view !!! (offset + 2)%nat) + 16777216 * (view !!! (offset + 3)%nat).

End Runtime.
Export Runtime.

(** ** Audio helpers of [geminiService.ts] *)

Module Audio.

Fixpoint writeString (view : list Z) (offset : nat) (s : string) : Outcome (list Z) :=
  match s with
  | EmptyString => Returns view
  | String c s' =>
      let! view' := setUint8 view offset (code c) in
      writeString view' (S offset) s'
  end.

Definition base64ToUint8Array (base64 : string) : Outcome (list Z) :=
  let! binaryString := atob base64 in
  Returns (charCodes binaryString).

(** First loop of [combineBase64Chunks]: decode every chunk, keep the
    arrays in input order and sum their lengths. *)
Fixpoint decodeChunks (chunks : list string) (arrays : list (list Z)) (totalLength : nat)
  : Outcome (list (list Z) * nat) :=
  match chunks with
  | [] => Returns (arrays, totalLength)
  | chunk :: rest =>
      let! arr := base64ToUint8Array chunk in
      decodeChunks rest (arrays ++ [arr]) (totalLength + length arr)%nat
  end.

(** Second loop: copy each array into [merged] at the running offset. *)
Fixpoint mergeArrays (arrays : list (list Z)) (merged : list Z) (offset : nat)
  : Outcome (list Z) :=
  match arrays with
  | [] => Returns merged
  | arr :: rest =>
      let! merged' := uint8_set merged arr offset in
      mergeArrays rest merged' (offset + length arr)%nat
  end.

Definition channels : Z := 1.
Definition bitDepth : Z := 16.

(** The 44-byte header written through the [DataView]. *)
Definition wavHeader (totalLength : nat) (sampleRate : Z) : Outcome (list Z) :=
  let header := replicate 44 0 in
  let! h := writeString header 0 "RIFF" in
  let! h := setUint32_le h 4 (36 + Z.of_nat totalLength) in
  let! h := writeString h 8 "WAVE" in
  let! h := writeString h 12 "fmt " in
  let! h := setUint32_le h 16 16 in
  let! h := setUint16_le h 20 1 in
  let! h := setUint16_le h 22 channels in
  let! h := setUint32_le h 24 sampleRate in
  let! h := setUint32_le h 28 (sampleRate * channels * (bitDepth / 8)) in
  let! h := setUint16_le h 32 (channels * (bitDepth / 8)) in
  let! h := setUint16_le h 34 bitDepth in
  let! h := writeString h 36 "data" in
  setUint32_le h 40 (Z.of_nat totalLength).

(** The [wavFile] array of [combineBase64Chunks]: header, then the merged
    samples. *)
Definition wavFile (chunks : list string) (sampleRate : Z) : Outcome (list Z) :=
  let! '(arrays, totalLength) := decodeChunks chunks [] 0%nat in
  let! merged := mergeArrays arrays (replicate totalLength 0) 0%nat in
  let! header := wavHeader totalLength sampleRate in
  let file := replicate (length header + totalLength)%nat 0 in
  let! file := uint8_set file header 0 in
  uint8_set file merged (length header).

(** The closing loop: the file is turned into a binary string 8192 bytes at
    a time.  [fuel] bounds the number of iterations; the length of the file
    is always enough, since every iteration advances [i] by 8192. *)
Fixpoint toBinary (fuel : nat) (file : list Z) (i : nat) (binary : string) : string :=
  match fuel with
  | O => binary
  | S fuel' =>
      if (i <? length file)%nat
      then toBinary fuel' file (i + Z.to_nat 8192)%nat
             (binary +:+ fromCharCodes (take (Z.to_nat 8192) (drop i file)))
      else binary
  end.

Definition combineBase64Chunks (chunks : list string) (sampleRate : Z) : Outcome string :=
  let! file := wavFile chunks sampleRate in
  let binary := toBinary (length file) file 0 "" in
  Returns ("data:audio/wav;base64," +:+ btoa binary).

Definition pcmToWav (base64PCM : string) (sampleRate : Z) : Outcome string :=
  combineBase64Chunks [base64PCM] sampleRate.

(** Little-endian bytes of a 16-bit and of a 32-bit field. *)
Definition le16 (v : Z) : list Z :=
  let v := v mod 65536 in
  [Z.land v 255; Z.land (Z.shiftr v 8) 255].

Definition le32 (v : Z) : list Z :=
  let v := v mod 4294967296 in
  [Z.land v 255; Z.land (Z.shiftr v 8) 255;
   Z.land (Z.shiftr v 16) 255; Z.land (Z.shiftr v 24) 255].

(** The canonical RIFF/WAVE header as the format lays it out, for 16-bit
    mono samples: the reference [wavHeader] is compared with. *)
Definition canonicalHeader (dataLen : nat) (sampleRate : Z) : list Z :=
  charCodes "RIFF" ++ le32 (36 + Z.of_nat dataLen)       (* ChunkID, ChunkSize *)
  ++ charCodes "WAVE" ++ charCodes "fmt " ++ le32 16     (* Format, Subchunk1 *)
  ++ le16 1 ++ le16 1                                    (* AudioFormat, NumChannels *)
  ++ le32 sampleRate ++ le32 (sampleRate * 1 * 2)        (* SampleRate, ByteRate *)
  ++ le16 (1 * 2) ++ le16 16                             (* BlockAlign, BitsPerSample *)
  ++ charCodes "data" ++ le32 (Z.of_nat dataLen).        (* Subchunk2ID, Subchunk2Size *)

(** The canonical header of a 16-bit mono file at 24000 Hz holding two
    bytes of samples, field by field. *)
Definition referenceHeader : list Z :=
  [82; 73; 70; 70;        (* RIFF *)
   38; 0; 0; 0;           (* ChunkSize = 36 + 2 *)
   87; 65; 86; 69;        (* WAVE *)
   102; 109; 116; 32;     (* fmt  *)
   16; 0; 0; 0;           (* Subchunk1Size *)
   1; 0;                  (* AudioFormat = PCM *)
   1; 0;                  (* NumChannels *)
   192; 93; 0; 0;         (* SampleRate = 24000 *)
   128; 187; 0; 0;        (* ByteRate = 48000 *)
   2; 0;                  (* BlockAlign *)
   16; 0;                 (* BitsPerSample *)
   100; 97; 116; 97;      (* data *)
   2; 0; 0; 0].           (* Subchunk2Size *)

End Audio.
Export Audio.

(** ** Requests, responses and the outside world *)

Module SDK.

(** The four prompt templates of the service, by the name of their
    constant; no code path looks inside their text. *)
Inductive SystemPrompt : Type :=
| SYSTEM_INSTRUCTION
| STORYBOARD_INSTRUCTION
| VIDEO_ORCHESTRATOR_INSTRUCTION
| HELP_ME_WRITE_INSTRUCTION.

(** A part of a [generateContent] request. *)
Inductive Part : Type :=
| PartInline (data mimeType : string)
| PartText (text : string).

Record ContentConfig : Type := {
  cfg_systemInstruction : option SystemPrompt;
  cfg_imageConfig : option (string * string);   (* aspectRatio, imageSize *)
  cfg_voiceName : option string                 (* AUDIO modality with a prebuilt voice *)
}.

Record ContentRequest : Type := {
  cr_model : string;
  cr_parts : list Part;
  cr_config : option ContentConfig
}.

Record InlineData : Type := {
  inl_data : option string;
  inl_mimeType : option string
}.

Record ResponsePart : Type := { part_inlineData : option InlineData }.

(** What the service reads of a [GenerateContentResponse]: [text] and
    [candidates?.[0]?.content?.parts]. *)
Record ContentResponse : Type := {
  resp_text : option string;
  resp_parts : option (list ResponsePart)
}.

Record ChatRequest : Type := {
  chat_model : string;
  chat_systemInstruction : SystemPrompt;
  chat_history : list (string * list string);
  chat_message : string
}.

Record VideoImage : Type := {
  imageBytes : string;
  img_mimeType : string
}.

Record VideoConfig : Type := {
  numberOfVideos : Z;
  vc_aspectRatio : string;
  vc_resolution : string;
  lastFrame : option VideoImage
}.

Record VideoRequest : Type := {
  vr_model : string;
  vr_prompt : string;
  vr_image : option VideoImage;
  vr_video : option JsVal;
  vr_config : VideoConfig
}.

Record Video : Type := {
  vid_uri : option string;
  vid_meta : JsVal
}.

(** A video operation: its completion flag and
    [response?.generatedVideos?.[0]?.video]. *)
Record VideoOp : Type := {
  op_name : string;
  op_done : bool;
  op_video : option Video
}.

Record Client : Type := { apiKey : option string }.

End SDK.
Export SDK.

Module Effects.

(** Observable actions, in the order they happen. *)
Inductive Event : Type :=
| EvWait (ms : Z)
| EvInvoke
| EvFetch (url : string)
| EvReadAsDataURL (blob : string)
| EvSeekLastFrame (videoSrc : string)
| EvLoadImage (src : string)
| EvSendMessage (ai : Client) (req : ChatRequest)
| EvGenerateContent (ai : Client) (req : ContentRequest)
| EvGenerateVideos (ai : Client) (req : VideoRequest)
| EvGetVideosOperation (ai : Client) (op : VideoOp).

Definition Trace : Type := list Event.

(** A promise handed back by the browser or by the SDK, once settled. *)
Inductive Settled (A : Type) : Type :=
| Resolved (a : A)
| Rejected (e : JsVal).
Arguments Resolved {A} a.
Arguments Rejected {A} e.

(** Everything outside the repository: the environment variable, the SDK
    and the browser.  Every answer may depend on all that happened before,
    and every promise of the outside world settles. *)
Record World : Type := {
  API_KEY : option string;
  JSON_stringify : JsVal -> string;
  (** [new GoogleGenAI({ apiKey })]: [Some e] when the constructor throws. *)
  sdk_new : option string -> option JsVal;
  sdk_sendMessage : Trace -> Client -> ChatRequest -> Settled (option string);
  sdk_generateContent : Trace -> Client -> ContentRequest -> Settled ContentResponse;
  sdk_generateVideos : Trace -> Client -> VideoRequest -> Settled VideoOp;
  sdk_getVideosOperation : Trace -> Client -> VideoOp -> Settled VideoOp;
  (** [fetch(url)] followed by [response.blob()]. *)
  dom_fetchBlob : Trace -> string -> Settled string;
  (** [FileReader.readAsDataURL]. *)
  dom_readAsDataURL : Trace -> string -> Settled string;
  (** Video element: load, seek to the end, draw to a canvas. *)
  dom_seekLastFrame : Trace -> string -> Settled string;
  (** Image element drawn to a canvas and exported as a PNG data URL. *)
  dom_imageToPng : Trace -> string -> Settled string
}.

(** Asynchronous code: a function of the trace so far. *)
Definition IO (A : Type) : Type := Trace -> Outcome A * Trace.

Definition ret {A} (a : A) : IO A := fun t => (Returns a, t).

Definition throw {A} (e : JsVal) : IO A := fun t => (Throws e, t).

Definition bind {A B} (m : IO A) (f : A -> IO B) : IO B :=
  fun t =>
    match m t with
    | (Returns a, t') => f a t'
    | (Throws e, t') => (Throws e, t')
    | (Diverges, t') => (Diverges, t')
    end.

(** [try { m } catch (e) { h e }]. *)
Definition try_catch {A} (m : IO A) (h : JsVal -> IO A) : IO A :=
  fun t =>
    match m t with
    | (Throws e, t') => h e t'
    | r => r
    end.

(** Synchronous code run inside asynchronous code. *)
Definition lift {A} (o : Outcome A) : IO A := fun t => (o, t).

(** [await] of a promise of the outside world: the event is recorded and
    the answer is the one the world gives after the trace so far. *)
Definition perform {A} (ev : Event) (answer : Trace -> Settled A) : IO A :=
  fun t =>
    (match answer t with
     | Resolved a => Returns a
     | Rejected e => Throws e
     end, t ++ [ev]).

(** [Promise.allSettled].  The promises are run one after the other: how
    their steps interleave is not modelled, only that each runs to its end
    whatever became of the others, and that the join waits for all.  The
    program starts every operation before it awaits any, so with two
    operations or more the order of the events in the trace is not the
    order of the program: what is stated of such runs is their results and
    the number of their events; the order of events is stated for a single
    operation only. *)
Fixpoint allSettled {A} (ops : list (IO A)) : IO (list (Settled A)) :=
  match ops with
  | [] => ret []
  | op :: rest =>
      fun t =>
        match op t with
        | (Returns a, t') => bind (allSettled rest) (fun rs => ret (Resolved a :: rs)) t'
        | (Throws e, t') => bind (allSettled rest) (fun rs => ret (Rejected e :: rs)) t'
        | (Diverges, t') => (Diverges, t')
        end
  end.

(** An operation with each of its executions recorded in the trace. *)
Definition observed {A} (op : IO A) : IO A := fun t => op (t ++ [EvInvoke]).

Definition is_invoke (ev : Event) : bool :=
  match ev with
  | EvInvoke => true
  | _ => false
  end.

(** How many executions the trace records. *)
Fixpoint invocations (t : Trace) : nat :=
  match t with
  | [] => 0
  | ev :: t' => if is_invoke ev then S (invocations t') else invocations t'
  end.

(** An operation given by the outcome of each of its executions in turn. *)
Definition scripted {A} (script : nat -> Outcome A) : IO A :=
  observed (fun t => (script (pred (invocations t)), t)).

(** The delays waited for, in order. *)
Fixpoint waits (t : Trace) : list Z :=
  match t with
  | [] => []
  | EvWait ms :: t' => ms :: waits t'
  | _ :: t' => waits t'
  end.

(** An operation that neither waits nor records executions by itself. *)
Definition quiet {A} (op : IO A) : Prop :=
  forall t, invocations (snd (op t)) = invocations t /\ waits (snd (op t)) = waits t.

(** [outcomes m Q E]: from any trace, [m] settles; when it returns, the
    value satisfies [Q], and when it throws, the error satisfies [E]. *)
Definition outcomes {A} (m : IO A) (Q : A -> Prop) (E : JsVal -> Prop) : Prop :=
  forall t,
    match fst (m t) with
    | Returns a => Q a
    | Throws e => E e
    | Diverges => False
    end.

(** [m] settles, one way or the other. *)
Definition settles {A} (m : IO A) : Prop := outcomes m (fun _ => True) (fun _ => True).

(** [m] always returns, with a value satisfying [Q]. *)
Definition always {A} (m : IO A) (Q : A -> Prop) : Prop := outcomes m Q (fun _ => False).

(** [m'] does whatever [m] does when [m] settles. *)
Definition refines {A} (m m' : IO A) : Prop :=
  forall t o t', m t = (o, t') -> o <> Diverges -> m' t = (o, t').

(** The prompts of the [generateContent] requests in a trace. *)
Fixpoint textParts (parts : list Part) : list string :=
  match parts with
  | [] => []
  | PartText s :: rest => s :: textParts rest
  | PartInline _ _ :: rest => textParts rest
  end.

Fixpoint contentPrompts (t : Trace) : list string :=
  match t with
  | [] => []
  | EvGenerateContent _ req :: t' => textParts (cr_parts req) ++ contentPrompts t'
  | _ :: t' => contentPrompts t'
  end.

(** [m] only ever adds events to the trace. *)
Definition extends {A} (m : IO A) : Prop := forall t, t `prefix_of` snd (m t).

End Effects.
Export Effects.

Notation "x <- m ;; k" := (bind m (fun x => k))
  (at level 100, m at next level, right associativity).
Notation "m ;;; k" := (bind m (fun _ => k))
  (at level 100, right associativity).

(** ** [services/geminiService.ts] *)

Module GeminiService.

Section Service.

Variable w : World.

(** [new GoogleGenAI({ apiKey: process.env.API_KEY })]. *)
Definition newGoogleGenAI (key : option string) : IO Client :=
  match sdk_new w key with
  | Some e => throw e
  | None => ret {| apiKey := key |}
  end.

Definition missingKeyError : JsVal :=
  mkError "API Key is missing. Please select a paid API key via the Google AI Studio button.".

Definition getClient : IO Client :=
  if negb (truthy_str (API_KEY w))
  then throw missingKeyError
  else newGoogleGenAI (API_KEY w).

(** [v.k] for a value already known not to be [null] or [undefined]. *)
Definition field (v : JsVal) (k : string) : JsVal :=
  match v with
  | JObj fs => assoc k fs
  | _ => JUndefined
  end.

Definition getErrorMessage (error : JsVal) : JsVal :=
  if negb (truthy error) then JStr "Unknown error"
  else match error with
       | JStr _ => error
       | _ =>
           if truthy (field error "message") then field error "message"
           else if truthy (field error "error") && truthy (field (field error "error") "message")
                then field (field error "error") "message"
                else JStr (JSON_stringify w error)
       end.

Definition wait (ms : Z) : IO unit := perform (EvWait ms) (fun _ => Resolved tt).

(** The classification computed in the [catch] block of
    [retryWithBackoff]; it throws where the source would. *)
Definition isOverloaded (error : JsVal) : Outcome bool :=
  let! msg := match getErrorMessage error with
              | JStr s => Returns (toLowerCase s)
              | _ => Throws (mkTypeError "getErrorMessage(...).toLowerCase is not a function")
              end in
  let! status := get_prop error "status" in
  let! code := get_prop error "code" in
  Returns (strict_eq_num status 503 || strict_eq_num code 503
           || includes msg "overloaded" || includes msg "503"
           || strict_eq_num status 429 || strict_eq_num code 429).

(** The [for] loop of [retryWithBackoff], entered with counter [i] and
    [remaining] iterations left before [i < maxRetries] fails. *)
Fixpoint retry_loop {T} (operation : IO T) (maxRetries baseDelay : Z)
    (remaining : nat) (i : Z) (lastError : JsVal) : IO T :=
  match remaining with
  | O => throw lastError
  | S remaining' =>
      try_catch operation (fun error =>
        overloaded <- lift (isOverloaded error) ;;
        if overloaded && (i <? maxRetries - 1)
        then wait (baseDelay * 2 ^ i) ;;;
             retry_loop operation maxRetries baseDelay remaining' (i + 1) error
        else throw error)
  end.

Definition retryWithBackoff {T} (operation : IO T) (maxRetries baseDelay : Z) : IO T :=
  retry_loop operation maxRetries baseDelay (Z.to_nat maxRetries) 0 JUndefined.

(** The call with both defaults, [maxRetries = 3] and [baseDelay = 2000]. *)
Definition retryWithBackoff_default {T} (operation : IO T) : IO T :=
  retryWithBackoff operation 3 2000.

(** *** Image and video utilities *)

(** The [try] covers the fetch and the blob; the promise of the file
    reader is returned from inside it without being awaited, so its
    rejection is not caught. *)
Definition urlToBase64 (url : string) : IO string :=
  blob <- try_catch
            (b <- perform (EvFetch url) (fun t => dom_fetchBlob w t url) ;; ret (Some b))
            (fun _ => ret None) ;;
  match blob with
  | Some b => perform (EvReadAsDataURL b) (fun t => dom_readAsDataURL w t b)
  | None => ret ""
  end.

Record CompatibleImage : Type := {
  ci_data : string;
  ci_mimeType : string;
  fullDataUri : string
}.

Definition convertImageToCompatibleFormat (base64Str : string) : IO CompatibleImage :=
  if startsWith base64Str "data:image/png;base64,"
     || startsWith base64Str "data:image/jpeg;base64,"
     || startsWith base64Str "data:image/jpg;base64,"
  then
    match match_data_uri "image" is_alpha_plus base64Str with
    | Some (mime, rest) =>
        ret {| ci_data := rest; ci_mimeType := mime; fullDataUri := base64Str |}
    | None =>
        ret {| ci_data := base64Str; ci_mimeType := "image/png"; fullDataUri := base64Str |}
    end
  else
    pngDataUrl <- perform (EvLoadImage base64Str) (fun t => dom_imageToPng w t base64Str) ;;
    let data := match strip_prefix "data:image/png;base64," pngDataUrl with
                | Some rest => rest
                | None => pngDataUrl
                end in
    ret {| ci_data := data; ci_mimeType := "image/png"; fullDataUri := pngDataUrl |}.

Definition extractLastFrame (videoSrc : string) : IO string :=
  perform (EvSeekLastFrame videoSrc) (fun t => dom_seekLastFrame w t videoSrc).

(** *** API functions *)

Record ChatOptions : Type := {
  isThinkingMode : bool;
  isStoryboard : bool;
  isHelpMeWrite : bool
}.

Definition sendChatMessage (history : list (string * list string)) (newMessage : string)
    (options : option ChatOptions) : IO string :=
  ai <- getClient ;;
  let opt (f : ChatOptions -> bool) :=
    match options with Some o => f o | None => false end in
  let modelName := if opt isThinkingMode then "gemini-3-pro-preview"
                   else "gemini-3-flash-preview" in
  let systemInstruction :=
    if opt isStoryboard then STORYBOARD_INSTRUCTION
    else if opt isHelpMeWrite then HELP_ME_WRITE_INSTRUCTION
    else SYSTEM_INSTRUCTION in
  let req := {| chat_model := modelName; chat_systemInstruction := systemInstruction;
                chat_history := history; chat_message := newMessage |} in
  text <- perform (EvSendMessage ai req) (fun t => sdk_sendMessage w t ai req) ;;
  ret (or_default text "No response").

Record ImageOptions : Type := {
  io_aspectRatio : option string;
  io_resolution : option string;
  io_count : option Z
}.

Definition noImageOptions : ImageOptions :=
  {| io_aspectRatio := None; io_resolution := None; io_count := None |}.

Definition imageSize (resolution : option string) : string :=
  match resolution with
  | Some r =>
      let u := toUpperCase r in
      if String.eqb u "1K" then "1K"
      else if String.eqb u "2K" then "2K"
      else if String.eqb u "4K" then "4K"
      else "1K"
  | None => "1K"
  end.

Definition imagePart (base64 : string) : Part :=
  match match_data_uri "image" is_word base64 with
  | Some (mime, clean) => PartInline clean mime
  | None => PartInline base64 "image/png"
  end.

(** The images of a response: every part with non-empty inline data. *)
Fixpoint responseImages (parts : list ResponsePart) : list string :=
  match parts with
  | [] => []
  | p :: rest =>
      match part_inlineData p with
      | Some d =>
          if truthy_str (inl_data d)
          then ("data:" +:+ or_default (inl_mimeType d) "image/png" +:+ ";base64,"
                +:+ interp (inl_data d)) :: responseImages rest
          else responseImages rest
      | None => responseImages rest
      end
  end.

(** The request [generateImageFromText] sends. *)
Definition imageRequest (prompt model : string) (inputImages : list string)
    (options : ImageOptions) : ContentRequest :=
  let effectiveModel := if includes model "imagen" then "imagen-4.0-generate-001"
                        else "gemini-2.5-flash-image" in
  let parts := map imagePart inputImages ++ [PartText prompt] in
  {| cr_model := effectiveModel; cr_parts := parts;
     cr_config := Some {| cfg_systemInstruction := None;
                          cfg_imageConfig :=
                            Some (or_default (io_aspectRatio options) "1:1",
                                  imageSize (io_resolution options));
                          cfg_voiceName := None |} |}.

Definition generateImageFromText (prompt model : string) (inputImages : list string)
    (options : ImageOptions) : IO (list string) :=
  ai <- getClient ;;
  let req := imageRequest prompt model inputImages options in
  try_catch
    (response <- perform (EvGenerateContent ai req) (fun t => sdk_generateContent w t ai req) ;;
     let images := match resp_parts response with
                   | Some ps => responseImages ps
                   | None => []
                   end in
     if (length images =? 0)%nat
     then throw (mkError "No images generated. Safety filter might have been triggered.")
     else ret images)
    (fun e => throw (mkError (to_string (getErrorMessage e)))).

Definition analyzeVideo (videoBase64OrUrl prompt model : string) : IO string :=
  ai <- getClient ;;
  if startsWith videoBase64OrUrl "data:" then
    let inlineData :=
      match match_data_uri "video" is_word videoBase64OrUrl with
      | Some (mime, data) => PartInline data mime
      | None => PartInline videoBase64OrUrl "video/mp4"
      end in
    let req := {| cr_model := model; cr_parts := [inlineData; PartText prompt];
                  cr_config := None |} in
    response <- perform (EvGenerateContent ai req) (fun t => sdk_generateContent w t ai req) ;;
    ret (or_default (resp_text response) "Analysis failed")
  else throw (mkError "Direct URL analysis not implemented.").

Definition orchestrateVideoPrompt (images : list string) (userPrompt : string) : IO string :=
  ai <- getClient ;;
  let parts :=
    map (fun img => PartInline (strip_any_data_uri img) "image/png") images
    ++ [PartText ("Create a single video prompt that transitions between these images. User Intent: "
                  +:+ userPrompt)] in
  let req := {| cr_model := "gemini-3-flash-preview"; cr_parts := parts;
                cr_config := Some {| cfg_systemInstruction := Some VIDEO_ORCHESTRATOR_INSTRUCTION;
                                     cfg_imageConfig := None; cfg_voiceName := None |} |} in
  response <- perform (EvGenerateContent ai req) (fun t => sdk_generateContent w t ai req) ;;
  ret (or_default (resp_text response) userPrompt).

Definition generateAudio (prompt : string) (referenceAudio : option string)
    (personaLabel : option string) : IO string :=
  ai <- getClient ;;
  let voiceName := match personaLabel with
                   | Some l => if String.eqb l "Deep Narrative" then "Kore" else "Puck"
                   | None => "Puck"
                   end in
  let req := {| cr_model := "gemini-2.5-flash-preview-tts"; cr_parts := [PartText prompt];
                cr_config := Some {| cfg_systemInstruction := None; cfg_imageConfig := None;
                                     cfg_voiceName := Some voiceName |} |} in
  response <- perform (EvGenerateContent ai req) (fun t => sdk_generateContent w t ai req) ;;
  let audioData :=
    match resp_parts response with
    | Some (p :: _) =>
        match part_inlineData p with
        | Some d => inl_data d
        | None => None
        end
    | _ => None
    end in
  if negb (truthy_str audioData) then throw (mkError "Audio generation failed")
  else lift (pcmToWav (interp audioData) 24000).

(** *** Video submission *)

Record VideoOptions : Type := {
  vo_aspectRatio : option string;
  vo_count : option Z;
  vo_generationMode : option string;
  vo_resolution : option string
}.

Record VideoResult : Type := {
  uri : option string;
  isFallbackImage : option bool;
  videoMetadata : option Video;
  uris : option (list string)
}.

Definition qualitySuffix : string :=
  ", cinematic lighting, highly detailed, photorealistic, 4k, smooth motion, professional color grading".

Definition enhancedPrompt (prompt : string) : string := prompt +:+ qualitySuffix.

Definition toVideoImage (c : CompatibleImage) : VideoImage :=
  {| imageBytes := ci_data c; img_mimeType := ci_mimeType c |}.

(** The request assembled before the fan-out: [inputs] and [config]. *)
Definition prepareRequest (prompt model : string) (options : VideoOptions)
    (inputImageBase64 : option string) (videoInput : JsVal)
    (referenceImages : option (list string)) : IO VideoRequest :=
  let resolution := or_default (vo_resolution options) "720p" in
  let aspect := or_default (vo_aspectRatio options) "16:9" in
  let request image last :=
    {| vr_model := model; vr_prompt := enhancedPrompt prompt; vr_image := image;
       vr_video := if truthy videoInput then Some videoInput else None;
       vr_config := {| numberOfVideos := 1; vc_aspectRatio := aspect;
                       vc_resolution := resolution; lastFrame := last |} |} in
  let standard :=
    if truthy_str inputImageBase64 then
      try_catch
        (compat <- convertImageToCompatibleFormat (interp inputImageBase64) ;;
         ret (request (Some (toVideoImage compat)) None))
        (fun _ => ret (request None None))
    else ret (request None None) in
  match vo_generationMode options, referenceImages with
  | Some mode, Some refs =>
      if String.eqb mode "FIRST_LAST_FRAME" && (2 <=? length refs)%nat then
        match head refs, last refs with
        | Some first, Some final =>
            startImg <- convertImageToCompatibleFormat first ;;
            endImg <- convertImageToCompatibleFormat final ;;
            ret (request (Some (toVideoImage startImg)) (Some (toVideoImage endImg)))
        | _, _ => standard
        end
      else standard
  | _, _ => standard
  end.

(** The polling loop [while (!op.done)], cut after [fuel] rounds. *)
Fixpoint pollUntilDone (fuel : nat) (innerAi : Client) (op : VideoOp) : IO VideoOp :=
  if op_done op then ret op
  else match fuel with
       | O => fun t => (Diverges, t)
       | S fuel' =>
           wait 10000 ;;;
           op' <- perform (EvGetVideosOperation innerAi op)
                    (fun t => sdk_getVideosOperation w t innerAi op) ;;
           pollUntilDone fuel' innerAi op'
       end.

(** The operation handed to [retryWithBackoff] for each requested video. *)
Definition videoOperation (fuel : nat) (req : VideoRequest) : IO VideoOp :=
  innerAi <- newGoogleGenAI (API_KEY w) ;;
  op <- perform (EvGenerateVideos innerAi req) (fun t => sdk_generateVideos w t innerAi req) ;;
  pollUntilDone fuel innerAi op.

(** The loop over the settled results. *)
Fixpoint collectUris (results : list (Settled VideoOp)) (validUris : list string)
    (primaryMetadata : option Video) : list string * option Video :=
  match results with
  | [] => (validUris, primaryMetadata)
  | Resolved op :: rest =>
      match op_video op with
      | Some vid =>
          if truthy_str (vid_uri vid)
          then collectUris rest
                 (validUris ++ [interp (vid_uri vid) +:+ "&key=" +:+ interp (API_KEY w)])
                 (match primaryMetadata with Some m => Some m | None => Some vid end)
          else collectUris rest validUris primaryMetadata
      | None => collectUris rest validUris primaryMetadata
      end
  | Rejected _ :: rest => collectUris rest validUris primaryMetadata
  end.

(** The video of a settled operation, when it has a usable URI. *)
Definition usableVideo (r : Settled VideoOp) : option Video :=
  match r with
  | Resolved op =>
      match op_video op with
      | Some vid => if truthy_str (vid_uri vid) then Some vid else None
      | None => None
      end
  | Rejected _ => None
  end.

Definition usableVideos (results : list (Settled VideoOp)) : list Video :=
  omap usableVideo results.

(** The URI handed back for a video: the key is appended to it. *)
Definition keyedUri (vid : Video) : string :=
  interp (vid_uri vid) +:+ "&key=" +:+ interp (API_KEY w).

Definition is_rejected {A} (r : Settled A) : bool :=
  match r with
  | Rejected _ => true
  | Resolved _ => false
  end.

(** [firstError?.reason || new Error("Video generation failed.")]. *)
Definition failureCause (results : list (Settled VideoOp)) : JsVal :=
  match List.find is_rejected results with
  | Some (Rejected reason) =>
      if truthy reason then reason else mkError "Video generation failed."
  | _ => mkError "Video generation failed."
  end.

(** The body of the [try] block after the fan-out has settled. *)
Definition joinResults (results : list (Settled VideoOp)) : IO VideoResult :=
  let '(validUris, primaryMetadata) := collectUris results [] None in
  if (length validUris =? 0)%nat then throw (failureCause results)
  else ret {| uri := head validUris; uris := Some validUris;
              videoMetadata := primaryMetadata; isFallbackImage := Some false |}.

Definition fallbackPrompt (prompt : string) : string :=
  "Cinematic movie still, " +:+ enhancedPrompt prompt.

(** The [catch] block: one still image in place of the video. *)
Definition fallbackToImage (prompt : string) (options : VideoOptions) (e : JsVal)
  : IO VideoResult :=
  try_catch
    (imgs <- generateImageFromText (fallbackPrompt prompt) "gemini-2.5-flash-image" []
               {| io_aspectRatio := vo_aspectRatio options; io_resolution := None;
                  io_count := None |} ;;
     ret {| uri := head imgs; isFallbackImage := Some true;
            videoMetadata := None; uris := None |})
    (fun imgErr =>
       throw (mkError ("Video generation failed: " +:+ to_string (getErrorMessage e)))).

(** [options.count || 1], as the number of loop iterations. *)
Definition fanOutCount (options : VideoOptions) : nat :=
  match vo_count options with
  | Some c => if c =? 0 then 1%nat else Z.to_nat c
  | None => 1%nat
  end.

Definition generateVideo (fuel : nat) (prompt model : string) (options : VideoOptions)
    (inputImageBase64 : option string) (videoInput : JsVal)
    (referenceImages : option (list string)) : IO VideoResult :=
  ai <- newGoogleGenAI (API_KEY w) ;;
  req <- prepareRequest prompt model options inputImageBase64 videoInput referenceImages ;;
  try_catch
    (results <- allSettled
                  (replicate (fanOutCount options)
                     (retryWithBackoff_default (videoOperation fuel req))) ;;
     joinResults results)
    (fallbackToImage prompt options).

End Service.

End GeminiService.

(** ** The generation strategies *)

Module Strategies.

(** Modelled from the spec: the [AppNode] type of [../types] is not among
    the sources.  A node carries a [data] payload with an optional still
    image, cropped frame, video reference and video metadata, a declared
    generation mode and an aspect-ratio hint; the fields below are the ones
    the strategies read. *)
Record NodeData : Type := {
  image : option string;
  croppedFrame : option string;
  videoUri : option string;
  nd_videoMetadata : JsVal;
  nd_generationMode : option string;
  aspectRatio : option string
}.

Record AppNode : Type := {
  id : string;
  data : NodeData
}.

Record StrategyResult : Type := {
  finalPrompt : string;
  videoInput : JsVal;
  inputImageForGeneration : option string;   (* [None] is [null] *)
  referenceImages : option (list string);    (* [None] is [undefined] *)
  generationMode : string
}.

(** The functions the strategy module imports from the service. *)
Class Service : Type := {
  svc_extractLastFrame : string -> IO string;
  svc_urlToBase64 : string -> IO string;
  svc_analyzeVideo : string -> string -> string -> IO string;
  svc_orchestrateVideoPrompt : list string -> string -> IO string;
  svc_generateImageFromText :
    string -> string -> list string -> GeminiService.ImageOptions -> IO (list string)
}.

(** The service of [geminiService.ts] in a given world. *)
Definition geminiService (w : World) : Service := {|
  svc_extractLastFrame := GeminiService.extractLastFrame w;
  svc_urlToBase64 := GeminiService.urlToBase64 w;
  svc_analyzeVideo := GeminiService.analyzeVideo w;
  svc_orchestrateVideoPrompt := GeminiService.orchestrateVideoPrompt w;
  svc_generateImageFromText := GeminiService.generateImageFromText w
|}.

(** [x || null] on an optional string. *)
Definition or_null (o : option string) : option string :=
  if truthy_str o then o else None.

(** A service whose calls all settle. *)
Class Settling (svc : Service) : Prop := {
  settles_extractLastFrame : forall src, settles (svc_extractLastFrame src);
  settles_urlToBase64 : forall url, settles (svc_urlToBase64 url);
  settles_analyzeVideo : forall v p m, settles (svc_analyzeVideo v p m);
  settles_orchestrateVideoPrompt : forall imgs p, settles (svc_orchestrateVideoPrompt imgs p);
  settles_generateImageFromText :
    forall p m imgs o, settles (svc_generateImageFromText p m imgs o)
}.

Section WithService.

Context {svc : Service}.

(** Module: Default. *)
Definition processDefaultVideoGen (node : AppNode) (inputs : list AppNode)
    (prompt : string) : IO StrategyResult :=
  let imageInput :=
    List.find (fun n => truthy_str (image (data n)) || truthy_str (croppedFrame (data n)))
      inputs in
  let inputImageForGeneration :=
    match imageInput with
    | Some n => or_null (or_str (croppedFrame (data n)) (image (data n)))
    | None => None
    end in
  ret {| finalPrompt := prompt;
         videoInput := JNull;
         inputImageForGeneration := inputImageForGeneration;
         referenceImages := None;
         generationMode := "DEFAULT" |}.

(** [if (s.startsWith('http')) s = await urlToBase64(s)]. *)
Definition materialize (src : string) : IO string :=
  if startsWith src "http" then svc_urlToBase64 src else ret src.

(** Module: StoryContinuator. *)
Definition processStoryContinuator (node : AppNode) (inputs : list AppNode)
    (prompt : string) : IO StrategyResult :=
  let videoNode :=
    List.find (fun n => truthy_str (videoUri (data n)) || truthy (nd_videoMetadata (data n)))
      inputs in
  inputImages <-
    match videoNode with
    | Some v =>
        if truthy_str (videoUri (data v)) then
          try_catch
            (videoSrc <- materialize (interp (videoUri (data v))) ;;
             lastFrame <- svc_extractLastFrame videoSrc ;;
             ret (if negb (String.eqb lastFrame "") then [lastFrame] else []))
            (fun _ => ret [])
        else ret []
    | None => ret []
    end ;;
  ret {| finalPrompt := prompt;
         videoInput := JNull;
         inputImageForGeneration := head inputImages;
         referenceImages := None;
         generationMode := "CONTINUE" |}.

(** The [forEach] of FrameWeaver: the cropped frame or image of every
    input that has one, in input order. *)
Fixpoint collectImages (inputs : list AppNode) : list string :=
  match inputs with
  | [] => []
  | n :: rest =>
      let src := or_str (croppedFrame (data n)) (image (data n)) in
      if truthy_str src then interp src :: collectImages rest
      else collectImages rest
  end.

(** Module: FrameWeaver. *)
Definition processFrameWeaver (node : AppNode) (inputs : list AppNode)
    (prompt : string) : IO StrategyResult :=
  let inputImages := collectImages inputs in
  finalPrompt <-
    (if (2 <=? length inputImages)%nat then
       match head inputImages, last inputImages with
       | Some first, Some final =>
           try_catch (svc_orchestrateVideoPrompt [first; final] prompt)
                     (fun _ => ret prompt)
       | _, _ => ret prompt
       end
     else ret prompt) ;;
  ret {| finalPrompt := finalPrompt;
         videoInput := JNull;
         inputImageForGeneration := head inputImages;
         referenceImages := Some inputImages;
         generationMode := "FIRST_LAST_FRAME" |}.

(** The image SceneDirector selects before the restoration pass. *)
Definition selectSceneImage (node : AppNode) (inputs : list AppNode) : option string :=
  if truthy_str (croppedFrame (data node)) then croppedFrame (data node)
  else
    match List.find (fun n => truthy_str (croppedFrame (data n))) inputs with
    | Some cropSource => croppedFrame (data cropSource)
    | None =>
        match List.find (fun n => truthy_str (image (data n))) inputs with
        | Some n => image (data n)
        | None => None
        end
    end.

(** The style analysis of the first upstream video, [""] without one or on
    any failure. *)
Definition upstreamStyle (inputs : list AppNode) : IO string :=
  match List.find (fun n => truthy_str (videoUri (data n))) inputs with
  | Some v =>
      if truthy_str (videoUri (data v)) then
        try_catch
          (vidData <- materialize (interp (videoUri (data v))) ;;
           svc_analyzeVideo vidData "Analyze the visual style briefly." "gemini-3-flash-preview")
          (fun _ => ret "")
      else ret ""
  | None => ret ""
  end.

Definition restorationPrompt (prompt : string) : string :=
  "Sharpen and upscale this crop to 4K cinematic quality. Preserve composition exactly. Description: "
  +:+ prompt +:+ ".".

(** The restoration pass on a selected image. *)
Definition restore (node : AppNode) (prompt : string) (selected : string) : IO string :=
  try_catch
    (restoredImages <-
       svc_generateImageFromText (restorationPrompt prompt) "gemini-2.5-flash-image" [selected]
         {| GeminiService.io_aspectRatio := Some (or_default (aspectRatio (data node)) "16:9");
            GeminiService.io_resolution := None;
            GeminiService.io_count := Some 1 |} ;;
     ret (match restoredImages with
          | first :: _ => first
          | [] => selected
          end))
    (fun _ => ret selected).

(** Module: SceneDirector. *)
Definition processSceneDirector (node : AppNode) (inputs : list AppNode)
    (prompt : string) : IO StrategyResult :=
  upstreamContextStyle <- upstreamStyle inputs ;;
  let selected := selectSceneImage node inputs in
  let finalPrompt := prompt +:+ ". " +:+ nl +:+ nl +:+ "Style: " +:+ upstreamContextStyle in
  inputImageForGeneration <-
    (if truthy_str selected
     then restored <- restore node prompt (interp selected) ;; ret (Some restored)
     else ret selected) ;;
  ret {| finalPrompt := finalPrompt;
         videoInput := JNull;
         inputImageForGeneration := inputImageForGeneration;
         referenceImages := None;
         generationMode := "CUT" |}.

(** Module: CharacterRef. *)
Definition processCharacterRef (node : AppNode) (inputs : list AppNode)
    (prompt : string) : IO StrategyResult :=
  let videoSource := List.find (fun n => truthy_str (videoUri (data n))) inputs in
  let characterImage :=
    match List.find (fun n => truthy_str (image (data n))) inputs with
    | Some n => or_null (image (data n))
    | None => None
    end in
  motionDescription <-
    match videoSource with
    | Some v =>
        if truthy_str (videoUri (data v)) then
          try_catch
            (vidData <- materialize (interp (videoUri (data v))) ;;
             svc_analyzeVideo vidData "Describe only the motion and camera movement."
               "gemini-3-flash-preview")
            (fun _ => ret "")
        else ret ""
    | None => ret ""
    end ;;
  let finalPrompt :=
    if negb (String.eqb motionDescription "")
    then "Motion: " +:+ motionDescription +:+ ". " +:+ prompt
    else prompt in
  ret {| finalPrompt := finalPrompt;
         videoInput := JNull;
         inputImageForGeneration := characterImage;
         referenceImages := None;
         generationMode := "CHARACTER_REF" |}.

(** Main factory. *)
Definition getGenerationStrategy (node : AppNode) (inputs : list AppNode)
    (basePrompt : string) : IO StrategyResult :=
  let mode := or_default (nd_generationMode (data node)) "DEFAULT" in
  if String.eqb mode "CHARACTER_REF" then processCharacterRef node inputs basePrompt
  else if String.eqb mode "FIRST_LAST_FRAME" then processFrameWeaver node inputs basePrompt
  else if String.eqb mode "CUT" then processSceneDirector node inputs basePrompt
  else if String.eqb mode "CONTINUE" then processStoryContinuator node inputs basePrompt
  else processDefaultVideoGen node inputs basePrompt.

End WithService.

(** What the results of all strategies have in common: the video input,
    and the reference images and mode tag that go together. *)
Definition common_shape (mode : string) (refs : option (list string)) (r : StrategyResult)
  : Prop :=
  videoInput r = JNull /\ referenceImages r = refs /\ generationMode r = mode.

(** The mode tags of the strategies that take no reference images. *)
Definition single_image_modes : list string := ["DEFAULT"; "CONTINUE"; "CUT"; "CHARACTER_REF"].

(** The shape of a result: no video input; reference images present under
    the first-last-frame tag, undefined under each of the other four. *)
Definition well_shaped (r : StrategyResult) : Prop :=
  videoInput r = JNull
  /\ ((generationMode r = "FIRST_LAST_FRAME" /\ exists refs, referenceImages r = Some refs)
      \/ (In (generationMode r) single_image_modes /\ referenceImages r = None)).

(** The five strategies and the factory, under one service. *)
Definition allStrategies (svc : Service)
  : list (AppNode -> list AppNode -> string -> IO StrategyResult) :=
  [processDefaultVideoGen; processStoryContinuator; processFrameWeaver;
   processSceneDirector; processCharacterRef; getGenerationStrategy].


End Strategies.

(** ** Concrete worlds and inputs *)

Module Scenarios.

Import GeminiService Strategies.

Definition unavailable : JsVal :=
  JObj [("status", JNum 503); ("message", JStr "The service is currently unavailable.")].

Definition badRequest : JsVal :=
  JObj [("status", JNum 400); ("message", JStr "Request contains an invalid argument.")].

(** A world with a key configured in which every remote call is refused
    with a 400 and every browser operation fails. *)
Definition refusingWorld : World := {|
  API_KEY := Some "KEY";
  JSON_stringify := fun _ => "{}";
  sdk_new := fun _ => None;
  sdk_sendMessage := fun _ _ _ => Rejected badRequest;
  sdk_generateContent := fun _ _ _ => Rejected badRequest;
  sdk_generateVideos := fun _ _ _ => Rejected badRequest;
  sdk_getVideosOperation := fun _ _ _ => Rejected badRequest;
  dom_fetchBlob := fun _ _ => Rejected (mkError "Failed to fetch");
  dom_readAsDataURL := fun _ _ => Rejected (mkError "read error");
  dom_seekLastFrame := fun _ _ => Rejected (mkError "Video load failed for frame extraction");
  dom_imageToPng := fun _ _ => Rejected (mkError "Image conversion failed for Veo compatibility")
|}.

(** What the SDK itself says to a client without a key. *)
Definition keyMustBeSet : JsVal :=
  mkError "An API Key must be set when running in a browser".

Definition keyIsMissing : JsVal :=
  mkError "API key is missing. Please provide a valid API key.".

(** A page without a usable key, the SDK behaving as the browser build of
    the SDK does: the constructor throws when the key is not set at all and
    accepts any string, the empty one too; a call made through a client
    whose key is empty is refused by the SDK before anything is sent; every
    other call would be answered with a 400.  The browser loads no image. *)
Definition browserSdk (key : option string) : World := {|
  API_KEY := key;
  JSON_stringify := fun _ => "{}";
  sdk_new := fun k => match k with
                      | None => Some keyMustBeSet
                      | Some _ => None
                      end;
  sdk_sendMessage := fun _ ai _ =>
    if truthy_str (apiKey ai) then Rejected badRequest else Rejected keyIsMissing;
  sdk_generateContent := fun _ ai _ =>
    if truthy_str (apiKey ai) then Rejected badRequest else Rejected keyIsMissing;
  sdk_generateVideos := fun _ ai _ =>
    if truthy_str (apiKey ai) then Rejected badRequest else Rejected keyIsMissing;
  sdk_getVideosOperation := fun _ ai _ =>
    if truthy_str (apiKey ai) then Rejected badRequest else Rejected keyIsMissing;
  dom_fetchBlob := fun _ _ => Rejected (mkError "Failed to fetch");
  dom_readAsDataURL := fun _ _ => Rejected (mkError "read error");
  dom_seekLastFrame := fun _ _ => Rejected (mkError "Video load failed for frame extraction");
  dom_imageToPng := fun _ _ => Rejected (mkError "Image conversion failed for Veo compatibility")
|}.

Definition is_generateVideos (ev : Event) : bool :=
  match ev with
  | EvGenerateVideos _ _ => true
  | _ => false
  end.

(** How many video submissions the trace records. *)
Fixpoint submissions (t : Trace) : nat :=
  match t with
  | [] => 0
  | ev :: t' => if is_generateVideos ev then S (submissions t') else submissions t'
  end.

Definition pendingOp (name : string) : VideoOp :=
  {| op_name := name; op_done := false; op_video := None |}.

Definition finishedOp (name uri : string) : VideoOp :=
  {| op_name := name; op_done := true;
     op_video := Some {| vid_uri := Some uri; vid_meta := JNull |} |}.

(** Of the videos asked for, the second is accepted and is finished at the
    first poll; every other submission is refused with a 400, and so is
    every image request. *)
Definition secondOnlyWorld : World := {|
  API_KEY := Some "KEY";
  JSON_stringify := fun _ => "{}";
  sdk_new := fun _ => None;
  sdk_sendMessage := fun _ _ _ => Rejected badRequest;
  sdk_generateContent := fun _ _ _ => Rejected badRequest;
  sdk_generateVideos := fun t _ _ =>
    if (submissions t =? 1)%nat
    then Resolved (pendingOp "operations/2")
    else Rejected badRequest;
  sdk_getVideosOperation := fun _ _ op =>
    Resolved (finishedOp (op_name op) "https://videos.example/2?alt=media");
  dom_fetchBlob := fun _ _ => Rejected (mkError "Failed to fetch");
  dom_readAsDataURL := fun _ _ => Rejected (mkError "read error");
  dom_seekLastFrame := fun _ _ => Rejected (mkError "Video load failed for frame extraction");
  dom_imageToPng := fun _ _ => Rejected (mkError "Image conversion failed for Veo compatibility")
|}.

(** No video is accepted; the image request is answered with one PNG. *)
Definition stillOnlyWorld : World := {|
  API_KEY := Some "KEY";
  JSON_stringify := fun _ => "{}";
  sdk_new := fun _ => None;
  sdk_sendMessage := fun _ _ _ => Rejected badRequest;
  sdk_generateContent := fun _ _ _ =>
    Resolved {| resp_text := None;
                resp_parts := Some [{| part_inlineData :=
                                         Some {| inl_data := Some "iVBORw0KGgo=";
                                                 inl_mimeType := Some "image/png" |} |}] |};
  sdk_generateVideos := fun _ _ _ => Rejected badRequest;
  sdk_getVideosOperation := fun _ _ _ => Rejected badRequest;
  dom_fetchBlob := fun _ _ => Rejected (mkError "Failed to fetch");
  dom_readAsDataURL := fun _ _ => Rejected (mkError "read error");
  dom_seekLastFrame := fun _ _ => Rejected (mkError "Video load failed for frame extraction");
  dom_imageToPng := fun _ _ => Rejected (mkError "Image conversion failed for Veo compatibility")
|}.

Definition videoOptions (count : option Z) : VideoOptions :=
  {| vo_aspectRatio := None; vo_count := count; vo_generationMode := None;
     vo_resolution := None |}.

(** A node with nothing but a mode tag. *)
Definition taggedNode (tag : option string) : AppNode :=
  {| id := "n1";
     data := {| image := None; croppedFrame := None; videoUri := None;
                nd_videoMetadata := JUndefined; nd_generationMode := tag;
                aspectRatio := None |} |}.

(** A node holding a video reference only. *)
Definition videoNode (name uri : string) : AppNode :=
  {| id := name;
     data := {| image := None; croppedFrame := None; videoUri := Some uri;
                nd_videoMetadata := JUndefined; nd_generationMode := None;
                aspectRatio := None |} |}.

(** A node holding an image and, possibly, a cropped frame of its own. *)
Definition imageNode (name : string) (img crop : option string) : AppNode :=
  {| id := name;
     data := {| image := img; croppedFrame := crop; videoUri := None;
                nd_videoMetadata := JUndefined; nd_generationMode := None;
                aspectRatio := None |} |}.

(** An operation failing twice with a 503 and then returning 7. *)
Definition flaky : nat -> Outcome Z :=
  fun k => match k with
           | 0%nat | 1%nat => Throws unavailable
           | _ => Returns 7
           end.

End Scenarios.

(** ** More worlds *)

Module Studio.

Import GeminiService Strategies Scenarios.

Definition clipUri : string := "data:video/mp4;base64,AAAAIGZ0eXBpc29t".

Definition framePng : string := "data:image/png;base64,iVBORw0KGgo=".

(** A world in which everything works: the browser fetches, reads and
    draws; every text request is answered with a line of text and one PNG;
    every video is accepted and finished at the first poll. *)
Definition obligingWorld : World := {|
  API_KEY := Some "KEY";
  JSON_stringify := fun _ => "{}";
  sdk_new := fun _ => None;
  sdk_sendMessage := fun _ _ _ => Resolved (Some "Hello.");
  sdk_generateContent := fun _ _ _ =>
    Resolved {| resp_text := Some "slow pan to the left";
                resp_parts := Some [{| part_inlineData :=
                                         Some {| inl_data := Some "iVBORw0KGgo=";
                                                 inl_mimeType := Some "image/png" |} |}] |};
  sdk_generateVideos := fun t _ _ => Resolved (pendingOp "operations/1");
  sdk_getVideosOperation := fun _ _ op =>
    Resolved (finishedOp (op_name op) "https://videos.example/1?alt=media");
  dom_fetchBlob := fun _ url => Resolved ("blob:" +:+ url);
  dom_readAsDataURL := fun _ _ => Resolved clipUri;
  dom_seekLastFrame := fun _ _ => Resolved framePng;
  dom_imageToPng := fun _ _ => Resolved framePng
|}.

(** As above, but every request for text is answered without any. *)
Definition silentWorld : World := {|
  API_KEY := Some "KEY";
  JSON_stringify := fun _ => "{}";
  sdk_new := fun _ => None;
  sdk_sendMessage := fun _ _ _ => Resolved None;
  sdk_generateContent := fun _ _ _ => Resolved {| resp_text := None; resp_parts := None |};
  sdk_generateVideos := fun t _ _ => Resolved (pendingOp "operations/1");
  sdk_getVideosOperation := fun _ _ op =>
    Resolved (finishedOp (op_name op) "https://videos.example/1?alt=media");
  dom_fetchBlob := fun _ url => Resolved ("blob:" +:+ url);
  dom_readAsDataURL := fun _ _ => Resolved clipUri;
  dom_seekLastFrame := fun _ _ => Resolved framePng;
  dom_imageToPng := fun _ _ => Resolved framePng
|}.

(** As [obligingWorld], every request for content being answered with the
    two bytes 1 and 2 of audio. *)
Definition speakingWorld : World := {|
  API_KEY := Some "KEY";
  JSON_stringify := fun _ => "{}";
  sdk_new := fun _ => None;
  sdk_sendMessage := fun _ _ _ => Resolved (Some "Hello.");
  sdk_generateContent := fun _ _ _ =>
    Resolved {| resp_text := None;
                resp_parts := Some [{| part_inlineData :=
                                         Some {| inl_data := Some "AQI=";
                                                 inl_mimeType := Some "audio/L16" |} |}] |};
  sdk_generateVideos := fun t _ _ => Resolved (pendingOp "operations/1");
  sdk_getVideosOperation := fun _ _ op =>
    Resolved (finishedOp (op_name op) "https://videos.example/1?alt=media");
  dom_fetchBlob := fun _ url => Resolved ("blob:" +:+ url);
  dom_readAsDataURL := fun _ _ => Resolved clipUri;
  dom_seekLastFrame := fun _ _ => Resolved framePng;
  dom_imageToPng := fun _ _ => Resolved framePng
|}.

(** Every video is accepted, and every poll is refused with a 503; image
    requests are refused with a 400 and the browser draws nothing. *)
Definition busyWorld : World := {|
  API_KEY := Some "KEY";
  JSON_stringify := fun _ => "{}";
  sdk_new := fun _ => None;
  sdk_sendMessage := fun _ _ _ => Rejected badRequest;
  sdk_generateContent := fun _ _ _ => Rejected badRequest;
  sdk_generateVideos := fun t _ _ => Resolved (pendingOp "operations/1");
  sdk_getVideosOperation := fun _ _ _ => Rejected unavailable;
  dom_fetchBlob := fun _ _ => Rejected (mkError "Failed to fetch");
  dom_readAsDataURL := fun _ _ => Rejected (mkError "read error");
  dom_seekLastFrame := fun _ _ => Rejected (mkError "Video load failed for frame extraction");
  dom_imageToPng := fun _ _ => Rejected (mkError "Image conversion failed for Veo compatibility")
|}.

(** A node that carries the metadata of a video and no video reference. *)
Definition metadataNode (name : string) : AppNode :=
  {| id := name;
     data := {| image := None; croppedFrame := None; videoUri := None;
                nd_videoMetadata := JObj [("duration", JNum 8)];
                nd_generationMode := None; aspectRatio := None |} |}.

Definition webp : string := "data:image/webp;base64,UklGRhoAAABXRUJQ".

Definition weaverOptions : VideoOptions :=
  {| vo_aspectRatio := None; vo_count := None;
     vo_generationMode := Some "FIRST_LAST_FRAME"; vo_resolution := None |}.

End Studio.

(** ** The stored Pollo key: [components/SettingsModal.tsx] and [getPolloKey] *)

Module Settings.

(** The text of the field and of the storage: a JavaScript string, as the
    sequence of its UTF-16 code units. *)
Definition Text : Type := list Z.

(** A literal of the source, all of whose characters are ASCII. *)
Definition literal (s : string) : Text := Runtime.charCodes s.

(** [window.localStorage]. *)
Definition Storage : Type := gmap Text Text.

(** [getItem] answers [null] for a key that is not there. *)
Definition getItem (store : Storage) (key : Text) : option Text := store !! key.

Definition setItem (store : Storage) (key value : Text) : Storage :=
  <[key := value]> store.

(** The code units [String.prototype.trim] strips: the white space of
    ECMAScript (TAB, VT, FF, SP, NBSP, ZWNBSP and the space separators of
    Unicode: U+1680, U+2000 to U+200A, U+202F, U+205F, U+3000) and its line
    terminators (LF, CR, U+2028, U+2029).  All of them are single code
    units. *)
Definition is_white_space (u : Z) : bool :=
  (u =? 9) || (u =? 10) || (u =? 11) || (u =? 12) || (u =? 13) || (u =? 32)
  || (u =? 160) || (u =? 5760) || ((8192 <=? u) && (u <=? 8202))
  || (u =? 8232) || (u =? 8233) || (u =? 8239) || (u =? 8287)
  || (u =? 12288) || (u =? 65279).

Fixpoint dropWhiteSpace (us : Text) : Text :=
  match us with
  | u :: us' => if is_white_space u then dropWhiteSpace us' else us
  | [] => []
  end.

Definition trim (s : Text) : Text :=
  rev (dropWhiteSpace (rev (dropWhiteSpace s))).

(** The first code unit, if any, is not white space. *)
Definition clean_start (us : Text) : Prop :=
  match us with
  | u :: _ => is_white_space u = false
  | [] => True
  end.

(** [getPolloKey] of [geminiService.ts]. *)
Definition getPolloKey (store : Storage) : option Text :=
  getItem store (literal "pollo_api_key").

(** The callbacks [handleSave] hands to [setTimeout]. *)
Inductive Callback : Type :=
| ClearSaved   (* () => setIsSaved(false) *)
| Close.       (* onClose *)

(** The state of the modal that [handleSave] touches, the storage of the
    page, and the timers set and not yet fired, in the order they were set. *)
Record Page : Type := {
  polloKey : Text;
  isSaved : bool;
  localStorage : Storage;
  timers : list (Z * Callback)
}.

Definition handleSave (p : Page) : Page :=
  {| polloKey := polloKey p;
     isSaved := true;
     localStorage := setItem (localStorage p) (literal "pollo_api_key") (trim (polloKey p));
     timers := timers p ++ [(2000, ClearSaved); (500, Close)] |}.

(** The part of the effect run on opening that reads the stored key:
    [if (stored) setPolloKey(stored)]. *)
Definition loadStored (p : Page) : Page :=
  match getItem (localStorage p) (literal "pollo_api_key") with
  | Some (u :: stored) =>
      {| polloKey := u :: stored; isSaved := isSaved p;
         localStorage := localStorage p; timers := timers p |}
  | Some [] => p
  | None => p
  end.

End Settings.

(** ** The remaining entry points of the service *)

Module Tools.
Import GeminiService.

Section Service.

Variable w : World.

(** [imgs[0]] of the images generated from the one input image; [None]
    is [undefined]. *)
Definition editImageWithText (imageBase64 prompt model : string) : IO (option string) :=
  imgs <- generateImageFromText w prompt model [imageBase64]
            {| io_aspectRatio := None; io_resolution := None; io_count := Some 1 |} ;;
  ret (head imgs).

(** The inline part [transcribeAudio] sends for its argument. *)
Definition audioPart (audioBase64 : string) : Part :=
  match match_data_uri "audio" is_word audioBase64 with
  | Some (mime, data) => PartInline data mime
  | None => PartInline audioBase64 "audio/wav"
  end.

Definition transcribeAudio (audioBase64 : string) : IO string :=
  ai <- getClient w ;;
  let req := {| cr_model := "gemini-3-flash-preview";
                cr_parts := [audioPart audioBase64;
                             PartText "Transcribe this audio strictly verbatim."];
                cr_config := None |} in
  response <- perform (EvGenerateContent ai req) (fun t => sdk_generateContent w t ai req) ;;
  ret (or_default (resp_text response) EmptyString).

End Service.

(** What [compileMultiFramePrompt] reads of a frame: [transition?.prompt]. *)
Record Transition : Type := { tr_prompt : option string }.

Record Frame : Type := { transition : option Transition }.

Definition framePrompt (f : Frame) : string :=
  or_default (match transition f with
              | Some tr => tr_prompt tr
              | None => None
              end) "scene".

(** [Array.prototype.join] on strings. *)
Fixpoint join (sep : string) (l : list string) : string :=
  match l with
  | [] => EmptyString
  | [x] => x
  | x :: rest => x +:+ sep +:+ join sep rest
  end.

Definition compileMultiFramePrompt (frames : list Frame) : string :=
  "A sequence showing: " +:+ join " transitioning to " (map framePrompt frames).

End Tools.

(** ** Auxiliary notions for the further properties *)

Module Support.

(** The sextets [btoa] writes for a list of bytes, before they are turned
    into characters, and the padding that follows them. *)
Fixpoint sextets (l : list Z) : list Z :=
  match l with
  | a :: b :: c :: rest =>
      Z.shiftr a 2
      :: Z.lor (Z.shiftl (Z.land a 3) 4) (Z.shiftr b 4)
      :: Z.lor (Z.shiftl (Z.land b 15) 2) (Z.shiftr c 6)
      :: Z.land c 63
      :: sextets rest
  | [a; b] =>
      [Z.shiftr a 2;
       Z.lor (Z.shiftl (Z.land a 3) 4) (Z.shiftr b 4);
       Z.shiftl (Z.land b 15) 2]
  | [a] => [Z.shiftr a 2; Z.shiftl (Z.land a 3) 4]
  | [] => []
  end.

Fixpoint padding (l : list Z) : list ascii :=
  match l with
  | _ :: _ :: _ :: rest => padding rest
  | [_; _] => ["="%char]
  | [_] => ["="%char; "="%char]
  | [] => []
  end.

(** A byte, as a [Uint8Array] holds it. *)
Definition is_byte (b : Z) : Prop := 0 <= b < 256.

Definition is_sextet (n : Z) : Prop := 0 <= n < 64.

(** Every character of [s] is in the class [f]. *)
Fixpoint all_chars (f : ascii -> bool) (s : string) : bool :=
  match s with
  | EmptyString => true
  | String c s' => f c && all_chars f s'
  end.

(** The inline image a response part carries, as the request of a later
    call should send it back: its data and its MIME type, [image/png] when
    the part names none. *)
Definition inlineImage (p : ResponsePart) : option Part :=
  match part_inlineData p with
  | Some d =>
      if truthy_str (inl_data d)
      then Some (PartInline (interp (inl_data d)) (or_default (inl_mimeType d) "image/png"))
      else None
  | None => None
  end.

(** A MIME type the service's [image/\w+] expressions read back whole. *)
Definition is_image_mime (m : string) : bool :=
  match strip_prefix "image/" m with
  | Some sub => negb (String.eqb sub EmptyString) && all_chars is_word sub
  | None => false
  end.

Definition plain_mime (p : ResponsePart) : bool :=
  match part_inlineData p with
  | Some d =>
      match inl_mimeType d with
      | Some m => String.eqb m EmptyString || is_image_mime m
      | None => true
      end
  | None => true
  end.

(** The [generateContent] requests a trace records, in order. *)
Fixpoint contentRequests (t : Trace) : list ContentRequest :=
  match t with
  | [] => []
  | EvGenerateContent _ req :: t' => req :: contentRequests t'
  | _ :: t' => contentRequests t'
  end.

Definition is_data_uri (s : string) : bool := startsWith s "data:".

(** The image types the video model takes as they are. *)
Definition compatible_types : list string := ["image/png"; "image/jpeg"; "image/jpg"].

(** Whether [generateVideo] takes the branch of the first and last frame. *)
Definition firstLastFrames (options : GeminiService.VideoOptions)
    (referenceImages : option (list string)) : bool :=
  match GeminiService.vo_generationMode options, referenceImages with
  | Some mode, Some refs => String.eqb mode "FIRST_LAST_FRAME" && (2 <=? length refs)%nat
  | _, _ => false
  end.

(** A way of counting events: the count of a trace is the sum over its
    pieces. *)
Definition additive (count : Trace -> nat) : Prop :=
  forall t1 t2, count (t1 ++ t2) = (count t1 + count t2)%nat.

(** [m] adds at most [n] to the count, however it ends. *)
Definition spends (count : Trace -> nat) {A} (m : IO A) (n : nat) : Prop :=
  forall t, (count (snd (m t)) <= count t + n)%nat.

(** Whether the [catch] block of [retryWithBackoff] can classify a
    rejection: it reads [error.status], which throws on [null] and on
    [undefined], and it lower-cases the message, which has to be a string. *)
Definition classifiable (w : World) (e : JsVal) : bool :=
  match e with
  | JUndefined | JNull => false
  | _ => match GeminiService.getErrorMessage w e with
         | JStr _ => true
         | _ => false
         end
  end.

(** The classification in the words of the specification: an error is
    transient when its status or code is 429 or 503, or when its message
    contains ["overloaded"] or ["503"], whatever the case of its letters. *)
Definition transient (w : World) (e : JsVal) : bool :=
  let message := toLowerCase (to_string (GeminiService.getErrorMessage w e)) in
  strict_eq_num (GeminiService.field e "status") 429
  || strict_eq_num (GeminiService.field e "status") 503
  || strict_eq_num (GeminiService.field e "code") 429
  || strict_eq_num (GeminiService.field e "code") 503
  || includes message "overloaded"
  || includes message "503".

(** The request [generateAudio] sends, and the audio data it reads from
    the answer: [candidates?.[0]?.content?.parts?.[0]?.inlineData?.data]. *)
Definition audioRequest (prompt : string) (personaLabel : option string) : ContentRequest :=
  {| cr_model := "gemini-2.5-flash-preview-tts";
     cr_parts := [PartText prompt];
     cr_config := Some {| cfg_systemInstruction := None; cfg_imageConfig := None;
                          cfg_voiceName :=
                            Some (match personaLabel with
                                  | Some l => if String.eqb l "Deep Narrative"
                                              then "Kore" else "Puck"
                                  | None => "Puck"
                                  end) |} |}.

Definition responseAudio (response : ContentResponse) : option string :=
  match resp_parts response with
  | Some (p :: _) =>
      match part_inlineData p with
      | Some d => inl_data d
      | None => None
      end
  | _ => None
  end.

(** The three prefixes [convertImageToCompatibleFormat] lets through. *)
Definition passes_through (base64Str : string) : bool :=
  startsWith base64Str "data:image/png;base64,"
  || startsWith base64Str "data:image/jpeg;base64,"
  || startsWith base64Str "data:image/jpg;base64,".

(** The delays of [retryWithBackoff] before the attempts [from + 1], ...,
    [from + n]: [baseDelay * 2 ^ i] for [i] from [from]. *)
Definition backoffSchedule (baseDelay : Z) (from n : nat) : list Z :=
  map (fun i => baseDelay * 2 ^ Z.of_nat i) (seq from n).

End Support.

(** * Properties *)

(** ** WAV framing *)

Module AudioFacts.

Lemma append_nil_r (s : string) : s +:+ "" = s.
Proof.
  induction s as [|c s IH]; [reflexivity|].
  change (String c (s +:+ "") = String c s). by rewrite IH.
Qed.

Lemma append_assoc (a b c : string) : (a +:+ b) +:+ c = a +:+ (b +:+ c).
Proof.
  induction a as [|x a IH]; [reflexivity|].
  change (String x ((a +:+ b) +:+ c) = String x (a +:+ (b +:+ c))). by rewrite IH.
Qed.

Lemma fromCharCodes_app (l1 l2 : list Z) :
  fromCharCodes (l1 ++ l2) = fromCharCodes l1 +:+ fromCharCodes l2.
Proof.
  unfold fromCharCodes. induction l1 as [|x l1 IH]; [reflexivity|].
  rewrite <- app_comm_cons. cbn [map String.string_of_list_ascii].
  rewrite IH. reflexivity.
Qed.

(** The chunked conversion to a binary string covers the whole file: the
    fuel given by [combineBase64Chunks] never runs out. *)
Lemma toBinary_from (fuel : nat) (file : list Z) (i : nat) (binary : string) :
  (length file - i <= fuel)%nat ->
  toBinary fuel file i binary = binary +:+ fromCharCodes (drop i file).
Proof.
  revert i binary. induction fuel as [|fuel IH]; intros i binary Hfuel.
  - cbn [toBinary]. rewrite drop_ge by lia. by rewrite append_nil_r.
  - cbn [toBinary]. destruct (Nat.ltb_spec i (length file)) as [Hlt|Hge].
    + rewrite IH by lia. rewrite append_assoc, <- fromCharCodes_app.
      rewrite <- drop_drop, take_drop. reflexivity.
    + rewrite drop_ge by lia. by rewrite append_nil_r.
Qed.

Lemma toBinary_whole (file : list Z) :
  toBinary (length file) file 0 "" = fromCharCodes file.
Proof. rewrite toBinary_from by lia. reflexivity. Qed.

(** [combineBase64Chunks] is the base64 rendering of [wavFile] behind the
    [audio/wav] data-URI prefix. *)
Lemma combineBase64Chunks_wavFile (chunks : list string) (sampleRate : Z) :
  combineBase64Chunks chunks sampleRate =
  (let! file := wavFile chunks sampleRate in
   Returns ("data:audio/wav;base64," +:+ btoa (fromCharCodes file))).
Proof.
  unfold combineBase64Chunks.
  destruct (wavFile chunks sampleRate); cbn [obind]; try reflexivity.
  by rewrite toBinary_whole.
Qed.

Lemma wavFile_two_bytes (chunk : string) (b0 b1 : Z) :
  base64ToUint8Array chunk = Returns [b0; b1] ->
  wavFile [chunk] 24000 = Returns (referenceHeader ++ [b0; b1]).
Proof.
  intros H. unfold wavFile. cbn [decodeChunks]. rewrite H. reflexivity.
Qed.

(** The first loop keeps the decoded arrays in input order and sums their
    lengths. *)
Lemma decodeChunks_returns chunks arrays totalLength arrays' totalLength' :
  decodeChunks chunks arrays totalLength = Returns (arrays', totalLength') ->
  exists decoded,
    Forall2 (fun chunk arr => base64ToUint8Array chunk = Returns arr) chunks decoded
    /\ arrays' = arrays ++ decoded
    /\ totalLength' = (totalLength + length (concat decoded))%nat.
Proof.
  revert arrays totalLength. induction chunks as [|chunk chunks IH]; intros arrays n H.
  - cbn in H. injection H as <- <-. exists []. cbn. rewrite app_nil_r.
    split; [constructor|]. split; [reflexivity|lia].
  - cbn [decodeChunks] in H.
    destruct (base64ToUint8Array chunk) as [arr| |] eqn:Harr; cbn [obind] in H; try discriminate.
    destruct (IH _ _ H) as (decoded & Hall & -> & ->).
    exists (arr :: decoded). split; [by constructor|].
    rewrite <- app_assoc. cbn. rewrite length_app. split; [reflexivity|lia].
Qed.

(** The second loop writes the arrays one after the other. *)
Lemma mergeArrays_concat arrays merged offset :
  (offset + length (concat arrays) <= length merged)%nat ->
  mergeArrays arrays merged offset
  = Returns (take offset merged ++ concat arrays
             ++ drop (offset + length (concat arrays)) merged).
Proof.
  revert merged offset. induction arrays as [|arr arrays IH]; intros merged offset Hlen.
  - cbn. rewrite Nat.add_0_r, take_drop. reflexivity.
  - cbn [concat] in Hlen. rewrite length_app in Hlen.
    cbn [mergeArrays]. unfold uint8_set.
    assert ((length merged <? offset + length arr)%nat = false) as ->
        by (apply Nat.ltb_ge; lia).
    cbn [obind]. rewrite IH.
    + f_equal. cbn [concat].
      assert (Hpre : length (take offset merged ++ arr) = (offset + length arr)%nat).
      { rewrite length_app, length_take. lia. }
      rewrite (app_assoc (take offset merged) arr).
      rewrite (take_app_length' (take offset merged ++ arr) _ _ (eq_sym Hpre)).
      rewrite (drop_app_add' (take offset merged ++ arr) _ _ _ (eq_sym Hpre)).
      rewrite drop_drop, length_app, <- !app_assoc.
      by rewrite Nat.add_assoc.
    + rewrite !length_app, length_take, length_drop. lia.
Qed.

(** The header is 44 bytes long whatever the data length and sample rate. *)
Lemma wavHeader_length totalLength sampleRate :
  exists header, wavHeader totalLength sampleRate = Returns header /\ length header = 44%nat.
Proof. eexists. split; reflexivity. Qed.

(** The file is the header followed by the decoded chunks in input order. *)
Lemma wavFile_layout chunks sampleRate decoded :
  Forall2 (fun chunk arr => base64ToUint8Array chunk = Returns arr) chunks decoded ->
  exists header,
    wavHeader (length (concat decoded)) sampleRate = Returns header
    /\ length header = 44%nat
    /\ wavFile chunks sampleRate = Returns (header ++ concat decoded).
Proof.
  intros Hdec.
  assert (Hloop : decodeChunks chunks [] 0 = Returns (decoded, length (concat decoded))).
  { assert (forall arrays n,
               decodeChunks chunks arrays n
               = Returns (arrays ++ decoded, (n + length (concat decoded))%nat)) as H.
    { induction Hdec as [|chunk arr chunks decoded Harr _ IH]; intros arrays n.
      - cbn. by rewrite app_nil_r, Nat.add_0_r.
      - cbn [decodeChunks]. rewrite Harr. cbn [obind]. rewrite IH.
        rewrite <- app_assoc. cbn [concat app]. rewrite length_app.
        do 2 f_equal. lia. }
    apply (H [] 0%nat). }
  destruct (wavHeader_length (length (concat decoded)) sampleRate) as (header & Hh & Hlen).
  exists header. split; [exact Hh|]. split; [exact Hlen|].
  unfold wavFile. rewrite Hloop. cbn [obind].
  rewrite mergeArrays_concat by (rewrite length_replicate; lia).
  cbn [obind take app]. rewrite Nat.add_0_l, drop_ge by (rewrite length_replicate; lia).
  rewrite app_nil_r, Hh. cbn [obind]. rewrite Hlen.
  change (take 0 (replicate (length (concat decoded)) 0)) with (@nil Z). cbn [app].
  assert (H1 : uint8_set (replicate (44 + length (concat decoded)) 0) header 0
               = Returns (header ++ replicate (length (concat decoded)) 0)).
  { unfold uint8_set. rewrite length_replicate, Hlen.
    assert ((44 + length (concat decoded) <? 0 + 44)%nat = false) as ->
        by (apply Nat.ltb_ge; lia).
    cbn [take app]. change (0 + 44)%nat with 44%nat. by rewrite drop_replicate_add. }
  rewrite H1. cbn [obind].
  unfold uint8_set. rewrite length_app, Hlen, length_replicate.
  assert ((44 + length (concat decoded) <? 44 + length (concat decoded))%nat = false) as ->
      by (apply Nat.ltb_ge; lia).
  f_equal.
  rewrite (take_app_length' header _ 44) by done.
  rewrite drop_ge by (rewrite length_app, length_replicate; lia).
  by rewrite app_nil_r.
Qed.

Lemma le32_read_write (v : Z) :
  0 <= v < 4294967296 ->
  Z.land v 255 + 256 * Z.land (Z.shiftr v 8) 255
  + 65536 * Z.land (Z.shiftr v 16) 255 + 16777216 * Z.land (Z.shiftr v 24) 255 = v.
Proof.
  intros Hv. change 255 with (Z.ones 8).
  rewrite !Z.land_ones, !Z.shiftr_div_pow2 by lia.
  change (2 ^ 8) with 256. change (2 ^ 16) with 65536. change (2 ^ 24) with 16777216.
  Z.div_mod_to_equations. lia.
Qed.

(** The header written through the [DataView] is the canonical one. *)
Lemma wavHeader_canonical (totalLength : nat) (sampleRate : Z) :
  wavHeader totalLength sampleRate = Returns (canonicalHeader totalLength sampleRate).
Proof. reflexivity. Qed.

Lemma referenceHeader_canonical : referenceHeader = canonicalHeader 2 24000.
Proof. reflexivity. Qed.

(** The size and rate fields read back as the numbers written, whenever
    these fit their 32-bit slots. *)
Lemma canonicalHeader_fields (dataLen : nat) (sampleRate : Z) :
  36 + Z.of_nat dataLen < 4294967296 ->
  0 <= sampleRate -> sampleRate * 2 < 4294967296 ->
  length (canonicalHeader dataLen sampleRate) = 44%nat
  /\ getUint32_le (canonicalHeader dataLen sampleRate) 4 = 36 + Z.of_nat dataLen
  /\ getUint16_le (canonicalHeader dataLen sampleRate) 22 = 1
  /\ getUint32_le (canonicalHeader dataLen sampleRate) 24 = sampleRate
  /\ getUint32_le (canonicalHeader dataLen sampleRate) 28 = sampleRate * 2
  /\ getUint16_le (canonicalHeader dataLen sampleRate) 32 = 2
  /\ getUint16_le (canonicalHeader dataLen sampleRate) 34 = 16
  /\ getUint32_le (canonicalHeader dataLen sampleRate) 40 = Z.of_nat dataLen.
Proof.
  intros Hlen Hsr Hrate.
  split; [reflexivity|].
  unfold getUint32_le, getUint16_le, canonicalHeader, le32, le16.
  cbn [charCodes String.list_ascii_of_string map app lookup_total list_lookup_total Nat.add].
  cbv zeta.
  repeat split; try reflexivity.
  - rewrite Z.mod_small by lia. pose proof (le32_read_write (36 + Z.of_nat dataLen)). lia.
  - rewrite Z.mod_small by lia. pose proof (le32_read_write sampleRate). lia.
  - rewrite Z.mod_small by lia. pose proof (le32_read_write (sampleRate * 1 * 2)). lia.
  - rewrite Z.mod_small by lia. pose proof (le32_read_write (Z.of_nat dataLen)). lia.
Qed.

(** C7.  A single chunk decoding to the two bytes [b0], [b1], framed at
    24000 Hz, gives a 46-byte file: the 44-byte reference RIFF/WAVE header
    (ChunkSize 38, NumChannels 1, SampleRate 24000, ByteRate 48000,
    BlockAlign 2, BitsPerSample 16, Subchunk2Size 2) followed by the two
    bytes in order; the function returns its base64 text behind the
    [data:audio/wav;base64,] prefix. *)
Theorem wav_two_byte_chunk (chunk : string) (b0 b1 : Z) :
  base64ToUint8Array chunk = Returns [b0; b1] ->
  exists file : list Z,
    wavFile [chunk] 24000 = Returns file
    /\ combineBase64Chunks [chunk] 24000
       = Returns ("data:audio/wav;base64," +:+ btoa (fromCharCodes file))
    /\ length file = 46%nat
    /\ take 44 file = referenceHeader
    /\ drop 44 file = [b0; b1]
    /\ fromCharCodes (take 4 file) = "RIFF"
    /\ getUint32_le file 4 = 38
    /\ fromCharCodes (take 8 (drop 8 file)) = "WAVEfmt "
    /\ getUint16_le file 22 = 1
    /\ getUint32_le file 24 = 24000
    /\ getUint32_le file 28 = 48000
    /\ getUint16_le file 32 = 2
    /\ getUint16_le file 34 = 16
    /\ fromCharCodes (take 4 (drop 36 file)) = "data"
    /\ getUint32_le file 40 = 2.
Proof.
  intros H. exists (referenceHeader ++ [b0; b1]).
  split; [by apply wavFile_two_bytes|].
  split.
  { rewrite combineBase64Chunks_wavFile, (wavFile_two_bytes _ _ _ H). reflexivity. }
  repeat split; reflexivity.
Qed.

Lemma wav_two_byte_chunk_witness :
  base64ToUint8Array "AQI=" = Returns [1; 2]
  /\ combineBase64Chunks ["AQI="] 24000
     = Returns "data:audio/wav;base64,UklGRiYAAABXQVZFZm10IBAAAAABAAEAwF0AAIC7AAACABAAZGF0YQIAAAABAg=="
  /\ exists file : list Z,
       wavFile ["AQI="] 24000 = Returns file /\ length file = 46%nat
       /\ getUint32_le file 4 = 38 /\ getUint32_le file 40 = 2.
Proof.
  split; [reflexivity|]. split; [reflexivity|].
  destruct (wav_two_byte_chunk "AQI=" 1 2 eq_refl)
    as (file & Hfile & _ & Hlen & _ & _ & _ & Hchunk & _ & _ & _ & _ & _ & _ & _ & Hdata).
  exists file. repeat split; assumption.
Defined.

End AudioFacts.

(** ** The retry wrapper *)

Module RetryFacts.
Import GeminiService.

Section Retry.

Variable w : World.
Context {T : Type}.
Variable operation : IO T.

(** One round of the loop, by what the operation does: success ends the
    loop at once. *)
Lemma retry_loop_success maxRetries baseDelay remaining i lastError t v t' :
  operation t = (Returns v, t') ->
  retry_loop w operation maxRetries baseDelay (S remaining) i lastError t = (Returns v, t').
Proof. intros H. cbn [retry_loop]. unfold try_catch. by rewrite H. Qed.

(** A transient failure with attempts left: wait [baseDelay * 2 ^ i], go on. *)
Lemma retry_loop_transient maxRetries baseDelay remaining i lastError t e t' :
  operation t = (Throws e, t') ->
  isOverloaded w e = Returns true ->
  i < maxRetries - 1 ->
  retry_loop w operation maxRetries baseDelay (S remaining) i lastError t
  = retry_loop w operation maxRetries baseDelay remaining (i + 1) e
      (t' ++ [EvWait (baseDelay * 2 ^ i)]).
Proof.
  intros H Hov Hi. cbn [retry_loop]. unfold try_catch. rewrite H.
  unfold bind at 1, lift. rewrite Hov.
  assert ((i <? maxRetries - 1) = true) as -> by lia.
  reflexivity.
Qed.

(** Any other classified failure is thrown again at once. *)
Lemma retry_loop_rethrow maxRetries baseDelay remaining i lastError t e t' b :
  operation t = (Throws e, t') ->
  isOverloaded w e = Returns b ->
  b && (i <? maxRetries - 1) = false ->
  retry_loop w operation maxRetries baseDelay (S remaining) i lastError t = (Throws e, t').
Proof.
  intros H Hov Hb. cbn [retry_loop]. unfold try_catch. rewrite H.
  unfold bind at 1, lift. rewrite Hov, Hb. reflexivity.
Qed.

Lemma retry_loop_diverges maxRetries baseDelay remaining i lastError t t' :
  operation t = (Diverges, t') ->
  retry_loop w operation maxRetries baseDelay (S remaining) i lastError t = (Diverges, t').
Proof. intros H. cbn [retry_loop]. unfold try_catch. by rewrite H. Qed.

End Retry.

(** What the classification says of some common rejections. *)
Example isOverloaded_status_503 w :
  isOverloaded w (JObj [("status", JNum 503); ("message", JStr "Service Unavailable")])
  = Returns true.
Proof. reflexivity. Qed.

Example isOverloaded_code_429 w :
  isOverloaded w (JObj [("code", JNum 429); ("message", JStr "Too Many Requests")])
  = Returns true.
Proof. reflexivity. Qed.

Example isOverloaded_message w :
  isOverloaded w (mkError "The model is OVERLOADED. Please try again later.") = Returns true.
Proof. reflexivity. Qed.

Example isOverloaded_bad_request w :
  isOverloaded w (JObj [("status", JNum 400); ("message", JStr "Invalid argument")])
  = Returns false.
Proof. reflexivity. Qed.

(** A rejection with [null] is not classified: reading [error.status]
    throws inside the [catch] block. *)
Example isOverloaded_null w :
  isOverloaded w JNull = Throws (mkTypeError "Cannot read properties of null or undefined").
Proof. reflexivity. Qed.

Lemma invocations_app (t1 t2 : Trace) :
  invocations (t1 ++ t2) = (invocations t1 + invocations t2)%nat.
Proof.
  induction t1 as [|ev t1 IH]; [reflexivity|].
  cbn. destruct (is_invoke ev); cbn; by rewrite IH.
Qed.

Lemma waits_app (t1 t2 : Trace) : waits (t1 ++ t2) = waits t1 ++ waits t2.
Proof.
  induction t1 as [|ev t1 IH]; [reflexivity|].
  destruct ev; cbn; by rewrite IH.
Qed.

(** One execution of a quiet operation adds one to the count and nothing to
    the waits. *)
Lemma quiet_run {A} (op : IO A) (t : Trace) (pre : list Event) o t' :
  quiet op ->
  op (t ++ pre ++ [EvInvoke]) = (o, t') ->
  invocations t' = (invocations t + invocations pre + 1)%nat
  /\ waits t' = waits t ++ waits pre.
Proof.
  intros Hq Hrun. destruct (Hq (t ++ pre ++ [EvInvoke])) as [Hi Hw].
  rewrite Hrun in Hi, Hw. cbn [snd] in Hi, Hw.
  rewrite Hi, Hw, !invocations_app, !waits_app. cbn.
  rewrite app_nil_r. split; [lia|reflexivity].
Qed.

(** The classification of the code is the one of the specification on
    every rejection it can read; on the others it throws. *)
Lemma isOverloaded_transient (w : World) (e : JsVal) :
  Support.classifiable w e = true ->
  isOverloaded w e = Returns (Support.transient w e).
Proof.
  unfold Support.classifiable, Support.transient, isOverloaded. intros Hc.
  destruct e as [| |b|n|s|fs]; try discriminate;
    destruct (getErrorMessage w _) as [| | | |m|] eqn:Hm; try discriminate;
    cbn [obind get_prop field to_string]; f_equal;
    repeat match goal with |- context [strict_eq_num ?v ?n] => destruct (strict_eq_num v n) end;
    repeat match goal with |- context [includes ?m ?s] => destruct (includes m s) end;
    reflexivity.
Qed.

Lemma isOverloaded_unclassifiable (w : World) (e : JsVal) :
  Support.classifiable w e = false ->
  exists msg, isOverloaded w e = Throws (mkTypeError msg).
Proof.
  unfold Support.classifiable, isOverloaded. intros Hc.
  destruct e as [| |b|n|s|fs]; try (by eexists);
    destruct (getErrorMessage w _) as [| | | |m|] eqn:Hm; try discriminate; by eexists.
Qed.

(** C2, as the code has it.  With the default parameters ([maxRetries = 3],
    [baseDelay = 2000]), for every operation, every execution being
    recorded as [EvInvoke], and for rejections the [catch] block can
    classify (anything but [null] and [undefined], with a message that is a
    string), classified in the words of the specification (status or code
    429 or 503, or a message containing ["overloaded"] or ["503"]):
    - if the first two executions fail with transient errors and the third
      succeeds, the operation has run three times, the second run after a
      wait of 2000 ms and the third after a further 4000 ms, and the value
      of the third run is returned;
    - if the first execution fails with an error that is not transient,
      that error is thrown again at once: one run, no wait;
    - if all three executions fail, the first two with transient errors,
      the error of the third is thrown after it, with no third wait,
      transient or not.
    The classification of the code agrees with the one of the specification
    on every such rejection.  For an operation that does not wait or record
    executions by itself, the trace then counts exactly three executions
    (one in the second case) and the waits 2000 and 4000 (none in the
    second case). *)
Theorem retryWithBackoff_default_behaviour (w : World) (T : Type) (op : IO T) (t0 : Trace) :
  (forall e, Support.classifiable w e = true ->
             isOverloaded w e = Returns (Support.transient w e))
  /\ (forall e0 t1 e1 t2 v t3,
      op (t0 ++ [EvInvoke]) = (Throws e0, t1) ->
      Support.classifiable w e0 = true -> Support.transient w e0 = true ->
      op (t1 ++ [EvWait 2000; EvInvoke]) = (Throws e1, t2) ->
      Support.classifiable w e1 = true -> Support.transient w e1 = true ->
      op (t2 ++ [EvWait 4000; EvInvoke]) = (Returns v, t3) ->
      retryWithBackoff_default w (observed op) t0 = (Returns v, t3)
      /\ (quiet op ->
          invocations t3 = (invocations t0 + 3)%nat
          /\ waits t3 = waits t0 ++ [2000; 4000]))
  /\ (forall e t1,
      op (t0 ++ [EvInvoke]) = (Throws e, t1) ->
      Support.classifiable w e = true -> Support.transient w e = false ->
      retryWithBackoff_default w (observed op) t0 = (Throws e, t1)
      /\ (quiet op ->
          invocations t1 = (invocations t0 + 1)%nat /\ waits t1 = waits t0))
  /\ (forall e0 t1 e1 t2 e2 t3,
      op (t0 ++ [EvInvoke]) = (Throws e0, t1) ->
      Support.classifiable w e0 = true -> Support.transient w e0 = true ->
      op (t1 ++ [EvWait 2000; EvInvoke]) = (Throws e1, t2) ->
      Support.classifiable w e1 = true -> Support.transient w e1 = true ->
      op (t2 ++ [EvWait 4000; EvInvoke]) = (Throws e2, t3) ->
      Support.classifiable w e2 = true ->
      retryWithBackoff_default w (observed op) t0 = (Throws e2, t3)
      /\ (quiet op ->
          invocations t3 = (invocations t0 + 3)%nat
          /\ waits t3 = waits t0 ++ [2000; 4000])).
Proof.
  assert (Hcount : forall o0 t1 o1 t2 o2 t3,
             quiet op ->
             op (t0 ++ [EvInvoke]) = (o0, t1) ->
             op (t1 ++ [EvWait 2000; EvInvoke]) = (o1, t2) ->
             op (t2 ++ [EvWait 4000; EvInvoke]) = (o2, t3) ->
             invocations t3 = (invocations t0 + 3)%nat
             /\ waits t3 = waits t0 ++ [2000; 4000]).
  { intros o0 t1 o1 t2 o2 t3 Hq H0 H1 H2.
    destruct (quiet_run op t0 [] _ _ Hq H0) as [I0 W0].
    destruct (quiet_run op t1 [EvWait 2000] _ _ Hq H1) as [I1 W1].
    destruct (quiet_run op t2 [EvWait 4000] _ _ Hq H2) as [I2 W2].
    rewrite I2, I1, I0, W2, W1, W0. cbn. rewrite app_nil_r, <- app_assoc.
    split; [lia|reflexivity]. }
  assert (Hclass : forall e b, Support.classifiable w e = true ->
                               Support.transient w e = b -> isOverloaded w e = Returns b).
  { intros e b Hc <-. by apply isOverloaded_transient. }
  unfold retryWithBackoff_default, retryWithBackoff.
  change (Z.to_nat 3) with 3%nat.
  split; [apply isOverloaded_transient|]. split; [|split].
  - intros e0 t1 e1 t2 v t3 H0 Hc0 Ht0 H1 Hc1 Ht1 H2.
    split; [|intros Hq; by eapply Hcount].
    rewrite (retry_loop_transient w (observed op) _ _ _ _ _ _ e0 t1);
      [|done|by apply Hclass|lia].
    rewrite (retry_loop_transient w (observed op) _ _ _ _ _ _ e1 t2);
      [| |by apply Hclass|lia].
    + apply retry_loop_success. unfold observed. rewrite <- H2. f_equal.
      rewrite <- app_assoc. reflexivity.
    + unfold observed. rewrite <- H1. f_equal. rewrite <- app_assoc. reflexivity.
  - intros e t1 H Hc Ht. split.
    + apply (retry_loop_rethrow w (observed op) _ _ _ _ _ _ e t1 false);
        [done|by apply Hclass|reflexivity].
    + intros Hq. destruct (quiet_run op t0 [] _ _ Hq H) as [I0 W0].
      rewrite I0, W0. cbn. rewrite app_nil_r. split; [lia|reflexivity].
  - intros e0 t1 e1 t2 e2 t3 H0 Hc0 Ht0 H1 Hc1 Ht1 H2 Hc2.
    split; [|intros Hq; by eapply Hcount].
    rewrite (retry_loop_transient w (observed op) _ _ _ _ _ _ e0 t1);
      [|done|by apply Hclass|lia].
    rewrite (retry_loop_transient w (observed op) _ _ _ _ _ _ e1 t2);
      [| |by apply Hclass|lia].
    + apply (retry_loop_rethrow w (observed op) _ _ _ _ _ _ e2 t3
               (Support.transient w e2)); [|by apply Hclass|].
      * unfold observed. rewrite <- H2. f_equal. rewrite <- app_assoc. reflexivity.
      * apply andb_false_r.
    + unfold observed. rewrite <- H1. f_equal. rewrite <- app_assoc. reflexivity.
Qed.

(** The three scenarios on scripted operations, with the whole trace. *)
Lemma retryWithBackoff_default_behaviour_witness :
  retryWithBackoff_default Scenarios.refusingWorld (scripted Scenarios.flaky) []
  = (Returns 7, [EvInvoke; EvWait 2000; EvInvoke; EvWait 4000; EvInvoke])
  /\ retryWithBackoff_default Scenarios.refusingWorld
       (scripted (fun _ => @Throws Z Scenarios.badRequest)) []
     = (Throws Scenarios.badRequest, [EvInvoke])
  /\ retryWithBackoff_default Scenarios.refusingWorld
       (scripted (fun _ => @Throws Z Scenarios.unavailable)) []
     = (Throws Scenarios.unavailable, [EvInvoke; EvWait 2000; EvInvoke; EvWait 4000; EvInvoke]).
Proof.
  split; [|split].
  - apply (retryWithBackoff_default_behaviour Scenarios.refusingWorld Z
             (fun t => (Scenarios.flaky (pred (invocations t)), t)) [])
      with (e0 := Scenarios.unavailable) (e1 := Scenarios.unavailable)
           (t1 := [EvInvoke]) (t2 := [EvInvoke; EvWait 2000; EvInvoke]);
      reflexivity.
  - apply (retryWithBackoff_default_behaviour Scenarios.refusingWorld Z
             (fun t => (Throws Scenarios.badRequest, t)) []); reflexivity.
  - apply (retryWithBackoff_default_behaviour Scenarios.refusingWorld Z
             (fun t => (Throws Scenarios.unavailable, t)) [])
      with (e0 := Scenarios.unavailable) (e1 := Scenarios.unavailable)
           (t1 := [EvInvoke]) (t2 := [EvInvoke; EvWait 2000; EvInvoke]);
      reflexivity.
Defined.

(** The claim as the specification has it fails on an operation that
    rejects with [null]: the rejection is not transient, and yet it is not
    the error that comes out.  Reading [error.status] throws inside the
    [catch] block, and the caller gets a [TypeError], after one run. *)
Lemma null_rejection_is_not_rethrown :
  Support.transient Scenarios.refusingWorld JNull = false
  /\ (exists msg,
        retryWithBackoff_default Scenarios.refusingWorld
          (scripted (fun _ => @Throws Z JNull)) []
        = (Throws (mkTypeError msg), [EvInvoke]))
  /\ fst (retryWithBackoff_default Scenarios.refusingWorld
            (scripted (fun _ => @Throws Z JNull)) [])
     <> Throws JNull.
Proof.
  split; [reflexivity|]. split; [by eexists|discriminate].
Qed.

End RetryFacts.

(** ** A small logic of outcomes *)

Module OutcomeLogic.

Lemma outcomes_ret {A} (a : A) Q E : Q a -> outcomes (ret a) Q E.
Proof. intros H t. exact H. Qed.

Lemma outcomes_throw {A} e (Q : A -> Prop) (E : JsVal -> Prop) :
  E e -> outcomes (throw e) Q E.
Proof. intros H t. exact H. Qed.

Lemma outcomes_bind {A B} (m : IO A) (f : A -> IO B) P Q E :
  outcomes m P E -> (forall a, P a -> outcomes (f a) Q E) -> outcomes (bind m f) Q E.
Proof.
  intros Hm Hf t. specialize (Hm t). unfold bind.
  destruct (m t) as [[a|e|] t']; cbn in *; try done.
  by apply Hf.
Qed.

Lemma outcomes_try_catch {A} (m : IO A) (h : JsVal -> IO A) Q E' E :
  outcomes m Q E' -> (forall e, E' e -> outcomes (h e) Q E) -> outcomes (try_catch m h) Q E.
Proof.
  intros Hm Hh t. specialize (Hm t). unfold try_catch.
  destruct (m t) as [[a|e|] t']; cbn in *; try done.
  by apply Hh.
Qed.

Lemma outcomes_perform {A} ev (answer : Trace -> Settled A) (Q : A -> Prop) (E : JsVal -> Prop) :
  (forall a, Q a) -> (forall e, E e) -> outcomes (perform ev answer) Q E.
Proof. intros HQ HE t. unfold perform. cbn. destruct (answer t); auto. Qed.

Lemma outcomes_lift {A} (o : Outcome A) (Q : A -> Prop) (E : JsVal -> Prop) :
  match o with Returns a => Q a | Throws e => E e | Diverges => False end ->
  outcomes (lift o) Q E.
Proof. intros H t. exact H. Qed.

Lemma outcomes_weaken {A} (m : IO A) (Q Q' : A -> Prop) (E E' : JsVal -> Prop) :
  outcomes m Q E -> (forall a, Q a -> Q' a) -> (forall e, E e -> E' e) -> outcomes m Q' E'.
Proof.
  intros Hm HQ HE t. specialize (Hm t). destruct (fst (m t)); auto.
Qed.

(** A block whose failures are all swallowed always returns. *)
Lemma always_try_catch {A} (m : IO A) (h : JsVal -> IO A) (Q : A -> Prop) :
  outcomes m Q (fun _ => True) -> (forall e, always (h e) Q) -> always (try_catch m h) Q.
Proof. intros Hm Hh. eapply outcomes_try_catch; [exact Hm|]. intros e _. apply Hh. Qed.

Lemma always_run {A} (m : IO A) (Q : A -> Prop) (t : Trace) :
  always m Q -> exists a t', m t = (Returns a, t') /\ Q a.
Proof.
  intros H. specialize (H t). destruct (m t) as [[a|e|] t']; cbn in H; try done.
  by exists a, t'.
Qed.

Lemma settles_pure {A} (a : A) : settles (ret a).
Proof. by apply outcomes_ret. Qed.

Lemma settles_throw {A} e : settles (@throw A e).
Proof. by apply outcomes_throw. Qed.

Lemma settles_bind {A B} (m : IO A) (f : A -> IO B) :
  settles m -> (forall a, settles (f a)) -> settles (bind m f).
Proof. intros Hm Hf. eapply outcomes_bind; [exact Hm|]. intros a _. apply Hf. Qed.

Lemma settles_try_catch {A} (m : IO A) (h : JsVal -> IO A) :
  settles m -> (forall e, settles (h e)) -> settles (try_catch m h).
Proof. intros Hm Hh. eapply outcomes_try_catch; [exact Hm|]. intros e _. apply Hh. Qed.

Lemma settles_perform {A} ev (answer : Trace -> Settled A) : settles (perform ev answer).
Proof. by apply outcomes_perform. Qed.

Lemma settles_always {A} (m : IO A) Q : always m Q -> settles m.
Proof. intros H. eapply outcomes_weaken; [exact H|done|done]. Qed.

End OutcomeLogic.

(** ** The service settles *)

Module ServiceFacts.
Import GeminiService Strategies OutcomeLogic.

Ltac settle :=
  repeat first
    [ apply settles_pure
    | apply settles_throw
    | apply settles_perform
    | apply settles_bind; [|intros ?]
    | apply settles_try_catch; [|intros ?]
    | match goal with
      | |- settles (if ?b then _ else _) => destruct b
      | |- settles (match ?x with _ => _ end) => destruct x
      | |- settles (let _ := _ in _) => cbv zeta
      end ].

Section World.

Variable w : World.

Lemma newGoogleGenAI_settles key : settles (newGoogleGenAI w key).
Proof. unfold newGoogleGenAI. settle. Qed.

Lemma getClient_settles : settles (getClient w).
Proof. unfold getClient. settle. apply newGoogleGenAI_settles. Qed.

Lemma urlToBase64_settles url : settles (urlToBase64 w url).
Proof. unfold urlToBase64. settle. Qed.

Lemma extractLastFrame_settles src : settles (extractLastFrame w src).
Proof. unfold extractLastFrame. settle. Qed.

Lemma analyzeVideo_settles v p m : settles (analyzeVideo w v p m).
Proof. unfold analyzeVideo. apply settles_bind; [apply getClient_settles|intros ai]. settle. Qed.

Lemma orchestrateVideoPrompt_settles imgs p : settles (orchestrateVideoPrompt w imgs p).
Proof.
  unfold orchestrateVideoPrompt. apply settles_bind; [apply getClient_settles|intros ai]. settle.
Qed.

Lemma generateImageFromText_settles p m imgs o : settles (generateImageFromText w p m imgs o).
Proof.
  unfold generateImageFromText. apply settles_bind; [apply getClient_settles|intros ai]. settle.
Qed.

#[export] Instance geminiService_settling : Settling (geminiService w).
Proof.
  split; cbn.
  - apply extractLastFrame_settles.
  - apply urlToBase64_settles.
  - apply analyzeVideo_settles.
  - apply orchestrateVideoPrompt_settles.
  - apply generateImageFromText_settles.
Qed.

End World.

End ServiceFacts.

(** ** The strategies *)

Module StrategyFacts.
Import GeminiService Strategies OutcomeLogic.

Section WithService.

Context {svc : Service} {Hsvc : Settling svc}.

Lemma materialize_settles src : settles (materialize src).
Proof. unfold materialize. destruct (startsWith src "http"); [apply settles_urlToBase64|apply settles_pure]. Qed.

Lemma processDefaultVideoGen_always node inputs prompt :
  always (processDefaultVideoGen node inputs prompt)
    (fun r => finalPrompt r = prompt /\ common_shape "DEFAULT" None r).
Proof. apply outcomes_ret. repeat split. Qed.

Lemma processStoryContinuator_always node inputs prompt :
  always (processStoryContinuator node inputs prompt)
    (fun r => finalPrompt r = prompt /\ common_shape "CONTINUE" None r).
Proof.
  unfold processStoryContinuator.
  eapply outcomes_bind with (P := fun _ => True).
  - destruct (List.find _ inputs) as [v|]; [|by apply outcomes_ret].
    destruct (truthy_str (videoUri (data v))); [|by apply outcomes_ret].
    apply always_try_catch; [|intros e; by apply outcomes_ret].
    apply settles_bind; [apply materialize_settles|intros videoSrc].
    apply settles_bind; [apply settles_extractLastFrame|intros lastFrame].
    apply settles_pure.
  - intros imgs _. apply outcomes_ret. repeat split.
Qed.

Lemma processFrameWeaver_always node inputs prompt :
  always (processFrameWeaver node inputs prompt)
    (fun r => common_shape "FIRST_LAST_FRAME" (Some (collectImages inputs)) r
              /\ inputImageForGeneration r = head (collectImages inputs)).
Proof.
  unfold processFrameWeaver.
  eapply outcomes_bind with (P := fun _ => True).
  - destruct (2 <=? length (collectImages inputs))%nat; [|by apply outcomes_ret].
    destruct (head (collectImages inputs)); [|by apply outcomes_ret].
    destruct (last (collectImages inputs)); [|by apply outcomes_ret].
    apply always_try_catch; [apply settles_orchestrateVideoPrompt|].
    intros e. by apply outcomes_ret.
  - intros p _. apply outcomes_ret. repeat split.
Qed.

Lemma upstreamStyle_always inputs : always (upstreamStyle inputs) (fun _ => True).
Proof.
  unfold upstreamStyle.
  destruct (List.find _ inputs) as [v|]; [|by apply outcomes_ret].
  destruct (truthy_str (videoUri (data v))); [|by apply outcomes_ret].
  apply always_try_catch; [|intros e; by apply outcomes_ret].
  apply settles_bind; [apply materialize_settles|intros vidData].
  apply settles_analyzeVideo.
Qed.

Lemma restore_always node prompt selected : always (restore node prompt selected) (fun _ => True).
Proof.
  unfold restore. apply always_try_catch; [|intros e; by apply outcomes_ret].
  apply settles_bind; [apply settles_generateImageFromText|intros imgs]. apply settles_pure.
Qed.

Lemma processSceneDirector_always node inputs prompt :
  always (processSceneDirector node inputs prompt) (common_shape "CUT" None).
Proof.
  unfold processSceneDirector.
  eapply outcomes_bind; [apply upstreamStyle_always|intros style _].
  eapply outcomes_bind with (P := fun _ => True).
  - destruct (truthy_str (selectSceneImage node inputs)); [|by apply outcomes_ret].
    eapply outcomes_bind; [apply restore_always|]. intros r _. by apply outcomes_ret.
  - intros img _. apply outcomes_ret. repeat split.
Qed.

Lemma processCharacterRef_always node inputs prompt :
  always (processCharacterRef node inputs prompt) (common_shape "CHARACTER_REF" None).
Proof.
  unfold processCharacterRef.
  eapply outcomes_bind with (P := fun _ => True).
  - destruct (List.find _ inputs) as [v|]; [|by apply outcomes_ret].
    destruct (truthy_str (videoUri (data v))); [|by apply outcomes_ret].
    apply always_try_catch; [|intros e; by apply outcomes_ret].
    apply settles_bind; [apply materialize_settles|intros vidData].
    apply settles_analyzeVideo.
  - intros motion _. apply outcomes_ret. repeat split.
Qed.

Lemma common_shape_well_shaped mode refs r :
  common_shape mode refs r ->
  (mode = "FIRST_LAST_FRAME" /\ (exists l, refs = Some l))
  \/ (In mode single_image_modes /\ refs = None) ->
  well_shaped r.
Proof.
  intros (Hv & Hr & Hg) H. split; [exact Hv|]. rewrite Hr, Hg. exact H.
Qed.

Lemma getGenerationStrategy_cases node inputs basePrompt :
  In (getGenerationStrategy node inputs basePrompt)
     [processDefaultVideoGen node inputs basePrompt;
      processStoryContinuator node inputs basePrompt;
      processFrameWeaver node inputs basePrompt;
      processSceneDirector node inputs basePrompt;
      processCharacterRef node inputs basePrompt].
Proof.
  unfold getGenerationStrategy.
  repeat match goal with |- context [if ?b then _ else _] => destruct b end;
    cbn; tauto.
Qed.

Lemma strategies_well_shaped node inputs prompt strategy :
  In strategy (allStrategies svc) ->
  always (strategy node inputs prompt) well_shaped.
Proof.
  assert (Hd : always (processDefaultVideoGen node inputs prompt) well_shaped).
  { eapply outcomes_weaken; [apply processDefaultVideoGen_always| |done].
    intros r (_ & H). eapply common_shape_well_shaped; [exact H|]. right. cbn. tauto. }
  assert (Hc : always (processStoryContinuator node inputs prompt) well_shaped).
  { eapply outcomes_weaken; [apply processStoryContinuator_always| |done].
    intros r (_ & H). eapply common_shape_well_shaped; [exact H|]. right. cbn. tauto. }
  assert (Hf : always (processFrameWeaver node inputs prompt) well_shaped).
  { eapply outcomes_weaken; [apply processFrameWeaver_always| |done].
    intros r (H & _). eapply common_shape_well_shaped; [exact H|]. left. eauto. }
  assert (Hs : always (processSceneDirector node inputs prompt) well_shaped).
  { eapply outcomes_weaken; [apply processSceneDirector_always| |done].
    intros r H. eapply common_shape_well_shaped; [exact H|]. right. cbn. tauto. }
  assert (Hr : always (processCharacterRef node inputs prompt) well_shaped).
  { eapply outcomes_weaken; [apply processCharacterRef_always| |done].
    intros r H. eapply common_shape_well_shaped; [exact H|]. right. cbn. tauto. }
  unfold allStrategies. cbn [In].
  intros [<-|[<-|[<-|[<-|[<-|[<-|[]]]]]]]; try assumption.
  pose proof (getGenerationStrategy_cases node inputs prompt) as Hg. cbn [In] in Hg.
  destruct Hg as [<-|[<-|[<-|[<-|[<-|[]]]]]]; assumption.
Qed.

End WithService.

(** C10.  In any world, each of the five strategies, and the factory that
    dispatches to them, returns for every node, inputs, prompt and history a
    result whose [videoInput] is [null]: no video reference of an upstream
    node is passed through. *)
Theorem videoInput_always_null (w : World) (node : AppNode) (inputs : list AppNode)
    (prompt : string) (t : Trace) :
  Forall (fun strategy =>
            exists r t', strategy node inputs prompt t = (Returns r, t')
                         /\ videoInput r = JNull)
         (allStrategies (geminiService w)).
Proof.
  apply List.Forall_forall. intros strategy Hin.
  destruct (always_run (strategy node inputs prompt) well_shaped t) as (r & t' & Hrun & Hshape).
  { apply (strategies_well_shaped (Hsvc := ServiceFacts.geminiService_settling w)). exact Hin. }
  exists r, t'. split; [exact Hrun|]. apply Hshape.
Qed.

(** C4.  In any world, the result of each of the five strategies, and of
    the factory, carries reference images only under the tag
    FIRST_LAST_FRAME: under DEFAULT, CONTINUE, CUT and CHARACTER_REF, the
    only other tags a result can carry, [referenceImages] is undefined. *)
Theorem referenceImages_only_first_last_frame (w : World) (node : AppNode)
    (inputs : list AppNode) (prompt : string) (t : Trace) :
  Forall (fun strategy =>
            exists r t', strategy node inputs prompt t = (Returns r, t')
              /\ (referenceImages r <> None -> generationMode r = "FIRST_LAST_FRAME")
              /\ (generationMode r <> "FIRST_LAST_FRAME" ->
                  referenceImages r = None /\ In (generationMode r) single_image_modes))
         (allStrategies (geminiService w)).
Proof.
  apply List.Forall_forall. intros strategy Hin.
  destruct (always_run (strategy node inputs prompt) well_shaped t) as (r & t' & Hrun & Hshape).
  { apply (strategies_well_shaped (Hsvc := ServiceFacts.geminiService_settling w)). exact Hin. }
  exists r, t'. split; [exact Hrun|].
  destruct Hshape as (_ & [(Hm & l & Hl)|(Hm & Hn)]).
  - split; [done|]. intros H. done.
  - split; [intros H; done|]. intros _. done.
Qed.

End StrategyFacts.

(** ** The strategies over any service *)

Module AnyService.
Import GeminiService Strategies OutcomeLogic.

Ltac run_inner H :=
  unfold bind in H;
  repeat match type of H with
         | context [match ?m ?t with _ => _ end] =>
             match type of (m t) with
             | (Outcome _ * Trace)%type => destruct (m t) as [[?|?|] ?]
             end
         end.

(** For any service at all, also one whose calls never settle: whatever a
    strategy returns is well shaped. *)
Lemma results_well_shaped (svc : Service) node inputs prompt strategy t r t' :
  In strategy (allStrategies svc) ->
  strategy node inputs prompt t = (Returns r, t') ->
  well_shaped r.
Proof.
  assert (Hother : forall mode fp img,
             In mode single_image_modes ->
             well_shaped {| finalPrompt := fp; videoInput := JNull;
                            inputImageForGeneration := img; referenceImages := None;
                            generationMode := mode |}).
  { intros mode fp img Hin. split; [reflexivity|]. right. by split. }
  assert (Hd : forall t r t',
             processDefaultVideoGen node inputs prompt t = (Returns r, t') -> well_shaped r).
  { intros ? ? ? [= <- _]. apply Hother. cbn. tauto. }
  assert (Hc : forall t r t',
             processStoryContinuator node inputs prompt t = (Returns r, t') -> well_shaped r).
  { intros ? ? ? H. unfold processStoryContinuator in H. run_inner H; try discriminate.
    injection H as <- _. apply Hother. cbn. tauto. }
  assert (Hf : forall t r t',
             processFrameWeaver node inputs prompt t = (Returns r, t') -> well_shaped r).
  { intros ? ? ? H. unfold processFrameWeaver in H. run_inner H; try discriminate.
    injection H as <- _. split; [reflexivity|]. left. split; [reflexivity|]. eauto. }
  assert (Hs : forall t r t',
             processSceneDirector node inputs prompt t = (Returns r, t') -> well_shaped r).
  { intros ? ? ? H. unfold processSceneDirector in H. run_inner H; try discriminate.
    injection H as <- _. apply Hother. cbn. tauto. }
  assert (Hr : forall t r t',
             processCharacterRef node inputs prompt t = (Returns r, t') -> well_shaped r).
  { intros ? ? ? H. unfold processCharacterRef in H. run_inner H; try discriminate.
    injection H as <- _. apply Hother. cbn. tauto. }
  unfold allStrategies. cbn [In].
  intros [<-|[<-|[<-|[<-|[<-|[<-|[]]]]]]]; eauto.
  pose proof (StrategyFacts.getGenerationStrategy_cases node inputs prompt) as Hg.
  cbn [In] in Hg. destruct Hg as [<-|[<-|[<-|[<-|[<-|[]]]]]]; eauto.
Qed.

End AnyService.

(** ** The dispatcher *)

Module DispatchFacts.
Import GeminiService Strategies OutcomeLogic.

(** C1.  The factory, as a function of the whole node, is the strategy its
    mode tag names: DEFAULT gives Default, CONTINUE StoryContinuator,
    FIRST_LAST_FRAME FrameWeaver, CUT SceneDirector, CHARACTER_REF
    CharacterRef; an absent tag and every other string give Default.  The
    equalities are between the computations themselves, so the selection adds
    no effect and no failure of its own. *)
Theorem getGenerationStrategy_dispatch (svc : Service) (node : AppNode) :
  let tag := nd_generationMode (data node) in
  (tag = Some "DEFAULT" -> getGenerationStrategy node = processDefaultVideoGen node)
  /\ (tag = Some "CONTINUE" -> getGenerationStrategy node = processStoryContinuator node)
  /\ (tag = Some "FIRST_LAST_FRAME" -> getGenerationStrategy node = processFrameWeaver node)
  /\ (tag = Some "CUT" -> getGenerationStrategy node = processSceneDirector node)
  /\ (tag = Some "CHARACTER_REF" -> getGenerationStrategy node = processCharacterRef node)
  /\ (tag = None -> getGenerationStrategy node = processDefaultVideoGen node)
  /\ (forall s, tag = Some s ->
        s <> "CONTINUE" -> s <> "FIRST_LAST_FRAME" -> s <> "CUT" -> s <> "CHARACTER_REF" ->
        getGenerationStrategy node = processDefaultVideoGen node).
Proof.
  cbv zeta. unfold getGenerationStrategy.
  repeat split; try (intros ->; reflexivity).
  intros s -> H1 H2 H3 H4.
  assert (Hmode : or_default (Some s) "DEFAULT" <> "CONTINUE"
                  /\ or_default (Some s) "DEFAULT" <> "FIRST_LAST_FRAME"
                  /\ or_default (Some s) "DEFAULT" <> "CUT"
                  /\ or_default (Some s) "DEFAULT" <> "CHARACTER_REF").
  { cbn. destruct (String.eqb_spec s ""); [subst|]; repeat split; done. }
  destruct Hmode as (M1 & M2 & M3 & M4).
  apply String.eqb_neq in M1, M2, M3, M4. rewrite M1, M2, M3, M4. reflexivity.
Qed.

Lemma getGenerationStrategy_dispatch_witness :
  let svc := geminiService Scenarios.refusingWorld in
  @getGenerationStrategy svc (Scenarios.taggedNode (Some "CUT"))
  = @processSceneDirector svc (Scenarios.taggedNode (Some "CUT"))
  /\ @getGenerationStrategy svc (Scenarios.taggedNode (Some "cut"))
     = processDefaultVideoGen (Scenarios.taggedNode (Some "cut"))
  /\ @getGenerationStrategy svc (Scenarios.taggedNode None)
     = processDefaultVideoGen (Scenarios.taggedNode None).
Proof.
  cbv zeta. split; [|split].
  - apply (getGenerationStrategy_dispatch (geminiService Scenarios.refusingWorld)). reflexivity.
  - eapply (getGenerationStrategy_dispatch (geminiService Scenarios.refusingWorld));
      [reflexivity|done..].
  - apply (getGenerationStrategy_dispatch (geminiService Scenarios.refusingWorld)). reflexivity.
Defined.

End DispatchFacts.

(** ** FrameWeaver *)

Module FrameWeaverFacts.
Import GeminiService Strategies OutcomeLogic.

Section WithService.

Context {svc : Service}.

(** With fewer than two collected images nothing is asked of the service:
    the result is fixed by the inputs and the trace is left as it was. *)
Lemma processFrameWeaver_few node inputs prompt t :
  (length (collectImages inputs) < 2)%nat ->
  processFrameWeaver node inputs prompt t
  = (Returns {| finalPrompt := prompt;
                videoInput := JNull;
                inputImageForGeneration := head (collectImages inputs);
                referenceImages := Some (collectImages inputs);
                generationMode := "FIRST_LAST_FRAME" |}, t).
Proof.
  intros Hlen. unfold processFrameWeaver.
  assert ((2 <=? length (collectImages inputs))%nat = false) as -> by (apply Nat.leb_gt; lia).
  reflexivity.
Qed.

(** With two or more, the first and the last are handed to the bridging
    call, and its outcome decides the prompt. *)
Lemma processFrameWeaver_many node inputs prompt t first final :
  (2 <= length (collectImages inputs))%nat ->
  head (collectImages inputs) = Some first ->
  last (collectImages inputs) = Some final ->
  processFrameWeaver node inputs prompt t
  = let result p := {| finalPrompt := p;
                       videoInput := JNull;
                       inputImageForGeneration := Some first;
                       referenceImages := Some (collectImages inputs);
                       generationMode := "FIRST_LAST_FRAME" |} in
    match svc_orchestrateVideoPrompt [first; final] prompt t with
    | (Returns bridged, t') => (Returns (result bridged), t')
    | (Throws _, t') => (Returns (result prompt), t')
    | (Diverges, t') => (Diverges, t')
    end.
Proof.
  intros Hlen Hfirst Hlast. unfold processFrameWeaver.
  assert ((2 <=? length (collectImages inputs))%nat = true) as -> by (apply Nat.leb_le; lia).
  rewrite Hfirst, Hlast. unfold bind, try_catch.
  destruct (svc_orchestrateVideoPrompt [first; final] prompt t) as [[p|e|] t']; reflexivity.
Qed.

End WithService.

(** C5.  Whatever the service: with exactly one collected upstream image
    FrameWeaver returns the base prompt and that single reference image and
    leaves the trace untouched, so that no bridging call was made (the same
    with none); with exactly two, when the bridging call on them throws,
    FrameWeaver still returns, with the base prompt unchanged and both
    reference images. *)
Theorem frameWeaver_bridging (svc : Service) (node : AppNode) (inputs : list AppNode)
    (prompt : string) (t : Trace) :
  (forall img,
      collectImages inputs = [img] ->
      processFrameWeaver node inputs prompt t
      = (Returns {| finalPrompt := prompt;
                    videoInput := JNull;
                    inputImageForGeneration := Some img;
                    referenceImages := Some [img];
                    generationMode := "FIRST_LAST_FRAME" |}, t))
  /\ (collectImages inputs = [] ->
      processFrameWeaver node inputs prompt t
      = (Returns {| finalPrompt := prompt;
                    videoInput := JNull;
                    inputImageForGeneration := None;
                    referenceImages := Some [];
                    generationMode := "FIRST_LAST_FRAME" |}, t))
  /\ (forall a b e t',
      collectImages inputs = [a; b] ->
      svc_orchestrateVideoPrompt [a; b] prompt t = (Throws e, t') ->
      processFrameWeaver node inputs prompt t
      = (Returns {| finalPrompt := prompt;
                    videoInput := JNull;
                    inputImageForGeneration := Some a;
                    referenceImages := Some [a; b];
                    generationMode := "FIRST_LAST_FRAME" |}, t')).
Proof.
  split; [|split].
  - intros img H. rewrite processFrameWeaver_few by (rewrite H; cbn; lia).
    rewrite H. reflexivity.
  - intros H. rewrite processFrameWeaver_few by (rewrite H; cbn; lia).
    rewrite H. reflexivity.
  - intros a b e t' H Hfail.
    rewrite (processFrameWeaver_many node inputs prompt t a b) by (rewrite H; cbn; (lia || done)).
    cbv zeta. rewrite Hfail, H. reflexivity.
Qed.

Lemma frameWeaver_bridging_witness :
  let svc := geminiService Scenarios.refusingWorld in
  let a := Scenarios.imageNode "a" (Some "data:image/png;base64,AAAA") None in
  let b := Scenarios.imageNode "b" (Some "img-b") (Some "crop-b") in
  fst (@processFrameWeaver svc (Scenarios.taggedNode None) [a] "a cat" [])
  = Returns {| finalPrompt := "a cat";
               videoInput := JNull;
               inputImageForGeneration := Some "data:image/png;base64,AAAA";
               referenceImages := Some ["data:image/png;base64,AAAA"];
               generationMode := "FIRST_LAST_FRAME" |}
  /\ snd (@processFrameWeaver svc (Scenarios.taggedNode None) [a] "a cat" []) = []
  /\ fst (@processFrameWeaver svc (Scenarios.taggedNode None) [a; b] "a cat" [])
     = Returns {| finalPrompt := "a cat";
                  videoInput := JNull;
                  inputImageForGeneration := Some "data:image/png;base64,AAAA";
                  referenceImages := Some ["data:image/png;base64,AAAA"; "crop-b"];
                  generationMode := "FIRST_LAST_FRAME" |}
  /\ length (snd (@processFrameWeaver svc (Scenarios.taggedNode None) [a; b] "a cat" []))
     = 1%nat.
Proof.
  cbv zeta.
  pose proof (frameWeaver_bridging (geminiService Scenarios.refusingWorld)
                (Scenarios.taggedNode None)
                [Scenarios.imageNode "a" (Some "data:image/png;base64,AAAA") None]
                "a cat" []) as (H1 & _ & _).
  rewrite (H1 _ eq_refl).
  pose proof (frameWeaver_bridging (geminiService Scenarios.refusingWorld)
                (Scenarios.taggedNode None)
                [Scenarios.imageNode "a" (Some "data:image/png;base64,AAAA") None;
                 Scenarios.imageNode "b" (Some "img-b") (Some "crop-b")]
                "a cat" []) as (_ & _ & H2).
  erewrite (H2 _ _ _ _ eq_refl); [|vm_compute; reflexivity].
  repeat split.
Defined.

End FrameWeaverFacts.

(** ** SceneDirector and Default: which image seeds the generation *)

Module SeedFacts.
Import GeminiService Strategies OutcomeLogic.

Section WithService.

Context {svc : Service}.



(** The restoration pass gives back the image it was given when the image
    call throws, and when it returns no image. *)
Lemma restore_failure node prompt selected t e t' :
  svc_generateImageFromText (restorationPrompt prompt) "gemini-2.5-flash-image" [selected]
    {| io_aspectRatio := Some (or_default (aspectRatio (data node)) "16:9");
       io_resolution := None; io_count := Some 1 |} t = (Throws e, t') ->
  restore node prompt selected t = (Returns selected, t').
Proof. intros H. unfold restore, try_catch, bind. rewrite H. reflexivity. Qed.


End WithService.




(** In SceneDirector the node's own image does not outrank an upstream
    cropped frame: it is not looked at. *)
Lemma sceneDirector_ignores_own_image :
  selectSceneImage (Scenarios.imageNode "n" (Some "own-image") None)
    [Scenarios.imageNode "up" (Some "upstream-image") (Some "upstream-crop")]
  = Some "upstream-crop"
  /\ selectSceneImage (Scenarios.imageNode "n" (Some "own-image") None) [] = None.
Proof. split; reflexivity. Qed.

End SeedFacts.

(** ** SceneDirector: the style suffix *)

Module StyleFacts.
Import GeminiService Strategies OutcomeLogic.

Lemma append_neq (s x : string) : x <> "" -> s +:+ x <> s.
Proof.
  intros Hx. induction s as [|c s IH]; [exact Hx|].
  change (String c (s +:+ x) <> String c s). intros H. injection H as H. by apply IH.
Qed.

(** Whenever the restoration call throws, the seed is the image selected
    before it. *)
Lemma sceneDirector_restoration_failure (svc : Service) node inputs prompt t
    style t1 selected e t2 :
  upstreamStyle inputs t = (Returns style, t1) ->
  selectSceneImage node inputs = Some selected ->
  selected <> "" ->
  svc_generateImageFromText (restorationPrompt prompt) "gemini-2.5-flash-image" [selected]
    {| io_aspectRatio := Some (or_default (aspectRatio (data node)) "16:9");
       io_resolution := None; io_count := Some 1 |} t1 = (Throws e, t2) ->
  processSceneDirector node inputs prompt t
  = (Returns {| finalPrompt := prompt +:+ ". " +:+ nl +:+ nl +:+ "Style: " +:+ style;
                videoInput := JNull;
                inputImageForGeneration := Some selected;
                referenceImages := None;
                generationMode := "CUT" |}, t2).
Proof.
  intros Hstyle Hsel Hne Hfail.
  assert (Htruthy : truthy_str (Some selected) = true).
  { cbn. apply String.eqb_neq in Hne. by rewrite Hne. }
  unfold processSceneDirector. rewrite Hsel, Htruthy. cbn [interp].
  unfold bind at 1. rewrite Hstyle. unfold bind at 1. unfold bind at 1.
  rewrite (SeedFacts.restore_failure _ _ _ _ _ _ Hfail). reflexivity.
Qed.

(** C8, at an input without any upstream node: in every world, for every
    node and prompt, SceneDirector returns a prompt that ends in an empty
    style line; the suffix is appended although there is no style analysis. *)
Theorem sceneDirector_style_suffix_without_analysis (w : World) (node : AppNode)
    (prompt : string) (t : Trace) :
  exists r t',
    @processSceneDirector (geminiService w) node [] prompt t = (Returns r, t')
    /\ finalPrompt r = prompt +:+ ". " +:+ nl +:+ nl +:+ "Style: "
    /\ finalPrompt r <> prompt.
Proof.
  destruct (always_run (@processSceneDirector (geminiService w) node [] prompt)
              (fun r => finalPrompt r = prompt +:+ ". " +:+ nl +:+ nl +:+ "Style: ") t)
    as (r & t' & Hrun & Hr).
  { unfold processSceneDirector. cbn [upstreamStyle List.find].
    eapply outcomes_bind with (P := fun style => style = "");
      [by apply outcomes_ret|intros style ->].
    eapply outcomes_bind with (P := fun _ => True).
    - destruct (truthy_str (selectSceneImage node [])); [|by apply outcomes_ret].
      eapply outcomes_bind; [|intros img _; by apply outcomes_ret].
      apply (StrategyFacts.restore_always
               (Hsvc := ServiceFacts.geminiService_settling w)).
    - intros img _. by apply outcomes_ret. }
  exists r, t'. split; [exact Hrun|]. split; [exact Hr|].
  rewrite Hr. apply append_neq. discriminate.
Qed.

(** The same whenever the analysis yields nothing, be it for want of an
    upstream video or because the analysis failed. *)
Lemma sceneDirector_style_suffix_when_empty (w : World) (node : AppNode)
    (inputs : list AppNode) (prompt : string) (t t1 : Trace) :
  @upstreamStyle (geminiService w) inputs t = (Returns "", t1) ->
  exists r t',
    @processSceneDirector (geminiService w) node inputs prompt t = (Returns r, t')
    /\ finalPrompt r = prompt +:+ ". " +:+ nl +:+ nl +:+ "Style: ".
Proof.
  intros Hstyle. unfold processSceneDirector. unfold bind at 1. rewrite Hstyle.
  destruct (always_run
              (if truthy_str (selectSceneImage node inputs)
               then restored <- @restore (geminiService w) node prompt
                                  (interp (selectSceneImage node inputs)) ;;
                    ret (Some restored)
               else ret (selectSceneImage node inputs))
              (fun _ => True) t1) as (img & t2 & Hrun & _).
  { destruct (truthy_str (selectSceneImage node inputs)); [|by apply outcomes_ret].
    eapply outcomes_bind; [|intros restored _; by apply outcomes_ret].
    apply (StrategyFacts.restore_always (Hsvc := ServiceFacts.geminiService_settling w)). }
  unfold bind at 1. rewrite Hrun. eexists. eexists. split; reflexivity.
Qed.

(** A failed analysis: the upstream video cannot be analysed, and the
    style line is there all the same. *)
Example sceneDirector_style_suffix_failed_analysis :
  fst (@processSceneDirector (geminiService Scenarios.refusingWorld)
         (Scenarios.taggedNode (Some "CUT"))
         [Scenarios.videoNode "v" "data:video/mp4;base64,AAAA"] "a cat" [])
  = Returns {| finalPrompt := "a cat. " +:+ nl +:+ nl +:+ "Style: ";
               videoInput := JNull;
               inputImageForGeneration := None;
               referenceImages := None;
               generationMode := "CUT" |}.
Proof. reflexivity. Qed.

End StyleFacts.

(** ** Video submission *)

Module VideoFacts.
Import GeminiService Strategies OutcomeLogic ServiceFacts.

Section World.

Variable w : World.

(** [Promise.allSettled] gives one result per promise. *)
Lemma allSettled_length {A} (ops : list (IO A)) (t : Trace) rs t' :
  allSettled ops t = (Returns rs, t') -> length rs = length ops.
Proof.
  revert t rs t'. induction ops as [|op ops IH]; intros t rs t' H.
  - cbn in H. injection H as <- _. reflexivity.
  - cbn [allSettled] in H.
    destruct (op t) as [[a|e|] t1]; [| |discriminate]; unfold bind, ret in H;
      destruct (allSettled ops t1) as [[rs'|e'|] t2] eqn:Hrest; try discriminate;
      injection H as <- _; cbn; f_equal; by eapply IH.
Qed.

(** The loop over the results is the list of usable videos, keyed. *)
Lemma collectUris_usable results validUris primaryMetadata :
  collectUris w results validUris primaryMetadata
  = (validUris ++ map (keyedUri w) (usableVideos results),
     match primaryMetadata with
     | Some m => Some m
     | None => head (usableVideos results)
     end).
Proof.
  revert validUris primaryMetadata.
  induction results as [|r results IH]; intros validUris primaryMetadata.
  - cbn. rewrite app_nil_r. by destruct primaryMetadata.
  - change (usableVideos (r :: results))
      with (match usableVideo r with
            | Some y => y :: usableVideos results
            | None => usableVideos results
            end).
    cbn [collectUris].
    destruct r as [op|e]; cbn [usableVideo]; [|apply IH].
    destruct (op_video op) as [vid|]; [|apply IH].
    destruct (truthy_str (vid_uri vid)); [|apply IH].
    rewrite IH. cbn [map]. rewrite <- app_assoc. cbn [app].
    by destruct primaryMetadata.
Qed.

Lemma joinResults_some results vid vids t :
  usableVideos results = vid :: vids ->
  joinResults w results t
  = (Returns {| uri := Some (keyedUri w vid);
                uris := Some (map (keyedUri w) (vid :: vids));
                videoMetadata := Some vid;
                isFallbackImage := Some false |}, t).
Proof.
  intros H. unfold joinResults. rewrite collectUris_usable, H. reflexivity.
Qed.

Lemma joinResults_none results t :
  usableVideos results = [] ->
  joinResults w results t = (Throws (failureCause results), t).
Proof.
  intros H. unfold joinResults. rewrite collectUris_usable, H. reflexivity.
Qed.

(** [generateImageFromText] either fails on the missing key before any
    request, or sends exactly one request, the one for its arguments. *)
Lemma generateImageFromText_trace prompt model imgs options t :
  sdk_new w (API_KEY w) = None ->
  (truthy_str (API_KEY w) = true
   /\ snd (generateImageFromText w prompt model imgs options t)
      = t ++ [EvGenerateContent {| apiKey := API_KEY w |}
                (imageRequest prompt model imgs options)])
  \/ (truthy_str (API_KEY w) = false
      /\ generateImageFromText w prompt model imgs options t
         = (Throws missingKeyError, t)).
Proof.
  intros Hnew. unfold generateImageFromText, getClient, newGoogleGenAI.
  destruct (truthy_str (API_KEY w)); [left|right]; split; try reflexivity.
  rewrite Hnew. cbn [negb]. unfold bind at 1, ret at 1. unfold try_catch, bind, perform.
  destruct (sdk_generateContent w t _ _) as [resp|e]; [|reflexivity].
  destruct (length _ =? 0)%nat; reflexivity.
Qed.

(** Up to the join: the client is built, the request prepared, and the
    fan-out has settled. *)
Lemma generateVideo_after_fanout fuel prompt model options inputImageBase64 videoInput
    referenceImages t0 req t1 results t2 :
  sdk_new w (API_KEY w) = None ->
  prepareRequest w prompt model options inputImageBase64 videoInput referenceImages t0
  = (Returns req, t1) ->
  allSettled (replicate (fanOutCount options)
                (retryWithBackoff_default w (videoOperation w fuel req))) t1
  = (Returns results, t2) ->
  generateVideo w fuel prompt model options inputImageBase64 videoInput referenceImages t0
  = try_catch (joinResults w results) (fallbackToImage w prompt options) t2.
Proof.
  intros Hnew Hprep Hall. unfold generateVideo, newGoogleGenAI. rewrite Hnew.
  unfold bind at 1, ret at 1. unfold bind at 1. rewrite Hprep.
  unfold try_catch, bind. rewrite Hall. reflexivity.
Qed.

(** C3, as the code has it.  Once the client is built, the request is
    prepared and the fan-out has settled, with one result per requested
    video:
    - if at least one operation ended with a usable URI, the call returns
      those URIs in order, each with the key appended, the first as primary,
      with [isFallbackImage = false], and no image is requested;
    - if none did, there is one call of [generateImageFromText], on the
      prompt ["Cinematic movie still, "] followed by the suffixed prompt;
      when it returns, its first image is returned with
      [isFallbackImage = true]; when it throws, the call fails with
      ["Video generation failed: "] followed by the message of the cause:
      the first rejection, or a generic error when nothing was rejected. *)
Theorem generateVideo_join_and_fallback fuel prompt model options inputImageBase64
    videoInput referenceImages t0 req t1 results t2 :
  sdk_new w (API_KEY w) = None ->
  prepareRequest w prompt model options inputImageBase64 videoInput referenceImages t0
  = (Returns req, t1) ->
  allSettled (replicate (fanOutCount options)
                (retryWithBackoff_default w (videoOperation w fuel req))) t1
  = (Returns results, t2) ->
  let run :=
    generateVideo w fuel prompt model options inputImageBase64 videoInput referenceImages t0 in
  let stillOptions :=
    {| io_aspectRatio := vo_aspectRatio options; io_resolution := None; io_count := None |} in
  let stillPrompt := "Cinematic movie still, " +:+ (prompt +:+ qualitySuffix) in
  let stillCall :=
    generateImageFromText w stillPrompt "gemini-2.5-flash-image" [] stillOptions t2 in
  length results = fanOutCount options
  /\ (forall vid vids,
        usableVideos results = vid :: vids ->
        run = (Returns {| uri := Some (keyedUri w vid);
                          uris := Some (map (keyedUri w) (vid :: vids));
                          videoMetadata := Some vid;
                          isFallbackImage := Some false |}, t2))
  /\ (usableVideos results = [] ->
        snd run = snd stillCall
        /\ (snd stillCall
            = t2 ++ [EvGenerateContent {| apiKey := API_KEY w |}
                       (imageRequest stillPrompt "gemini-2.5-flash-image" [] stillOptions)]
            \/ (truthy_str (API_KEY w) = false /\ snd stillCall = t2))
        /\ (forall imgs,
              fst stillCall = Returns imgs ->
              fst run = Returns {| uri := head imgs; isFallbackImage := Some true;
                                   videoMetadata := None; uris := None |})
        /\ (forall e,
              fst stillCall = Throws e ->
              fst run = Throws (mkError ("Video generation failed: "
                                         +:+ to_string (getErrorMessage w (failureCause results)))))
        /\ fst stillCall <> Diverges).
Proof.
  intros Hnew Hprep Hall. cbv zeta.
  rewrite (generateVideo_after_fanout _ _ _ _ _ _ _ _ _ _ _ _ Hnew Hprep Hall).
  split; [|split].
  - rewrite (allSettled_length _ _ _ _ Hall). apply length_replicate.
  - intros vid vids Husable. unfold try_catch.
    by rewrite (joinResults_some _ _ _ _ Husable).
  - intros Hnone.
    assert (Hcatch : try_catch (joinResults w results) (fallbackToImage w prompt options) t2
                     = fallbackToImage w prompt options (failureCause results) t2).
    { unfold try_catch. by rewrite (joinResults_none _ _ Hnone). }
    rewrite !Hcatch.
    unfold fallbackToImage, fallbackPrompt, enhancedPrompt, try_catch, bind.
    pose proof (generateImageFromText_settles w
                  ("Cinematic movie still, " +:+ (prompt +:+ qualitySuffix))
                  "gemini-2.5-flash-image" []
                  {| io_aspectRatio := vo_aspectRatio options; io_resolution := None;
                     io_count := None |} t2) as Hsettle.
    pose proof (generateImageFromText_trace
                  ("Cinematic movie still, " +:+ (prompt +:+ qualitySuffix))
                  "gemini-2.5-flash-image" []
                  {| io_aspectRatio := vo_aspectRatio options; io_resolution := None;
                     io_count := None |} t2 Hnew) as Htrace.
    destruct (generateImageFromText w _ _ _ _ t2) as [[imgs|e|] t3]; cbn in *;
      try done.
    + repeat split; try done.
      * destruct Htrace as [[_ H]|[H1 H2]]; [by left|discriminate].
      * intros ? [= <-]. reflexivity.
    + repeat split; try done.
      destruct Htrace as [[_ H]|[H1 H2]]; [by left|right].
      split; [done|]. congruence.
Qed.

(** *** More polling rounds never change a settled run *)

Lemma refines_refl {A} (m : IO A) : refines m m.
Proof. intros t o t' H _. exact H. Qed.

Lemma refines_bind {A B} (m m' : IO A) (f f' : A -> IO B) :
  refines m m' -> (forall a, refines (f a) (f' a)) -> refines (bind m f) (bind m' f').
Proof.
  intros Hm Hf t o t' H Ho. unfold bind in *.
  destruct (m t) as [[a|e|] t1] eqn:Hmt.
  - rewrite (Hm _ _ _ Hmt) by done. by apply Hf.
  - rewrite (Hm _ _ _ Hmt) by done. exact H.
  - injection H as <- _. done.
Qed.

Lemma refines_try_catch {A} (m m' : IO A) (h h' : JsVal -> IO A) :
  refines m m' -> (forall e, refines (h e) (h' e)) ->
  refines (try_catch m h) (try_catch m' h').
Proof.
  intros Hm Hh t o t' H Ho. unfold try_catch in *.
  destruct (m t) as [[a|e|] t1] eqn:Hmt.
  - rewrite (Hm _ _ _ Hmt) by done. exact H.
  - rewrite (Hm _ _ _ Hmt) by done. by apply Hh.
  - injection H as <- _. done.
Qed.

Lemma pollUntilDone_mono fuel fuel' innerAi op :
  (fuel <= fuel')%nat ->
  refines (pollUntilDone w fuel innerAi op) (pollUntilDone w fuel' innerAi op).
Proof.
  revert fuel' op. induction fuel as [|fuel IH]; intros fuel' op Hle.
  - intros t o t' H Ho. cbn in H. destruct fuel'; cbn.
    + exact H.
    + destruct (op_done op); [exact H|]. injection H as <- _. done.
  - destruct fuel' as [|fuel']; [lia|]. cbn [pollUntilDone].
    destruct (op_done op); [apply refines_refl|].
    apply refines_bind; [apply refines_refl|intros _].
    apply refines_bind; [apply refines_refl|intros op'].
    apply IH. lia.
Qed.

Lemma videoOperation_mono fuel fuel' req :
  (fuel <= fuel')%nat ->
  refines (videoOperation w fuel req) (videoOperation w fuel' req).
Proof.
  intros Hle. unfold videoOperation.
  apply refines_bind; [apply refines_refl|intros ai].
  apply refines_bind; [apply refines_refl|intros op].
  by apply pollUntilDone_mono.
Qed.

Lemma retry_loop_mono {T} (op op' : IO T) maxRetries baseDelay remaining i lastError :
  refines op op' ->
  refines (retry_loop w op maxRetries baseDelay remaining i lastError)
          (retry_loop w op' maxRetries baseDelay remaining i lastError).
Proof.
  intros Hop. revert i lastError.
  induction remaining as [|remaining IH]; intros i lastError; [apply refines_refl|].
  cbn [retry_loop]. apply refines_try_catch; [exact Hop|intros e].
  apply refines_bind; [apply refines_refl|intros b].
  destruct (b && (i <? maxRetries - 1)); [|apply refines_refl].
  apply refines_bind; [apply refines_refl|intros _]. apply IH.
Qed.

Lemma allSettled_mono {A} (op op' : IO A) (n : nat) :
  refines op op' -> refines (allSettled (replicate n op)) (allSettled (replicate n op')).
Proof.
  intros Hop. induction n as [|n IH]; [apply refines_refl|].
  cbn [replicate allSettled]. intros t o t' H Ho.
  destruct (op t) as [[a|e|] t1] eqn:Hopt.
  - rewrite (Hop _ _ _ Hopt) by done. revert H Ho. apply refines_bind; [exact IH|].
    intros rs. apply refines_refl.
  - rewrite (Hop _ _ _ Hopt) by done. revert H Ho. apply refines_bind; [exact IH|].
    intros rs. apply refines_refl.
  - injection H as <- _. done.
Qed.

(** A run of [generateVideo] that settles within [fuel] polling rounds per
    operation is the run for any larger bound. *)
Lemma generateVideo_mono fuel fuel' prompt model options inputImageBase64 videoInput
    referenceImages :
  (fuel <= fuel')%nat ->
  refines
    (generateVideo w fuel prompt model options inputImageBase64 videoInput referenceImages)
    (generateVideo w fuel' prompt model options inputImageBase64 videoInput referenceImages).
Proof.
  intros Hle. unfold generateVideo.
  apply refines_bind; [apply refines_refl|intros ai].
  apply refines_bind; [apply refines_refl|intros req].
  apply refines_try_catch; [|intros e; apply refines_refl].
  apply refines_bind; [|intros rs; apply refines_refl].
  apply allSettled_mono. unfold retryWithBackoff_default, retryWithBackoff.
  apply retry_loop_mono. by apply videoOperation_mono.
Qed.

End World.

Lemma generateVideo_join_and_fallback_witness :
  let run w :=
    generateVideo w 5 "a cat" "veo-3.1-fast-generate-preview"
      (Scenarios.videoOptions (Some 3)) None JUndefined None [] in
  fst (run Scenarios.secondOnlyWorld)
  = Returns {| uri := Some "https://videos.example/2?alt=media&key=KEY";
               uris := Some ["https://videos.example/2?alt=media&key=KEY"];
               videoMetadata := Some {| vid_uri := Some "https://videos.example/2?alt=media";
                                        vid_meta := JNull |};
               isFallbackImage := Some false |}
  /\ contentPrompts (snd (run Scenarios.secondOnlyWorld)) = []
  /\ fst (run Scenarios.stillOnlyWorld)
     = Returns {| uri := Some "data:image/png;base64,iVBORw0KGgo=";
                  isFallbackImage := Some true; videoMetadata := None; uris := None |}
  /\ length (contentPrompts (snd (run Scenarios.stillOnlyWorld))) = 1%nat
  /\ fst (run Scenarios.refusingWorld)
     = Throws (mkError "Video generation failed: Request contains an invalid argument.")
  /\ length (contentPrompts (snd (run Scenarios.refusingWorld))) = 1%nat.
Proof.
  cbv zeta.
  edestruct (generateVideo_join_and_fallback Scenarios.secondOnlyWorld 5 "a cat"
               "veo-3.1-fast-generate-preview" (Scenarios.videoOptions (Some 3))
               None JUndefined None [])
    as (_ & Hsome & _); [reflexivity|vm_compute; reflexivity|vm_compute; reflexivity|].
  erewrite Hsome; [|vm_compute; reflexivity].
  edestruct (generateVideo_join_and_fallback Scenarios.stillOnlyWorld 5 "a cat"
               "veo-3.1-fast-generate-preview" (Scenarios.videoOptions (Some 3))
               None JUndefined None [])
    as (_ & _ & Hstill); [reflexivity|vm_compute; reflexivity|vm_compute; reflexivity|].
  destruct (Hstill eq_refl) as (_ & _ & Himg & _).
  erewrite Himg; [|vm_compute; reflexivity].
  edestruct (generateVideo_join_and_fallback Scenarios.refusingWorld 5 "a cat"
               "veo-3.1-fast-generate-preview" (Scenarios.videoOptions (Some 3))
               None JUndefined None [])
    as (_ & _ & Hfail); [reflexivity|vm_compute; reflexivity|vm_compute; reflexivity|].
  destruct (Hfail eq_refl) as (_ & _ & _ & Hthrow & _).
  erewrite Hthrow; [|vm_compute; reflexivity].
  repeat split.
Defined.

(** C3 as stated fails on the prompt of the fallback: the image is asked
    for with a prefixed prompt, not with the suffixed prompt itself. *)
Lemma fallback_prompt_is_prefixed :
  let w := Scenarios.refusingWorld in
  let model := "veo-3.1-fast-generate-preview" in
  let options := Scenarios.videoOptions (Some 3) in
  let fanOut :=
    req <- prepareRequest w "a cat" model options None JUndefined None ;;
    allSettled (replicate (fanOutCount options)
                  (retryWithBackoff_default w (videoOperation w 5 req))) in
  let run := generateVideo w 5 "a cat" model options None JUndefined None [] in
  fst (fanOut [])
  = Returns [Rejected Scenarios.badRequest; Rejected Scenarios.badRequest;
             Rejected Scenarios.badRequest]
  /\ contentPrompts (snd run)
     = ["Cinematic movie still, a cat, cinematic lighting, highly detailed, photorealistic, 4k, smooth motion, professional color grading"]
  /\ contentPrompts (snd run) <> [enhancedPrompt "a cat"].
Proof. cbv zeta. split; [reflexivity|]. split; [reflexivity|]. vm_compute. discriminate. Qed.

End VideoFacts.

(** ** Traces only grow *)

Module TraceFacts.
Import GeminiService Strategies OutcomeLogic.

Lemma extends_ret {A} (a : A) : extends (ret a).
Proof. intros t. reflexivity. Qed.

Lemma extends_throw {A} e : extends (@throw A e).
Proof. intros t. reflexivity. Qed.

Lemma extends_lift {A} (o : Outcome A) : extends (lift o).
Proof. intros t. reflexivity. Qed.

Lemma extends_perform {A} ev (answer : Trace -> Settled A) : extends (perform ev answer).
Proof. intros t. cbn. by apply prefix_app_r. Qed.

Lemma extends_bind {A B} (m : IO A) (f : A -> IO B) :
  extends m -> (forall a, extends (f a)) -> extends (bind m f).
Proof.
  intros Hm Hf t. specialize (Hm t). unfold bind.
  destruct (m t) as [[a|e|] t1]; cbn in *; try done.
  etrans; [exact Hm|apply Hf].
Qed.

Lemma extends_try_catch {A} (m : IO A) (h : JsVal -> IO A) :
  extends m -> (forall e, extends (h e)) -> extends (try_catch m h).
Proof.
  intros Hm Hh t. specialize (Hm t). unfold try_catch.
  destruct (m t) as [[a|e|] t1]; cbn in *; try done.
  etrans; [exact Hm|apply Hh].
Qed.

(** What has happened stays in the trace of whatever runs next. *)
Lemma extends_from {A} (m : IO A) (p t : Trace) :
  extends m -> p `prefix_of` t -> p `prefix_of` snd (m t).
Proof. intros Hm Hp. etrans; [exact Hp|apply Hm]. Qed.

Lemma prefix_bind {A B} (m : IO A) (f : A -> IO B) (p t : Trace) :
  p `prefix_of` snd (m t) -> (forall a, extends (f a)) -> p `prefix_of` snd (bind m f t).
Proof.
  intros Hm Hf. unfold bind. destruct (m t) as [[a|e|] t1]; cbn in *; try done.
  etrans; [exact Hm|apply Hf].
Qed.

Lemma prefix_try_catch {A} (m : IO A) (h : JsVal -> IO A) (p t : Trace) :
  p `prefix_of` snd (m t) -> (forall e, extends (h e)) ->
  p `prefix_of` snd (try_catch m h t).
Proof.
  intros Hm Hh. unfold try_catch. destruct (m t) as [[a|e|] t1]; cbn in *; try done.
  etrans; [exact Hm|apply Hh].
Qed.

Ltac extend :=
  repeat first
    [ apply extends_ret
    | apply extends_throw
    | apply extends_lift
    | apply extends_perform
    | apply extends_bind; [|intros ?]
    | apply extends_try_catch; [|intros ?]
    | match goal with
      | |- extends (if ?b then _ else _) => destruct b
      | |- extends (match ?x with _ => _ end) => destruct x
      end ].

Section World.

Variable w : World.

Lemma newGoogleGenAI_extends key : extends (newGoogleGenAI w key).
Proof. unfold newGoogleGenAI. extend. Qed.

Lemma getClient_extends : extends (getClient w).
Proof. unfold getClient. extend. apply newGoogleGenAI_extends. Qed.

Lemma generateImageFromText_extends p m imgs o : extends (generateImageFromText w p m imgs o).
Proof.
  unfold generateImageFromText. apply extends_bind; [apply getClient_extends|intros ai]. extend.
Qed.

Lemma pollUntilDone_extends fuel ai op : extends (pollUntilDone w fuel ai op).
Proof.
  revert op. induction fuel as [|fuel IH]; intros op; cbn [pollUntilDone].
  - destruct (op_done op); [apply extends_ret|]. intros t. reflexivity.
  - destruct (op_done op); [apply extends_ret|].
    apply extends_bind; [apply extends_perform|intros _].
    apply extends_bind; [apply extends_perform|intros op']. apply IH.
Qed.

Lemma videoOperation_extends fuel req : extends (videoOperation w fuel req).
Proof.
  unfold videoOperation. apply extends_bind; [apply newGoogleGenAI_extends|intros ai].
  apply extends_bind; [apply extends_perform|intros op]. apply pollUntilDone_extends.
Qed.

Lemma retry_loop_extends {T} (op : IO T) maxRetries baseDelay remaining i lastError :
  extends op -> extends (retry_loop w op maxRetries baseDelay remaining i lastError).
Proof.
  intros Hop. revert i lastError.
  induction remaining as [|remaining IH]; intros i lastError; cbn [retry_loop].
  - apply extends_throw.
  - apply extends_try_catch; [exact Hop|intros e].
    apply extends_bind; [apply extends_lift|intros b].
    destruct (b && (i <? maxRetries - 1)); [|apply extends_throw].
    apply extends_bind; [apply extends_perform|intros _]. apply IH.
Qed.

Lemma retry_loop_prefix {T} (op : IO T) maxRetries baseDelay remaining i lastError p t :
  extends op ->
  p `prefix_of` snd (op t) ->
  p `prefix_of` snd (retry_loop w op maxRetries baseDelay (S remaining) i lastError t).
Proof.
  intros Hop Hp. cbn [retry_loop]. apply prefix_try_catch; [exact Hp|intros e].
  apply extends_bind; [apply extends_lift|intros b].
  destruct (b && (i <? maxRetries - 1)); [|apply extends_throw].
  apply extends_bind; [apply extends_perform|intros _]. by apply retry_loop_extends.
Qed.

Lemma allSettled_extends {A} (ops : list (IO A)) :
  Forall extends ops -> extends (allSettled ops).
Proof.
  induction 1 as [|op ops Hop Hops IH]; [apply extends_ret|].
  cbn [allSettled]. intros t. specialize (Hop t).
  destruct (op t) as [[a|e|] t1]; cbn in *; try done.
  - etrans; [exact Hop|]. apply (extends_bind _ _ IH). intros rs. apply extends_ret.
  - etrans; [exact Hop|]. apply (extends_bind _ _ IH). intros rs. apply extends_ret.
Qed.

Lemma joinResults_extends results : extends (joinResults w results).
Proof.
  unfold joinResults. destruct (collectUris w results [] None) as [uris meta].
  destruct (length uris =? 0)%nat; [apply extends_throw|apply extends_ret].
Qed.

Lemma fallbackToImage_extends prompt options e : extends (fallbackToImage w prompt options e).
Proof.
  unfold fallbackToImage. apply extends_try_catch; [|intros e'; apply extends_throw].
  apply extends_bind; [apply generateImageFromText_extends|intros imgs]. apply extends_ret.
Qed.

(** Whenever the constructor accepts the configured key, whatever it is,
    and the request is prepared, [generateVideo] submits the first video
    request: the key is never checked on this path. *)
Lemma generateVideo_submits_unchecked fuel prompt model options inputImageBase64 videoInput
    referenceImages t0 req t1 :
  sdk_new w (API_KEY w) = None ->
  prepareRequest w prompt model options inputImageBase64 videoInput referenceImages t0
  = (Returns req, t1) ->
  (0 < fanOutCount options)%nat ->
  (t1 ++ [EvGenerateVideos {| apiKey := API_KEY w |} req])
    `prefix_of`
    snd (generateVideo w fuel prompt model options inputImageBase64 videoInput
           referenceImages t0).
Proof.
  intros Hnew Hprep Hcount.
  destruct (fanOutCount options) as [|n] eqn:Hn; [lia|].
  pose proof (videoOperation_extends fuel req) as Hop.
  pose proof (retry_loop_extends (videoOperation w fuel req) 3 2000) as Hretry.
  assert (Hfirst : forall t, (t ++ [EvGenerateVideos {| apiKey := API_KEY w |} req])
                               `prefix_of` snd (videoOperation w fuel req t)).
  { intros t. unfold videoOperation, newGoogleGenAI. rewrite Hnew.
    unfold bind at 1, ret at 1. unfold bind at 1, perform at 1.
    destruct (sdk_generateVideos w t _ req) as [op|e]; [|reflexivity].
    apply pollUntilDone_extends. }
  unfold generateVideo, newGoogleGenAI. rewrite Hnew.
  unfold bind at 1, ret at 1. unfold bind at 1. rewrite Hprep. rewrite Hn.
  apply prefix_try_catch; [|intros e; apply fallbackToImage_extends].
  apply prefix_bind; [|intros rs; apply joinResults_extends].
  cbn [replicate allSettled].
  assert (Hrun : (t1 ++ [EvGenerateVideos {| apiKey := API_KEY w |} req])
                   `prefix_of` snd (retryWithBackoff_default w (videoOperation w fuel req) t1)).
  { unfold retryWithBackoff_default, retryWithBackoff. change (Z.to_nat 3) with 3%nat.
    apply retry_loop_prefix; [exact Hop|apply Hfirst]. }
  assert (Hrest : extends (allSettled (replicate n
                     (retryWithBackoff_default w (videoOperation w fuel req))))).
  { apply allSettled_extends. apply Forall_replicate. by apply Hretry. }
  destruct (retryWithBackoff_default w (videoOperation w fuel req) t1) as [[a|e|] t2];
    cbn [snd] in Hrun; [| |exact Hrun].
  - apply prefix_bind; [|intros rs; apply extends_ret]. etrans; [exact Hrun|apply Hrest].
  - apply prefix_bind; [|intros rs; apply extends_ret]. etrans; [exact Hrun|apply Hrest].
Qed.

End World.
End TraceFacts.

(** ** Credentials *)

Module CredentialFacts.
Import GeminiService Strategies OutcomeLogic.

(** Every function that goes through [getClient] stops on a missing key
    before anything else happens. *)
Lemma getClient_missing_key (w : World) (t : Trace) :
  truthy_str (API_KEY w) = false -> getClient w t = (Throws missingKeyError, t).
Proof. intros H. unfold getClient. by rewrite H. Qed.

Lemma getClient_missing_key_image (w : World) (t : Trace) :
  truthy_str (API_KEY w) = false ->
  forall prompt model inputImages options,
    generateImageFromText w prompt model inputImages options t = (Throws missingKeyError, t).
Proof.
  intros H prompt model inputImages options. unfold generateImageFromText, bind.
  by rewrite (getClient_missing_key w t H).
Qed.

Lemma missing_key_raised_eagerly (w : World) (t : Trace) :
  truthy_str (API_KEY w) = false ->
  (forall history newMessage options,
      sendChatMessage w history newMessage options t = (Throws missingKeyError, t))
  /\ (forall prompt model inputImages options,
        generateImageFromText w prompt model inputImages options t
        = (Throws missingKeyError, t))
  /\ (forall prompt referenceAudio personaLabel,
        generateAudio w prompt referenceAudio personaLabel t = (Throws missingKeyError, t))
  /\ (forall video prompt model,
        analyzeVideo w video prompt model t = (Throws missingKeyError, t))
  /\ (forall images userPrompt,
        orchestrateVideoPrompt w images userPrompt t = (Throws missingKeyError, t)).
Proof.
  intros H. repeat split; intros;
    unfold sendChatMessage, generateImageFromText, generateAudio, analyzeVideo,
      orchestrateVideoPrompt, bind;
    by rewrite (getClient_missing_key w t H).
Qed.

(** The operation [generateVideo] hands to the retry wrapper, when the SDK
    refuses the call with an error that is not transient: one call, the
    error as it is. *)
Lemma videoOperation_refused (w : World) (fuel : nat) (req : VideoRequest) (eK : JsVal)
    (t : Trace) :
  sdk_new w (API_KEY w) = None ->
  sdk_generateVideos w t {| apiKey := API_KEY w |} req = Rejected eK ->
  isOverloaded w eK = Returns false ->
  retryWithBackoff_default w (videoOperation w fuel req) t
  = (Throws eK, t ++ [EvGenerateVideos {| apiKey := API_KEY w |} req]).
Proof.
  intros Hnew Hcall Hclass.
  unfold retryWithBackoff_default, retryWithBackoff. change (Z.to_nat 3) with 3%nat.
  apply (RetryFacts.retry_loop_rethrow w _ _ _ _ _ _ _ eK _ false); [|exact Hclass|reflexivity].
  unfold videoOperation, newGoogleGenAI. rewrite Hnew.
  unfold bind at 1, ret at 1. unfold bind, perform. cbn [fst snd]. by rewrite Hcall.
Qed.

Lemma fanOut_refused (w : World) (fuel : nat) (req : VideoRequest) (eK : JsVal) (n : nat)
    (t : Trace) :
  sdk_new w (API_KEY w) = None ->
  (forall t', sdk_generateVideos w t' {| apiKey := API_KEY w |} req = Rejected eK) ->
  isOverloaded w eK = Returns false ->
  allSettled (replicate n (retryWithBackoff_default w (videoOperation w fuel req))) t
  = (Returns (replicate n (Rejected eK)),
     t ++ replicate n (EvGenerateVideos {| apiKey := API_KEY w |} req)).
Proof.
  intros Hnew Hcall Hclass. revert t.
  induction n as [|n IH]; intros t; cbn [replicate allSettled].
  - unfold ret. by rewrite app_nil_r.
  - rewrite (videoOperation_refused w fuel req eK t Hnew (Hcall t) Hclass).
    unfold bind. rewrite IH. unfold ret. by rewrite <- app_assoc.
Qed.

(** C9, as the code has it.  Without a usable key (none at all, or the
    empty string): chat, image and audio generation go through [getClient]
    and raise the missing-key error of the service before anything else
    happens.  Video generation does not: it builds its clients itself and
    leaves the key to the SDK.
    - When the constructor of the SDK refuses the key, that error is thrown
      before anything else happens.
    - When the constructor accepts it and the SDK refuses every call made
      without a key, with an error that is not transient, the request is
      prepared all the same and handed to the SDK once for each video asked
      for; there is no wait, no poll and no request for a still image, and
      the call fails with ["Video generation failed: "] followed by the
      message of the SDK. *)
Theorem missing_key_by_entry_point (w : World) (t : Trace) :
  truthy_str (API_KEY w) = false ->
  (forall history newMessage options,
      sendChatMessage w history newMessage options t = (Throws missingKeyError, t))
  /\ (forall prompt model inputImages options,
        generateImageFromText w prompt model inputImages options t
        = (Throws missingKeyError, t))
  /\ (forall prompt referenceAudio personaLabel,
        generateAudio w prompt referenceAudio personaLabel t = (Throws missingKeyError, t))
  /\ (forall e fuel prompt model options inputImageBase64 videoInput referenceImages,
        sdk_new w (API_KEY w) = Some e ->
        generateVideo w fuel prompt model options inputImageBase64 videoInput
          referenceImages t
        = (Throws e, t))
  /\ (forall eK fuel prompt model options inputImageBase64 videoInput referenceImages
             req t1,
        sdk_new w (API_KEY w) = None ->
        (forall t' r, sdk_generateVideos w t' {| apiKey := API_KEY w |} r = Rejected eK) ->
        truthy eK = true ->
        isOverloaded w eK = Returns false ->
        prepareRequest w prompt model options inputImageBase64 videoInput referenceImages t
        = (Returns req, t1) ->
        (0 < fanOutCount options)%nat ->
        generateVideo w fuel prompt model options inputImageBase64 videoInput
          referenceImages t
        = (Throws (mkError ("Video generation failed: "
                            +:+ to_string (getErrorMessage w eK))),
           t1 ++ replicate (fanOutCount options)
                   (EvGenerateVideos {| apiKey := API_KEY w |} req))).
Proof.
  intros Hkey.
  destruct (missing_key_raised_eagerly w t Hkey) as (Hchat & Himage & Haudio & _ & _).
  split; [exact Hchat|]. split; [exact Himage|]. split; [exact Haudio|]. split.
  - intros e fuel prompt model options img vi refs Hnew.
    unfold generateVideo, newGoogleGenAI. by rewrite Hnew.
  - intros eK fuel prompt model options img vi refs req t1 Hnew Hcall Htruthy Hclass
           Hprep Hcount.
    rewrite (VideoFacts.generateVideo_after_fanout w fuel prompt model options img vi refs
               t req t1 _ _ Hnew Hprep
               (fanOut_refused w fuel req eK (fanOutCount options) t1 Hnew
                  (fun t' => Hcall t' req) Hclass)).
    assert (Hnone : usableVideos (replicate (fanOutCount options) (@Rejected VideoOp eK)) = []).
    { clear. generalize (fanOutCount options). intros n.
      induction n as [|n IH]; [reflexivity|exact IH]. }
    assert (Hcause : failureCause (replicate (fanOutCount options) (@Rejected VideoOp eK))
                     = eK).
    { destruct (fanOutCount options) as [|n]; [lia|].
      unfold failureCause. cbn. by rewrite Htruthy. }
    unfold try_catch. rewrite (VideoFacts.joinResults_none w _ _ Hnone), Hcause.
    unfold fallbackToImage, try_catch, bind.
    by rewrite (getClient_missing_key_image w _ Hkey).
Qed.

(** The two cases of the SDK in the browser: no key at all, which its
    constructor refuses, and the empty key, which it accepts and refuses at
    the first call. *)
Lemma missing_key_by_entry_point_witness :
  generateVideo (Scenarios.browserSdk None) 5 "a cat" "veo-3.1-fast-generate-preview"
    (Scenarios.videoOptions None) None JUndefined None []
  = (Throws Scenarios.keyMustBeSet, [])
  /\ generateImageFromText (Scenarios.browserSdk None) "a cat" "gemini-2.5-flash-image" []
       noImageOptions []
     = (Throws missingKeyError, [])
  /\ generateVideo (Scenarios.browserSdk (Some "")) 5 "a cat"
       "veo-3.1-fast-generate-preview" (Scenarios.videoOptions None) None JUndefined None []
     = (Throws (mkError "Video generation failed: API key is missing. Please provide a valid API key."),
        [EvGenerateVideos {| apiKey := Some "" |}
           {| vr_model := "veo-3.1-fast-generate-preview";
              vr_prompt := enhancedPrompt "a cat";
              vr_image := None;
              vr_video := None;
              vr_config := {| numberOfVideos := 1; vc_aspectRatio := "16:9";
                              vc_resolution := "720p"; lastFrame := None |} |}]).
Proof.
  destruct (missing_key_by_entry_point (Scenarios.browserSdk None) [] eq_refl)
    as (_ & Himage & _ & Hunset & _).
  destruct (missing_key_by_entry_point (Scenarios.browserSdk (Some "")) [] eq_refl)
    as (_ & _ & _ & _ & Hempty).
  split; [|split].
  - apply Hunset. reflexivity.
  - apply Himage.
  - exact (Hempty Scenarios.keyIsMissing 5%nat "a cat" "veo-3.1-fast-generate-preview"
             (Scenarios.videoOptions None) None JUndefined None
             {| vr_model := "veo-3.1-fast-generate-preview";
                vr_prompt := enhancedPrompt "a cat";
                vr_image := None;
                vr_video := None;
                vr_config := {| numberOfVideos := 1; vc_aspectRatio := "16:9";
                                vc_resolution := "720p"; lastFrame := None |} |}
             [] eq_refl (fun _ _ => eq_refl) eq_refl eq_refl eq_refl (Nat.lt_0_succ 0)).
Defined.

(** The claim as the specification has it fails for video generation with
    the empty key: no missing-key error is raised eagerly.  With frames
    that the browser cannot load, the call does its work on the images
    first and fails with the error of the conversion, and no error about
    the key is raised at all; with nothing to convert, the request is
    prepared and handed to the SDK, and what comes out is the failure of
    the video, not the missing-key error.  Image generation, in the same
    world, raises the missing-key error at once. *)
Lemma video_raises_no_missing_key_error :
  let w := Scenarios.browserSdk (Some "") in
  truthy_str (API_KEY w) = false
  /\ generateImageFromText w "a cat" "gemini-2.5-flash-image" [] noImageOptions []
     = (Throws missingKeyError, [])
  /\ generateVideo w 5 "a cat" "veo-3.1-fast-generate-preview" Studio.weaverOptions None
       JUndefined (Some [Studio.webp; Studio.framePng]) []
     = (Throws (mkError "Image conversion failed for Veo compatibility"),
        [EvLoadImage Studio.webp])
  /\ (exists req,
        generateVideo w 5 "a cat" "veo-3.1-fast-generate-preview"
          (Scenarios.videoOptions None) None JUndefined None []
        = (Throws (mkError "Video generation failed: API key is missing. Please provide a valid API key."),
           [EvGenerateVideos {| apiKey := Some "" |} req]))
  /\ mkError "Image conversion failed for Veo compatibility" <> missingKeyError
  /\ mkError "Video generation failed: API key is missing. Please provide a valid API key."
     <> missingKeyError.
Proof.
  cbv zeta. repeat split; try reflexivity; try discriminate. by eexists.
Qed.

End CredentialFacts.

(** ** Base64: decoding what was encoded *)

Module Base64Facts.
Import Support.

Lemma lor_add_low (x y k : Z) :
  0 <= k -> 0 <= y < 2 ^ k -> Z.lor (x * 2 ^ k) y = x * 2 ^ k + y.
Proof.
  intros Hk Hy.
  assert (Hland : Z.land (x * 2 ^ k) y = 0).
  { apply Z.bits_inj'. intros n Hn. rewrite Z.land_spec, Z.bits_0.
    destruct (Z.lt_ge_cases n k) as [Hlt|Hge].
    - rewrite Z.mul_pow2_bits_low by lia. reflexivity.
    - destruct (Z.eq_dec y 0) as [->|Hy0]; [by rewrite Z.bits_0, andb_false_r|].
      rewrite (Z.bits_above_log2 y n), andb_false_r; [reflexivity|lia|].
      apply Z.log2_lt_pow2; [lia|].
      apply Z.lt_le_trans with (2 ^ k); [lia|]. apply Z.pow_le_mono_r; lia. }
  rewrite <- Z.lxor_lor by exact Hland. symmetry. by apply Z.add_nocarry_lxor.
Qed.

Ltac arith := simpl Z.pow in *; Z.div_mod_to_equations; lia.

(** The four sextets of three bytes, in arithmetic. *)
Lemma sextets_3 (a b c : Z) :
  0 <= a < 256 -> 0 <= b < 256 -> 0 <= c < 256 ->
  Z.shiftr a 2 = a / 4
  /\ Z.lor (Z.shiftl (Z.land a 3) 4) (Z.shiftr b 4) = a mod 4 * 16 + b / 16
  /\ Z.lor (Z.shiftl (Z.land b 15) 2) (Z.shiftr c 6) = b mod 16 * 4 + c / 64
  /\ Z.land c 63 = c mod 64
  /\ Z.shiftl (Z.land a 3) 4 = a mod 4 * 16
  /\ Z.shiftl (Z.land b 15) 2 = b mod 16 * 4.
Proof.
  intros Ha Hb Hc.
  change 3 with (Z.ones 2). change 15 with (Z.ones 4). change 63 with (Z.ones 6).
  rewrite !Z.land_ones, !Z.shiftr_div_pow2, !Z.shiftl_mul_pow2 by lia.
  rewrite (lor_add_low (a mod 2 ^ 2) (b / 2 ^ 4) 4) by arith.
  rewrite (lor_add_low (b mod 2 ^ 4) (c / 2 ^ 6) 2) by arith.
  repeat split; reflexivity.
Qed.

(** Four sextets packed into 24 bits, in arithmetic. *)
Lemma pack_4 (s0 s1 s2 s3 : Z) :
  0 <= s0 < 64 -> 0 <= s1 < 64 -> 0 <= s2 < 64 -> 0 <= s3 < 64 ->
  Z.lor (Z.lor (Z.shiftl s0 18) (Z.shiftl s1 12)) (Z.lor (Z.shiftl s2 6) s3)
  = s0 * 262144 + s1 * 4096 + s2 * 64 + s3.
Proof.
  intros H0 H1 H2 H3. rewrite !Z.shiftl_mul_pow2 by lia.
  rewrite (lor_add_low s2 s3 6) by arith.
  rewrite (lor_add_low s0 (s1 * 2 ^ 12) 18) by arith.
  replace (s0 * 2 ^ 18 + s1 * 2 ^ 12) with ((s0 * 2 ^ 6 + s1) * 2 ^ 12)
    by (simpl Z.pow; lia).
  rewrite (lor_add_low (s0 * 2 ^ 6 + s1) (s2 * 2 ^ 6 + s3) 12) by arith.
  simpl Z.pow. lia.
Qed.

Lemma encode_decode_3 (a b c : Z) :
  0 <= a < 256 -> 0 <= b < 256 -> 0 <= c < 256 ->
  b64_decode [Z.shiftr a 2;
              Z.lor (Z.shiftl (Z.land a 3) 4) (Z.shiftr b 4);
              Z.lor (Z.shiftl (Z.land b 15) 2) (Z.shiftr c 6);
              Z.land c 63] = [a; b; c].
Proof.
  intros Ha Hb Hc. cbn [b64_decode].
  destruct (sextets_3 a b c Ha Hb Hc) as (-> & -> & -> & -> & _).
  rewrite pack_4 by arith.
  change 255 with (Z.ones 8). rewrite !Z.land_ones, !Z.shiftr_div_pow2 by lia.
  f_equal; [|f_equal; [|f_equal]]; arith.
Qed.

Lemma encode_decode_2 (a b : Z) :
  0 <= a < 256 -> 0 <= b < 256 ->
  b64_decode [Z.shiftr a 2;
              Z.lor (Z.shiftl (Z.land a 3) 4) (Z.shiftr b 4);
              Z.shiftl (Z.land b 15) 2] = [a; b].
Proof.
  intros Ha Hb. cbn [b64_decode].
  destruct (sextets_3 a b 0 Ha Hb ltac:(lia)) as (-> & -> & _ & _ & _ & ->).
  rewrite !Z.shiftl_mul_pow2, !Z.shiftr_div_pow2 by lia.
  rewrite (lor_add_low (a / 4) ((a mod 4 * 16 + b / 16) * 2 ^ 4) 10) by arith.
  replace (a / 4 * 2 ^ 10 + (a mod 4 * 16 + b / 16) * 2 ^ 4)
    with ((a / 4 * 2 ^ 6 + (a mod 4 * 16 + b / 16)) * 2 ^ 4) by (simpl Z.pow; lia).
  rewrite (lor_add_low _ (b mod 16 * 4 / 2 ^ 2) 4) by arith.
  change 255 with (Z.ones 8). rewrite !Z.land_ones by lia.
  f_equal; [|f_equal]; arith.
Qed.

Lemma encode_decode_1 (a : Z) :
  0 <= a < 256 ->
  b64_decode [Z.shiftr a 2; Z.shiftl (Z.land a 3) 4] = [a].
Proof.
  intros Ha. cbn [b64_decode].
  destruct (sextets_3 a 0 0 Ha ltac:(lia) ltac:(lia)) as (-> & _ & _ & _ & -> & _).
  rewrite !Z.shiftl_mul_pow2, !Z.shiftr_div_pow2 by lia.
  rewrite (lor_add_low (a / 4) (a mod 4 * 16 / 2 ^ 4) 2) by arith.
  change 255 with (Z.ones 8). rewrite !Z.land_ones by lia.
  f_equal. arith.
Qed.

(** Induction three elements at a time. *)
Lemma list_ind3 {A} (P : list A -> Prop) :
  P [] -> (forall a, P [a]) -> (forall a b, P [a; b]) ->
  (forall a b c l, P l -> P (a :: b :: c :: l)) ->
  forall l, P l.
Proof.
  intros H0 H1 H2 H3.
  fix IH 1. intros [|a [|b [|c l]]]; [exact H0|apply H1|apply H2|].
  apply H3. apply IH.
Qed.

Lemma b64_encode_split (l : list Z) :
  b64_encode l = map b64_char (sextets l) ++ padding l.
Proof.
  induction l as [| | |a b c l IH] using list_ind3; try reflexivity.
  cbn [b64_encode sextets padding map app]. by rewrite IH.
Qed.

Lemma sextets_decode (l : list Z) :
  Forall is_byte l -> b64_decode (sextets l) = l.
Proof.
  induction l as [|a|a b|a b c l IH] using list_ind3; intros Hl.
  - reflexivity.
  - apply Forall_cons in Hl as [Ha _]. by apply encode_decode_1.
  - apply Forall_cons in Hl as [Ha Hl]. apply Forall_cons in Hl as [Hb _].
    by apply encode_decode_2.
  - apply Forall_cons in Hl as [Ha Hl]. apply Forall_cons in Hl as [Hb Hl].
    apply Forall_cons in Hl as [Hc Hl].
    cbn [sextets].
    change (b64_decode (?s0 :: ?s1 :: ?s2 :: ?s3 :: sextets l))
      with (b64_decode [s0; s1; s2; s3] ++ b64_decode (sextets l)).
    rewrite (encode_decode_3 a b c) by done. rewrite IH by done. reflexivity.
Qed.

Lemma sextets_range (l : list Z) : Forall is_byte l -> Forall is_sextet (sextets l).
Proof.
  unfold is_byte, is_sextet.
  induction l as [|a|a b|a b c l IH] using list_ind3; intros Hl.
  - constructor.
  - apply Forall_cons in Hl as [Ha _]. cbn [sextets].
    destruct (sextets_3 a 0 0 Ha ltac:(lia) ltac:(lia)) as (-> & _ & _ & _ & -> & _).
    repeat constructor; arith.
  - apply Forall_cons in Hl as [Ha Hl]. apply Forall_cons in Hl as [Hb _]. cbn [sextets].
    destruct (sextets_3 a b 0 Ha Hb ltac:(lia)) as (-> & -> & _ & _ & _ & ->).
    repeat constructor; arith.
  - apply Forall_cons in Hl as [Ha Hl]. apply Forall_cons in Hl as [Hb Hl].
    apply Forall_cons in Hl as [Hc Hl]. cbn [sextets].
    destruct (sextets_3 a b c Ha Hb Hc) as (-> & -> & -> & -> & _).
    repeat (apply Forall_cons; split); [arith..|by apply IH].
Qed.

(** Every sextet has its character, which is neither white space nor the
    padding character, and the character has the sextet as index. *)
Lemma b64_char_facts (n : Z) :
  is_sextet n ->
  b64_index (b64_char n) = Some n
  /\ is_ascii_whitespace (b64_char n) = false
  /\ is_pad (b64_char n) = false.
Proof.
  intros [Hlo Hhi].
  assert (Hall : forallb (fun k =>
                    let n := Z.of_nat k in
                    match b64_index (b64_char n) with
                    | Some m => (m =? n) && negb (is_ascii_whitespace (b64_char n))
                                && negb (is_pad (b64_char n))
                    | None => false
                    end) (seq 0 64) = true) by (vm_compute; reflexivity).
  rewrite forallb_forall in Hall.
  specialize (Hall (Z.to_nat n)). rewrite Z2Nat.id in Hall by lia. cbv zeta in Hall.
  assert (Hin : In (Z.to_nat n) (seq 0 64)) by (apply in_seq; lia).
  specialize (Hall Hin).
  destruct (b64_index (b64_char n)) as [m|]; [|discriminate Hall].
  apply andb_true_iff in Hall as [Hall Hp]. apply andb_true_iff in Hall as [Hm Hw].
  apply Z.eqb_eq in Hm. subst m.
  apply negb_true_iff in Hw, Hp. done.
Qed.

Lemma padding_cases (l : list Z) :
  (padding l = [] /\ Z.of_nat (length (sextets l)) mod 4 = 0)
  \/ (padding l = ["="%char] /\ Z.of_nat (length (sextets l)) mod 4 = 3)
  \/ (padding l = ["="%char; "="%char] /\ Z.of_nat (length (sextets l)) mod 4 = 2).
Proof.
  induction l as [|a|a b|a b c l IH] using list_ind3.
  - left. by split.
  - right. right. by split.
  - right. left. by split.
  - cbn [padding sextets length].
    replace (Z.of_nat (S (S (S (S (length (sextets l)))))))
      with (Z.of_nat (length (sextets l)) + 1 * 4) by lia.
    rewrite Z.mod_add by lia. exact IH.
Qed.

Lemma chars_of_sextets (l : list Z) :
  Forall is_byte l ->
  Forall (fun c => is_ascii_whitespace c = false /\ is_pad c = false)
    (map b64_char (sextets l))
  /\ indices (map b64_char (sextets l)) = Some (sextets l).
Proof.
  intros Hl. pose proof (sextets_range l Hl) as Hs.
  induction Hs as [|n ns Hn Hns IH]; [by split|].
  destruct IH as [IH1 IH2]. destruct (b64_char_facts n Hn) as (Hi & Hw & Hp).
  split; [by constructor|]. cbn [map indices]. by rewrite Hi, IH2.
Qed.

Lemma strip_padding_encoded (l : list Z) :
  Forall is_byte l ->
  strip_padding (b64_encode l) = map b64_char (sextets l).
Proof.
  intros Hl. rewrite b64_encode_split.
  destruct (chars_of_sextets l Hl) as [Hchars _].
  assert (Hrev : Forall (fun c => is_pad c = false) (rev (map b64_char (sextets l)))).
  { apply Forall_rev. eapply Forall_impl; [exact Hchars|]. by intros c [_ H]. }
  set (B := map b64_char (sextets l)) in *.
  assert (HlenB : length B = length (sextets l)) by apply length_map.
  unfold strip_padding.
  destruct (padding_cases l) as [[-> Hm]|[[-> Hm]|[-> Hm]]].
  - rewrite app_nil_r, HlenB, Hm. cbn [Z.eqb].
    destruct (rev B) as [|p1 [|p2 r]]; try reflexivity.
    apply Forall_cons in Hrev as [-> _]. reflexivity.
  - rewrite length_app, HlenB. cbn [length].
    replace (Z.of_nat (length (sextets l) + 1)) with (Z.of_nat (length (sextets l)) + 1) by lia.
    rewrite <- Zplus_mod_idemp_l, Hm. cbn [Z.add Z.modulo Z.eqb]. 
    change ((3 + 1) mod 4 =? 0) with true. cbv iota.
    rewrite rev_app_distr. cbn [rev app].
    destruct (rev B) as [|p2 r] eqn:HrevB.
    + assert (B = []) as HB by (rewrite <- (rev_involutive B), HrevB; reflexivity).
      rewrite HB in HlenB. cbn in HlenB. rewrite <- HlenB in Hm. discriminate Hm.
    + apply Forall_cons in Hrev as [-> _].
      change (is_pad "="%char) with true. cbv iota.
      rewrite <- (rev_involutive B), HrevB. reflexivity.
  - rewrite length_app, HlenB. cbn [length].
    replace (Z.of_nat (length (sextets l) + 2)) with (Z.of_nat (length (sextets l)) + 2) by lia.
    rewrite <- Zplus_mod_idemp_l, Hm.
    change ((2 + 2) mod 4 =? 0) with true. cbv iota.
    rewrite rev_app_distr. cbn [rev app].
    change (is_pad "="%char) with true. cbv iota.
    apply rev_involutive.
Qed.

Lemma filter_all {A} (P : A -> Prop) `{forall x, Decision (P x)} (l : list A) :
  Forall P l -> filter P l = l.
Proof.
  induction 1 as [|x l Hx _ IH]; [reflexivity|].
  rewrite filter_cons_True by exact Hx. by rewrite IH.
Qed.

(** [atob] undoes [btoa] on every binary string. *)
Lemma atob_encoded (l : list Z) :
  Forall is_byte l ->
  atob (String.string_of_list_ascii (b64_encode l)) = Returns (fromCharCodes l).
Proof.
  intros Hl. unfold atob. rewrite String.list_ascii_of_string_of_list_ascii.
  destruct (chars_of_sextets l Hl) as [Hchars Hidx].
  assert (Hfilter : filter (fun c => is_ascii_whitespace c = false) (b64_encode l)
                    = b64_encode l).
  { rewrite b64_encode_split. rewrite filter_app. f_equal.
    - apply filter_all. eapply Forall_impl; [exact Hchars|]. by intros c [Hc _].
    - destruct (padding_cases l) as [[-> _]|[[-> _]|[-> _]]]; reflexivity. }
  rewrite Hfilter, strip_padding_encoded by exact Hl.
  rewrite length_map.
  assert ((Z.of_nat (length (sextets l)) mod 4 =? 1) = false) as ->.
  { destruct (padding_cases l) as [[_ ->]|[[_ ->]|[_ ->]]]; reflexivity. }
  rewrite Hidx. by rewrite sextets_decode.
Qed.

Lemma code_chr (b : Z) : is_byte b -> code (chr b) = b.
Proof.
  intros [Hlo Hhi]. unfold code, chr. rewrite Z.mod_small by lia.
  rewrite N_ascii_embedding; [lia|].
  change 256%N with (Z.to_N 256). apply Z2N.inj_lt; lia.
Qed.

Lemma code_range (c : ascii) : is_byte (code c).
Proof. unfold code, is_byte. pose proof (N_ascii_bounded c). lia. Qed.

Lemma chr_code (c : ascii) : chr (code c) = c.
Proof.
  unfold chr, code. rewrite Z.mod_small by apply code_range.
  rewrite N2Z.id. apply ascii_N_embedding.
Qed.

Lemma charCodes_bytes (s : string) : Forall is_byte (charCodes s).
Proof.
  unfold charCodes. apply Forall_map. apply Forall_forall. intros c _. apply code_range.
Qed.

Lemma fromCharCodes_charCodes (s : string) : fromCharCodes (charCodes s) = s.
Proof.
  unfold fromCharCodes, charCodes. rewrite map_map.
  rewrite (map_ext _ id) by (intros c; apply chr_code).
  rewrite map_id. apply String.string_of_list_ascii_of_string.
Qed.

Lemma charCodes_fromCharCodes (l : list Z) :
  Forall is_byte l -> charCodes (fromCharCodes l) = l.
Proof.
  intros Hl. unfold fromCharCodes, charCodes.
  rewrite String.list_ascii_of_string_of_list_ascii, map_map.
  induction Hl as [|b l Hb _ IH]; [reflexivity|].
  cbn [map]. by rewrite code_chr, IH.
Qed.

End Base64Facts.

(** ** More on the audio helpers *)

Module AudioMore.
Import Support Base64Facts AudioFacts.

Lemma base64ToUint8Array_cases (base64 : string) :
  (exists bytes, base64ToUint8Array base64 = Returns bytes /\ Forall is_byte bytes)
  \/ base64ToUint8Array base64 = Throws InvalidCharacterError.
Proof.
  unfold base64ToUint8Array, atob.
  destruct (_ =? 1); [by right|].
  destruct (indices _) as [ns|]; [|by right].
  left. eexists. split; [reflexivity|]. apply charCodes_bytes.
Qed.

Lemma decodeChunks_cases (chunks : list string) arrays totalLength :
  (exists decoded,
      Forall2 (fun chunk arr => base64ToUint8Array chunk = Returns arr) chunks decoded
      /\ Forall (Forall is_byte) decoded
      /\ decodeChunks chunks arrays totalLength
         = Returns (arrays ++ decoded, (totalLength + length (concat decoded))%nat))
  \/ (exists before bad after decoded,
        chunks = before ++ bad :: after
        /\ Forall2 (fun chunk arr => base64ToUint8Array chunk = Returns arr) before decoded
        /\ base64ToUint8Array bad = Throws InvalidCharacterError
        /\ decodeChunks chunks arrays totalLength = Throws InvalidCharacterError).
Proof.
  revert arrays totalLength. induction chunks as [|chunk chunks IH]; intros arrays n.
  - left. exists []. cbn. rewrite app_nil_r, Nat.add_0_r. repeat split; constructor.
  - cbn [decodeChunks].
    destruct (base64ToUint8Array_cases chunk) as [(arr & Harr & Hbytes)|Hbad].
    + rewrite Harr. cbn [obind].
      destruct (IH (arrays ++ [arr]) (n + length arr)%nat)
        as [(decoded & Hall & Hb & ->)|(before & bad & after & decoded & -> & Hall & Hbad & ->)].
      * left. exists (arr :: decoded). split; [by constructor|]. split; [by constructor|].
        rewrite <- app_assoc. cbn [concat app]. rewrite length_app. do 2 f_equal. lia.
      * right. exists (chunk :: before), bad, after, (arr :: decoded).
        repeat split; try done. by constructor.
    + right. exists [], chunk, chunks, []. rewrite Hbad. repeat split; try done.
Qed.

Lemma le_bytes (v : Z) : Forall is_byte (le16 v) /\ Forall is_byte (le32 v).
Proof.
  assert (Hland : forall x, is_byte (Z.land x 255)).
  { intros x. unfold is_byte. change 255 with (Z.ones 8). rewrite Z.land_ones by lia.
    apply Z.mod_pos_bound. lia. }
  split; repeat constructor; apply Hland.
Qed.

Lemma canonicalHeader_bytes dataLen sampleRate :
  Forall is_byte (canonicalHeader dataLen sampleRate).
Proof.
  unfold canonicalHeader.
  repeat (apply Forall_app; split);
    first [apply charCodes_bytes | apply le_bytes].
Qed.

(** The file [combineBase64Chunks] assembles: header and decoded chunks,
    all bytes; or the decoding error of the first chunk [atob] rejects. *)
Lemma wavFile_cases (chunks : list string) (sampleRate : Z) :
  (exists decoded,
      Forall2 (fun chunk arr => base64ToUint8Array chunk = Returns arr) chunks decoded
      /\ Forall is_byte (canonicalHeader (length (concat decoded)) sampleRate ++ concat decoded)
      /\ wavFile chunks sampleRate
         = Returns (canonicalHeader (length (concat decoded)) sampleRate ++ concat decoded))
  \/ (exists before bad after,
        chunks = before ++ bad :: after
        /\ Forall (fun chunk => exists arr, base64ToUint8Array chunk = Returns arr) before
        /\ base64ToUint8Array bad = Throws InvalidCharacterError
        /\ wavFile chunks sampleRate = Throws InvalidCharacterError).
Proof.
  destruct (decodeChunks_cases chunks [] 0)
    as [(decoded & Hall & Hb & Hdec)|(before & bad & after & decoded & -> & Hall & Hbad & Hdec)].
  - left. exists decoded. split; [exact Hall|].
    destruct (wavFile_layout chunks sampleRate decoded Hall) as (header & Hh & Hlen & Hfile).
    rewrite wavHeader_canonical in Hh. injection Hh as <-.
    split; [|exact Hfile].
    apply Forall_app. split; [apply canonicalHeader_bytes|by apply Forall_concat].
  - right. exists before, bad, after. split; [reflexivity|].
    split; [|split; [exact Hbad|]].
    + clear -Hall. induction Hall; constructor; eauto.
    + unfold wavFile. rewrite Hdec. reflexivity.
Qed.

(** A file of bytes, written as base64 by [btoa], is read back by
    [base64ToUint8Array]. *)
Lemma base64ToUint8Array_btoa (file : list Z) :
  Forall is_byte file ->
  base64ToUint8Array (btoa (fromCharCodes file)) = Returns file.
Proof.
  intros Hbytes. unfold base64ToUint8Array, btoa.
  rewrite charCodes_fromCharCodes by exact Hbytes.
  rewrite atob_encoded by exact Hbytes. cbn [obind].
  by rewrite charCodes_fromCharCodes.
Qed.

(** X1.  Whatever the chunks and the sample rate, [combineBase64Chunks]
    either returns a data URI or throws the decoding error of [atob]: the
    writes into the header and into the file never leave their buffers.
    When every chunk decodes, the file is the canonical 44-byte header for
    the total length followed by the decoded chunks in input order. *)
Theorem combineBase64Chunks_total (chunks : list string) (sampleRate : Z) :
  (exists decoded,
      Forall2 (fun chunk arr => base64ToUint8Array chunk = Returns arr) chunks decoded
      /\ wavFile chunks sampleRate
         = Returns (canonicalHeader (length (concat decoded)) sampleRate ++ concat decoded)
      /\ length (canonicalHeader (length (concat decoded)) sampleRate ++ concat decoded)
         = (44 + length (concat decoded))%nat
      /\ combineBase64Chunks chunks sampleRate
         = Returns ("data:audio/wav;base64,"
                    +:+ btoa (fromCharCodes
                                (canonicalHeader (length (concat decoded)) sampleRate
                                 ++ concat decoded))))
  \/ (exists before bad after,
        chunks = before ++ bad :: after
        /\ Forall (fun chunk => exists arr, base64ToUint8Array chunk = Returns arr) before
        /\ base64ToUint8Array bad = Throws InvalidCharacterError
        /\ combineBase64Chunks chunks sampleRate = Throws InvalidCharacterError).
Proof.
  destruct (wavFile_cases chunks sampleRate)
    as [(decoded & Hall & Hb & Hfile)|(before & bad & after & -> & Hall & Hbad & Hfile)].
  - left. exists decoded. split; [exact Hall|]. split; [exact Hfile|].
    split.
    + rewrite length_app. f_equal.
    + rewrite combineBase64Chunks_wavFile, Hfile. reflexivity.
  - right. exists before, bad, after. split; [reflexivity|].
    split; [exact Hall|]. split; [exact Hbad|].
    rewrite combineBase64Chunks_wavFile, Hfile. reflexivity.
Qed.

(** X2.  The data URI of [combineBase64Chunks] holds the file: taking off
    the prefix and decoding the rest with [base64ToUint8Array] gives back
    the bytes of the WAV file, header and samples. *)
Theorem wav_uri_round_trip (chunks : list string) (sampleRate : Z) (uri : string) :
  combineBase64Chunks chunks sampleRate = Returns uri ->
  exists payload file,
    uri = "data:audio/wav;base64," +:+ payload
    /\ wavFile chunks sampleRate = Returns file
    /\ base64ToUint8Array payload = Returns file.
Proof.
  intros Huri. rewrite combineBase64Chunks_wavFile in Huri.
  destruct (wavFile_cases chunks sampleRate)
    as [(decoded & _ & Hbytes & Hfile)|(b & bad & a & _ & _ & _ & Hthrow)];
    [|rewrite Hthrow in Huri; discriminate].
  rewrite Hfile in Huri. injection Huri as <-.
  eexists. eexists. split; [reflexivity|]. split; [exact Hfile|].
  by apply base64ToUint8Array_btoa.
Qed.

Lemma wav_uri_round_trip_witness :
  exists payload file,
    "data:audio/wav;base64,UklGRiYAAABXQVZFZm10IBAAAAABAAEAwF0AAIC7AAACABAAZGF0YQIAAAABAg=="
    = "data:audio/wav;base64," +:+ payload
    /\ wavFile ["AQI="] 24000 = Returns file
    /\ base64ToUint8Array payload = Returns file.
Proof. apply (wav_uri_round_trip ["AQI="] 24000). reflexivity. Defined.

(** X3.  The header fields as written, for every data length and sample
    rate that fit their 32-bit slots: ChunkSize is 36 plus the data length,
    ByteRate twice the sample rate, BlockAlign 2, BitsPerSample 16 and
    Subchunk2Size the data length. *)
Theorem wavHeader_fields (totalLength : nat) (sampleRate : Z) :
  36 + Z.of_nat totalLength < 4294967296 ->
  0 <= sampleRate -> sampleRate * 2 < 4294967296 ->
  exists header,
    wavHeader totalLength sampleRate = Returns header
    /\ length header = 44%nat
    /\ fromCharCodes (take 4 header) = "RIFF"
    /\ getUint32_le header 4 = 36 + Z.of_nat totalLength
    /\ fromCharCodes (take 8 (drop 8 header)) = "WAVEfmt "
    /\ getUint32_le header 16 = 16
    /\ getUint16_le header 20 = 1
    /\ getUint16_le header 22 = 1
    /\ getUint32_le header 24 = sampleRate
    /\ getUint32_le header 28 = sampleRate * 2
    /\ getUint16_le header 32 = 2
    /\ getUint16_le header 34 = 16
    /\ fromCharCodes (take 4 (drop 36 header)) = "data"
    /\ getUint32_le header 40 = Z.of_nat totalLength.
Proof.
  intros Hlen Hsr Hrate. exists (canonicalHeader totalLength sampleRate).
  split; [apply wavHeader_canonical|].
  destruct (canonicalHeader_fields totalLength sampleRate Hlen Hsr Hrate)
    as (H0 & H4 & H22 & H24 & H28 & H32 & H34 & H40).
  repeat split; try assumption; reflexivity.
Qed.

Lemma wavHeader_fields_witness :
  exists header,
    wavHeader 480 48000 = Returns header
    /\ getUint32_le header 4 = 516
    /\ getUint32_le header 24 = 48000
    /\ getUint32_le header 28 = 96000
    /\ getUint32_le header 40 = 480.
Proof.
  destruct (wavHeader_fields 480 48000 ltac:(lia) ltac:(lia) ltac:(lia))
    as (header & H & _ & _ & H4 & _ & _ & _ & _ & H24 & H28 & _ & _ & _ & H40).
  exists header. repeat split; assumption.
Defined.

End AudioMore.

(** ** More on the retry wrapper *)

Module RetryMore.
Import Support GeminiService RetryFacts.

Section Retry.

Variable w : World.
Context {T : Type}.
Variable op : IO T.
Hypothesis Hquiet : quiet op.

Lemma quiet_step (t : Trace) (pre : list Event) :
  invocations (snd (op (t ++ pre ++ [EvInvoke])))
  = (invocations t + invocations pre + 1)%nat
  /\ waits (snd (op (t ++ pre ++ [EvInvoke]))) = waits t ++ waits pre.
Proof.
  destruct (op (t ++ pre ++ [EvInvoke])) as [o t'] eqn:Hrun.
  exact (quiet_run op t pre o t' Hquiet Hrun).
Qed.

(** The loop entered at counter [j] with [remaining] rounds to go makes
    between one and [remaining] executions, and has waited, before each
    execution but the first, the delay the schedule gives for it. *)
Lemma retry_loop_attempts (maxRetries baseDelay : Z) (remaining j : nat)
    (lastError : JsVal) (t : Trace) :
  (1 <= remaining)%nat ->
  Z.of_nat (remaining + j) = maxRetries ->
  exists attempts : nat,
    (1 <= attempts <= remaining)%nat
    /\ invocations (snd (retry_loop w (observed op) maxRetries baseDelay remaining
                           (Z.of_nat j) lastError t))
       = (invocations t + attempts)%nat
    /\ waits (snd (retry_loop w (observed op) maxRetries baseDelay remaining
                     (Z.of_nat j) lastError t))
       = waits t ++ backoffSchedule baseDelay j (attempts - 1).
Proof.
  revert j lastError t.
  induction remaining as [|remaining IH]; intros j lastError t Hrem Hmax; [lia|].
  destruct (quiet_step t []) as [Hi Hw]. cbn [app] in Hi, Hw.
  remember (retry_loop w (observed op) maxRetries baseDelay (S remaining)
              (Z.of_nat j) lastError t) as r eqn:Hr.
  cbn [retry_loop] in Hr. unfold try_catch, observed in Hr.
  assert (Hone : forall t1,
             invocations t1 = (invocations t + invocations [] + 1)%nat ->
             waits t1 = waits t ++ waits [] ->
             snd r = t1 ->
             exists attempts : nat,
               (1 <= attempts <= S remaining)%nat
               /\ invocations (snd r) = (invocations t + attempts)%nat
               /\ waits (snd r) = waits t ++ backoffSchedule baseDelay j (attempts - 1)).
  { intros t1 Hi1 Hw1 ->. exists 1%nat. rewrite Hi1, Hw1. cbn.
    split; [lia|]. split; [lia|reflexivity]. }
  destruct (op (t ++ [EvInvoke])) as [[v|e|] t1] eqn:Hrun; cbn [snd] in Hi, Hw;
    [by apply (Hone t1); subst r| |by apply (Hone t1); subst r].
  unfold bind, lift in Hr.
  destruct (isOverloaded w e) as [b| |]; [|by apply (Hone t1); subst r..].
  destruct (b && (Z.of_nat j <? maxRetries - 1)) eqn:Hgo; [|by apply (Hone t1); subst r].
  apply andb_true_iff in Hgo as [_ Hlt]. apply Z.ltb_lt in Hlt.
  unfold wait, perform in Hr. cbn [fst snd] in Hr.
  replace (Z.of_nat j + 1) with (Z.of_nat (S j)) in Hr by lia.
  destruct (IH (S j) e (t1 ++ [EvWait (baseDelay * 2 ^ Z.of_nat j)]) ltac:(lia) ltac:(lia))
    as (attempts & Hatt & Hinv & Hwaits).
  fold (observed op) in Hr. rewrite <- Hr in Hinv, Hwaits.
  exists (S attempts). split; [lia|].
  rewrite Hinv, Hwaits, invocations_app, waits_app, Hi, Hw. cbn.
  rewrite !app_nil_r, Nat.sub_0_r. split; [lia|].
  rewrite <- app_assoc. f_equal.
  destruct attempts as [|a]; [lia|]. cbn [Nat.sub]. rewrite Nat.sub_0_r.
  reflexivity.
Qed.

End Retry.

(** X4.  For any number of retries and any base delay, and an operation
    that neither waits nor records executions by itself: [retryWithBackoff]
    executes the operation at least once and at most [maxRetries] times, and
    between executions it has waited [baseDelay], [2 * baseDelay],
    [4 * baseDelay], ... in this order, one wait fewer than executions.
    With [maxRetries] zero or negative the operation is never executed and
    [undefined] is thrown. *)
Theorem retryWithBackoff_attempts (w : World) (T : Type) (op : IO T)
    (maxRetries baseDelay : Z) (t : Trace) :
  quiet op ->
  (1 <= maxRetries ->
   exists attempts : nat,
     (1 <= attempts)%nat /\ Z.of_nat attempts <= maxRetries
     /\ invocations (snd (retryWithBackoff w (observed op) maxRetries baseDelay t))
        = (invocations t + attempts)%nat
     /\ waits (snd (retryWithBackoff w (observed op) maxRetries baseDelay t))
        = waits t ++ backoffSchedule baseDelay 0 (attempts - 1))
  /\ (maxRetries <= 0 ->
      retryWithBackoff w (observed op) maxRetries baseDelay t = (Throws JUndefined, t)).
Proof.
  intros Hq. split.
  - intros Hmax. unfold retryWithBackoff.
    destruct (retry_loop_attempts w op Hq maxRetries baseDelay (Z.to_nat maxRetries) 0
                JUndefined t ltac:(lia) ltac:(lia)) as (attempts & Hatt & Hinv & Hwaits).
    exists attempts. split; [lia|]. split; [lia|]. split; assumption.
  - intros Hmax. unfold retryWithBackoff.
    replace (Z.to_nat maxRetries) with 0%nat by lia. reflexivity.
Qed.

Lemma retryWithBackoff_attempts_witness :
  (exists attempts : nat,
     (1 <= attempts)%nat /\ Z.of_nat attempts <= 5
     /\ invocations (snd (retryWithBackoff Scenarios.refusingWorld
                            (scripted (fun _ => @Throws Z Scenarios.unavailable)) 5 100 []))
        = (0 + attempts)%nat
     /\ waits (snd (retryWithBackoff Scenarios.refusingWorld
                       (scripted (fun _ => @Throws Z Scenarios.unavailable)) 5 100 []))
        = [] ++ backoffSchedule 100 0 (attempts - 1))
  /\ retryWithBackoff Scenarios.refusingWorld
       (scripted (fun _ => @Throws Z Scenarios.unavailable)) 0 100 []
     = (Throws JUndefined, []).
Proof.
  assert (Hq : quiet (fun t : Trace => (@Throws Z Scenarios.unavailable, t))).
  { intros t. split; reflexivity. }
  split.
  - apply (retryWithBackoff_attempts Scenarios.refusingWorld Z
             (fun t => (Throws Scenarios.unavailable, t)) 5 100 [] Hq). lia.
  - apply (retryWithBackoff_attempts Scenarios.refusingWorld Z
             (fun t => (Throws Scenarios.unavailable, t)) 0 100 [] Hq). lia.
Defined.

End RetryMore.

(** ** Rejections the retry loop cannot classify *)

Module RetryEdge.
Import GeminiService.

(** The classification throws a [TypeError] on [null], on [undefined] and
    on an object whose [message] is truthy but not a string. *)
Lemma isOverloaded_throws (w : World) (e : JsVal) :
  e = JNull \/ e = JUndefined
  \/ (exists fs, e = JObj fs /\ truthy (assoc "message" fs) = true
                 /\ forall s, assoc "message" fs <> JStr s) ->
  exists msg, isOverloaded w e = Throws (mkTypeError msg).
Proof.
  intros [->|[->|(fs & -> & Htruthy & Hstr)]]; [by eexists..|].
  unfold isOverloaded, getErrorMessage. cbn [truthy negb field].
  rewrite Htruthy.
  destruct (assoc "message" fs) as [| | | |s|] eqn:Hm; try by eexists.
  by destruct (Hstr s).
Qed.

(** X5.  When the operation rejects with a value the [catch] block cannot
    classify ([null], [undefined], or an object whose [message] is truthy
    and not a string), [retryWithBackoff] does not rethrow that value: the
    classification itself throws, so the caller receives a [TypeError].
    This happens right after the failed execution, whatever the number of
    retries allowed: no wait, no second execution. *)
Theorem retryWithBackoff_unclassifiable (w : World) (T : Type) (op : IO T)
    (maxRetries baseDelay : Z) (t t1 : Trace) (e : JsVal) :
  1 <= maxRetries ->
  op t = (Throws e, t1) ->
  e = JNull \/ e = JUndefined
  \/ (exists fs, e = JObj fs /\ truthy (assoc "message" fs) = true
                 /\ forall s, assoc "message" fs <> JStr s) ->
  exists msg,
    retryWithBackoff w op maxRetries baseDelay t = (Throws (mkTypeError msg), t1).
Proof.
  intros Hmax Hrun He.
  destruct (isOverloaded_throws w e He) as [msg Hmsg].
  exists msg. unfold retryWithBackoff.
  destruct (Z.to_nat maxRetries) as [|n] eqn:Hn; [lia|].
  cbn [retry_loop]. unfold try_catch. rewrite Hrun.
  unfold bind, lift. rewrite Hmsg. reflexivity.
Qed.

Lemma retryWithBackoff_unclassifiable_witness :
  exists msg,
    retryWithBackoff Scenarios.refusingWorld (scripted (fun _ => @Throws Z JNull)) 3 2000 []
    = (Throws (mkTypeError msg), [EvInvoke]).
Proof.
  apply (retryWithBackoff_unclassifiable Scenarios.refusingWorld Z
           (scripted (fun _ => Throws JNull)) 3 2000 [] [EvInvoke] JNull).
  - lia.
  - reflexivity.
  - left. reflexivity.
Defined.

End RetryEdge.

(** ** Data URIs: what the service writes, it reads back *)

Module DataUriFacts.
Import Support GeminiService Tools.

Lemma app_cons (c : ascii) (s s' : string) : String c s +:+ s' = String c (s +:+ s').
Proof. reflexivity. Qed.

Lemma app_empty (s : string) : EmptyString +:+ s = s.
Proof. reflexivity. Qed.

Lemma strip_prefix_app (p s : string) : strip_prefix p (p +:+ s) = Some s.
Proof.
  induction p as [|c p IH]; [by destruct s|].
  rewrite app_cons. cbn [strip_prefix]. by rewrite Ascii.eqb_refl.
Qed.

Lemma strip_prefix_sound (p s r : string) : strip_prefix p s = Some r -> s = p +:+ r.
Proof.
  revert s. induction p as [|c p IH]; intros s H.
  - destruct s; injection H as <-; reflexivity.
  - destruct s as [|c' s]; [discriminate|]. cbn [strip_prefix] in H.
    destruct (Ascii.eqb c c') eqn:Hc; [|discriminate].
    apply Ascii.eqb_eq in Hc as <-. rewrite app_cons. f_equal. by apply IH.
Qed.

(** A run of characters of the class, followed by one outside it. *)
Lemma span_run (cls : ascii -> bool) (sub : string) (c : ascii) (rest : string) :
  all_chars cls sub = true -> cls c = false ->
  span cls (sub +:+ String c rest) = (sub, String c rest).
Proof.
  intros Hsub Hc. induction sub as [|a sub IH].
  - rewrite app_empty. cbn [span]. by rewrite Hc.
  - cbn [all_chars] in Hsub. apply andb_true_iff in Hsub as [Ha Hsub].
    rewrite app_cons. cbn [span]. rewrite Ha, (IH Hsub). reflexivity.
Qed.

Lemma match_data_uri_written (media : string) (cls : ascii -> bool) (sub rest : string) :
  sub <> EmptyString -> all_chars cls sub = true -> cls ";"%char = false ->
  match_data_uri media cls
    ("data:" +:+ (media +:+ "/" +:+ sub) +:+ ";base64," +:+ rest)
  = Some (media +:+ "/" +:+ sub, rest).
Proof.
  intros Hne Hsub Hsemi. unfold match_data_uri.
  assert (Hshape : "data:" +:+ (media +:+ "/" +:+ sub) +:+ ";base64," +:+ rest
                   = ("data:" +:+ media +:+ "/") +:+ (sub +:+ String ";" ("base64," +:+ rest))).
  { change (String ";" ("base64," +:+ rest)) with (";base64," +:+ rest).
    rewrite !AudioFacts.append_assoc. reflexivity. }
  rewrite Hshape, strip_prefix_app, (span_run cls sub ";" _ Hsub Hsemi).
  destruct (String.eqb sub EmptyString) eqn:He; [by apply String.eqb_eq in He|].
  change (String ";" ("base64," +:+ rest)) with (";base64," +:+ rest).
  by rewrite strip_prefix_app.
Qed.

(** A subtype with a character outside the class, which is not the [;]
    that ends it, is not matched. *)
Lemma match_data_uri_foreign (media : string) (cls : ascii -> bool) (a : string) (c : ascii)
    (rest : string) :
  all_chars cls a = true -> cls c = false -> c <> ";"%char ->
  match_data_uri media cls (("data:" +:+ media +:+ "/") +:+ a +:+ String c rest) = None.
Proof.
  intros Ha Hc Hsemi. unfold match_data_uri.
  rewrite strip_prefix_app, (span_run cls a c rest Ha Hc).
  destruct (String.eqb a EmptyString); [reflexivity|].
  cbn [strip_prefix]. destruct (Ascii.eqb ";" c) eqn:E; [|reflexivity].
  apply Ascii.eqb_eq in E. congruence.
Qed.

Lemma imagePart_written (m d : string) :
  is_image_mime m = true ->
  imagePart ("data:" +:+ m +:+ ";base64," +:+ d) = PartInline d m.
Proof.
  unfold is_image_mime. intros Hm.
  destruct (strip_prefix "image/" m) as [sub|] eqn:Hsub; [|discriminate].
  apply strip_prefix_sound in Hsub as ->.
  apply andb_true_iff in Hm as [Hne Hword].
  apply negb_true_iff, String.eqb_neq in Hne.
  unfold imagePart.
  change ("image/" +:+ sub) with ("image" +:+ "/" +:+ sub).
  rewrite (match_data_uri_written "image" is_word sub d Hne Hword eq_refl).
  reflexivity.
Qed.

(** X6.  The data URIs [generateImageFromText] builds from a response are
    read back by the same function, when they are passed as input images of
    a later call, into exactly the data and MIME type the response carried:
    for response parts whose MIME type is absent, empty or of the form
    [image/] followed by word characters, the inline parts sent for the
    returned images are the inline images of the response, in order, with
    [image/png] where the response named no type. *)
Theorem images_read_back (parts : list ResponsePart) :
  forallb plain_mime parts = true ->
  map imagePart (responseImages parts) = omap inlineImage parts.
Proof.
  induction parts as [|p parts IH]; [reflexivity|].
  cbn [forallb]. intros H. apply andb_true_iff in H as [Hp Hparts].
  change (omap inlineImage (p :: parts))
    with (match inlineImage p with
          | Some y => y :: omap inlineImage parts
          | None => omap inlineImage parts
          end).
  cbn [responseImages]. unfold inlineImage, plain_mime in *.
  destruct (part_inlineData p) as [d|]; [|by apply IH].
  destruct (truthy_str (inl_data d)) eqn:Hd; [|by apply IH].
  cbn [map]. rewrite (IH Hparts). f_equal.
  apply imagePart_written.
  destruct (inl_mimeType d) as [m|]; [|reflexivity].
  cbn [or_default]. destruct (String.eqb m EmptyString); [reflexivity|exact Hp].
Qed.

Lemma images_read_back_witness :
  map imagePart
    (responseImages
       [ {| part_inlineData := Some {| inl_data := Some "iVBORw0KGgo=";
                                       inl_mimeType := Some "image/jpeg" |} |};
         {| part_inlineData := None |};
         {| part_inlineData := Some {| inl_data := Some "AAAA"; inl_mimeType := None |} |} ])
  = [PartInline "iVBORw0KGgo=" "image/jpeg"; PartInline "AAAA" "image/png"].
Proof.
  apply (images_read_back
           [ {| part_inlineData := Some {| inl_data := Some "iVBORw0KGgo=";
                                           inl_mimeType := Some "image/jpeg" |} |};
             {| part_inlineData := None |};
             {| part_inlineData := Some {| inl_data := Some "AAAA";
                                           inl_mimeType := None |} |} ]).
  reflexivity.
Defined.

End DataUriFacts.

(** ** Image generation *)

Module ImageFacts.
Import Support GeminiService Tools.

Lemma or_default_nonempty (a : option string) (d : string) :
  d <> EmptyString -> or_default a d <> EmptyString.
Proof.
  intros Hd. unfold or_default. destruct a as [s|]; [|exact Hd].
  destruct (String.eqb s EmptyString) eqn:E; [exact Hd|].
  by apply String.eqb_neq in E.
Qed.

Lemma contentRequests_app (t1 t2 : Trace) :
  contentRequests (t1 ++ t2) = contentRequests t1 ++ contentRequests t2.
Proof.
  induction t1 as [|ev t1 IH]; [reflexivity|].
  destruct ev; cbn; by rewrite IH.
Qed.

Lemma startsWith_app (p s : string) : startsWith (p +:+ s) p = true.
Proof.
  unfold startsWith. induction p as [|a p IH]; [by destruct s|].
  change (String a p +:+ s) with (String a (p +:+ s)). cbn [String.prefix].
  by destruct (ascii_dec a a).
Qed.

Lemma responseImages_data_uri (parts : list ResponsePart) :
  Forall (fun s => is_data_uri s = true) (responseImages parts).
Proof.
  induction parts as [|p parts IH]; [constructor|].
  cbn [responseImages]. destruct (part_inlineData p) as [d|]; [|exact IH].
  destruct (truthy_str (inl_data d)); [|exact IH].
  constructor; [apply startsWith_app|exact IH].
Qed.

Section World.

Variable w : World.

(** The ways a call of [generateImageFromText] ends: before any request,
    on the missing key or in the SDK constructor; or after its one request,
    with images or with an [Error] holding a string. *)
Lemma generateImageFromText_cases (prompt model : string) (inputImages : list string)
    (options : ImageOptions) (t : Trace) :
  (exists e, generateImageFromText w prompt model inputImages options t = (Throws e, t)
             /\ (e = missingKeyError \/ sdk_new w (API_KEY w) = Some e))
  \/ (exists o,
        generateImageFromText w prompt model inputImages options t
        = (o, t ++ [EvGenerateContent {| apiKey := API_KEY w |}
                      (imageRequest prompt model inputImages options)])
        /\ ((exists img imgs, o = Returns (img :: imgs)
                              /\ Forall (fun s => is_data_uri s = true) (img :: imgs))
            \/ exists msg, o = Throws (mkError msg))).
Proof.
  unfold generateImageFromText, getClient, newGoogleGenAI.
  destruct (truthy_str (API_KEY w)); cbn [negb]; [|left; eexists; split; [reflexivity|by left]].
  destruct (sdk_new w (API_KEY w)) as [e|] eqn:Hnew;
    [left; eexists; split; [reflexivity|by right]|].
  right. unfold bind at 1, ret at 1. unfold try_catch, bind, perform.
  destruct (sdk_generateContent w t _ _) as [resp|e];
    [|eexists; split; [reflexivity|right; by eexists]].
  destruct (resp_parts resp) as [ps|];
    [|eexists; split; [reflexivity|right; by eexists]].
  pose proof (responseImages_data_uri ps) as Huri.
  destruct (responseImages ps) as [|img imgs];
    eexists; (split; [reflexivity|]); [right; by eexists|left; by eexists; eexists].
Qed.

(** X7.  [generateImageFromText] settles on every input.  When it
    returns, the list is never empty and every entry is a data URI.  When
    it throws, the error is the one the SDK constructor threw, or an
    [Error] object whose message is a string: whatever the remote call
    rejected with has been replaced. *)
Theorem generateImageFromText_result (prompt model : string) (inputImages : list string)
    (options : ImageOptions) (t : Trace) :
  match fst (generateImageFromText w prompt model inputImages options t) with
  | Returns imgs => imgs <> [] /\ Forall (fun s => is_data_uri s = true) imgs
  | Throws e => sdk_new w (API_KEY w) = Some e \/ exists msg, e = mkError msg
  | Diverges => False
  end.
Proof.
  destruct (generateImageFromText_cases prompt model inputImages options t)
    as [(e & -> & [->|He])|(o & -> & [(img & imgs & -> & Huri)|(msg & ->)])]; cbn [fst].
  - right. by eexists.
  - by left.
  - split; [discriminate|exact Huri].
  - right. by eexists.
Qed.

(** X8.  [options.count] is read and never used: whatever count is asked
    for, the call does what it does without one, and it sends at most one
    [generateContent] request, the one for its other arguments. *)
Theorem generateImageFromText_ignores_count (prompt model : string)
    (inputImages : list string) (aspect resolution : option string) (count : option Z)
    (t : Trace) :
  let options := {| io_aspectRatio := aspect; io_resolution := resolution;
                    io_count := count |} in
  let plain := {| io_aspectRatio := aspect; io_resolution := resolution;
                  io_count := None |} in
  generateImageFromText w prompt model inputImages options t
  = generateImageFromText w prompt model inputImages plain t
  /\ (contentRequests (snd (generateImageFromText w prompt model inputImages options t))
      = contentRequests t
      \/ contentRequests (snd (generateImageFromText w prompt model inputImages options t))
         = contentRequests t ++ [imageRequest prompt model inputImages plain]).
Proof.
  cbv zeta. split; [reflexivity|].
  destruct (generateImageFromText_cases prompt model inputImages
              {| io_aspectRatio := aspect; io_resolution := resolution; io_count := count |} t)
    as [(e & -> & _)|(o & -> & _)]; cbn [snd].
  - by left.
  - right. by rewrite contentRequests_app.
Qed.

(** X9.  [editImageWithText] never resolves with [undefined]: when it
    returns, the value is a data URI.  Its one request carries the image
    as the only inline part, followed by the prompt. *)
Theorem editImageWithText_result (imageBase64 prompt model : string) (t : Trace) :
  match fst (editImageWithText w imageBase64 prompt model t) with
  | Returns r => exists s, r = Some s /\ is_data_uri s = true
  | Throws e => sdk_new w (API_KEY w) = Some e \/ exists msg, e = mkError msg
  | Diverges => False
  end
  /\ (contentRequests (snd (editImageWithText w imageBase64 prompt model t))
      = contentRequests t
      \/ exists req,
           contentRequests (snd (editImageWithText w imageBase64 prompt model t))
           = contentRequests t ++ [req]
           /\ cr_parts req = [imagePart imageBase64; PartText prompt]).
Proof.
  unfold editImageWithText, bind.
  destruct (generateImageFromText_cases prompt model [imageBase64]
              {| io_aspectRatio := None; io_resolution := None; io_count := Some 1 |} t)
    as [(e & -> & [->|He])|(o & -> & [(img & imgs & -> & Huri)|(msg & ->)])];
    cbn [fst snd ret].
  - split; [right; by eexists|by left].
  - split; [by left|by left].
  - split.
    + exists img. split; [reflexivity|]. by inversion Huri.
    + right. eexists. rewrite contentRequests_app. split; reflexivity.
  - split; [right; by eexists|].
    right. eexists. rewrite contentRequests_app. split; reflexivity.
Qed.

End World.

End ImageFacts.

(** ** Text replies and speech *)

Module ReplyFacts.
Import Support GeminiService Tools ImageFacts.

Section World.

Variable w : World.

(** What [getClient] does, as a case split. *)
Lemma getClient_cases (t : Trace) :
  getClient w t = (Returns {| apiKey := API_KEY w |}, t)
  \/ exists e, getClient w t = (Throws e, t)
               /\ (e = missingKeyError \/ sdk_new w (API_KEY w) = Some e).
Proof.
  unfold getClient, newGoogleGenAI.
  destruct (truthy_str (API_KEY w)); cbn [negb]; [|right; eexists; split; [reflexivity|by left]].
  destruct (sdk_new w (API_KEY w)) as [e|]; [right; eexists; split; [reflexivity|by right]|].
  by left.
Qed.

(** X10.  The text entry points never hand back an empty reply:
    [sendChatMessage] and [analyzeVideo] put a fixed text in its place, and
    [orchestrateVideoPrompt] the user prompt, so that its result is empty
    only when the user prompt is. *)
Theorem replies_never_empty :
  (forall history newMessage options t s,
      fst (sendChatMessage w history newMessage options t) = Returns s -> s <> EmptyString)
  /\ (forall video prompt model t s,
        fst (analyzeVideo w video prompt model t) = Returns s -> s <> EmptyString)
  /\ (forall images userPrompt t s,
        fst (orchestrateVideoPrompt w images userPrompt t) = Returns s ->
        s = EmptyString -> userPrompt = EmptyString).
Proof.
  split; [|split].
  - intros history newMessage options t s. unfold sendChatMessage. unfold bind at 1.
    destruct (getClient_cases t) as [->|(e & -> & _)]; [|discriminate].
    unfold bind, perform. cbn [fst snd].
    destruct (sdk_sendMessage w t _ _) as [text|e]; [|discriminate].
    cbn. intros [= <-]. by apply or_default_nonempty.
  - intros video prompt model t s. unfold analyzeVideo. unfold bind at 1.
    destruct (getClient_cases t) as [->|(e & -> & _)]; [|discriminate].
    destruct (startsWith video "data:"); [|discriminate].
    unfold bind, perform. cbn [fst snd].
    destruct (sdk_generateContent w t _ _) as [resp|e]; [|discriminate].
    cbn. intros [= <-]. by apply or_default_nonempty.
  - intros images userPrompt t s. unfold orchestrateVideoPrompt. unfold bind at 1.
    destruct (getClient_cases t) as [->|(e & -> & _)]; [|discriminate].
    unfold bind, perform. cbn [fst snd].
    destruct (sdk_generateContent w t _ _) as [resp|e]; [|discriminate].
    cbn. intros [= <-]. unfold or_default.
    destruct (resp_text resp) as [r|]; [|done].
    destruct (String.eqb r EmptyString) eqn:E; [done|].
    intros ->. discriminate.
Qed.

(** X11.  [analyzeVideo] takes data URIs only: on any other argument, an
    [https] address included, it throws without sending a request.  The
    key is checked first, so without a key the error is the missing-key one. *)
Theorem analyzeVideo_rejects_urls (video prompt model : string) (t : Trace) :
  startsWith video "data:" = false ->
  exists e,
    analyzeVideo w video prompt model t = (Throws e, t)
    /\ (e = missingKeyError \/ sdk_new w (API_KEY w) = Some e
        \/ e = mkError "Direct URL analysis not implemented.").
Proof.
  intros Hdata. unfold analyzeVideo. unfold bind.
  destruct (getClient_cases t) as [->|(e & -> & [->|He])].
  - rewrite Hdata. eexists. split; [reflexivity|]. right. by right.
  - eexists. split; [reflexivity|]. by left.
  - eexists. split; [reflexivity|]. right. by left.
Qed.

(** X12.  [generateAudio] settles, and what it hands back is the audio of
    the response.  When it returns, the request for speech (the prompt as
    the only part, the voice [Kore] for the persona ["Deep Narrative"] and
    [Puck] otherwise) was answered; the first part of the answer carried
    base64 data that decodes to some bytes; and the value is an
    [audio/wav] data URI whose payload decodes to the 44-byte header for
    that many bytes at the sample rate 24000, followed by those very bytes.
    [transcribeAudio] would send that payload under the type [audio/wav].
    When it throws, the error is the missing-key error, the error of the
    SDK constructor, the rejection of that request as it came,
    ["Audio generation failed"] for an answer whose first part has no
    audio data, or the decoding error of [atob] for data that is not
    base64.  The reference audio is never looked at. *)
Theorem generateAudio_result (prompt : string) (referenceAudio personaLabel : option string)
    (t : Trace) :
  let ai := {| apiKey := API_KEY w |} in
  let req := audioRequest prompt personaLabel in
  generateAudio w prompt referenceAudio personaLabel t
  = generateAudio w prompt None personaLabel t
  /\ match generateAudio w prompt referenceAudio personaLabel t with
     | (Returns uri, t') =>
         exists response data pcm payload,
           sdk_generateContent w t ai req = Resolved response
           /\ t' = t ++ [EvGenerateContent ai req]
           /\ responseAudio response = Some data
           /\ data <> EmptyString
           /\ base64ToUint8Array data = Returns pcm
           /\ uri = "data:audio/wav;base64," +:+ payload
           /\ base64ToUint8Array payload
              = Returns (canonicalHeader (length pcm) 24000 ++ pcm)
           /\ audioPart uri = PartInline payload "audio/wav"
     | (Throws e, t') =>
         (t' = t /\ (e = missingKeyError \/ sdk_new w (API_KEY w) = Some e))
         \/ (t' = t ++ [EvGenerateContent ai req]
             /\ (sdk_generateContent w t ai req = Rejected e
                 \/ (exists response,
                       sdk_generateContent w t ai req = Resolved response
                       /\ truthy_str (responseAudio response) = false
                       /\ e = mkError "Audio generation failed")
                 \/ (exists response data,
                       sdk_generateContent w t ai req = Resolved response
                       /\ responseAudio response = Some data
                       /\ base64ToUint8Array data = Throws InvalidCharacterError
                       /\ e = InvalidCharacterError)))
     | (Diverges, _) => False
     end.
Proof.
  cbv zeta. split; [reflexivity|].
  unfold generateAudio. unfold bind at 1.
  destruct (getClient_cases t) as [->|(e & -> & He)]; [|by left].
  unfold bind, perform. cbn [fst snd].
  change {| cr_model := "gemini-2.5-flash-preview-tts"; cr_parts := [PartText prompt];
            cr_config := _ |} with (audioRequest prompt personaLabel).
  destruct (sdk_generateContent w t {| apiKey := API_KEY w |}
              (audioRequest prompt personaLabel)) as [resp|e] eqn:Hresp;
    [|right; split; [reflexivity|by left]].
  change (match resp_parts resp with
          | Some (p :: _) =>
              match part_inlineData p with
              | Some d => inl_data d
              | None => None
              end
          | _ => None
          end) with (responseAudio resp).
  destruct (truthy_str (responseAudio resp)) eqn:Haudio; cbn [negb];
    [|right; split; [reflexivity|]; right; left; by exists resp].
  destruct (responseAudio resp) as [data|] eqn:Hdata; [|discriminate].
  assert (Hne : data <> EmptyString).
  { cbn in Haudio. by apply String.eqb_neq, negb_true_iff. }
  unfold lift, pcmToWav. cbn [interp].
  rewrite AudioFacts.combineBase64Chunks_wavFile.
  destruct (AudioMore.wavFile_cases [data] 24000)
    as [(decoded & Hall & Hbytes & ->)|(before & bad & after & Hsplit & Hbefore & Hbad & ->)].
  - cbn [obind].
    inversion Hall as [|? pcm ? rest Hpcm Hrest]; subst. inversion Hrest; subst.
    cbn [concat] in *. rewrite app_nil_r in *.
    exists resp, data, pcm. eexists.
    split; [reflexivity|]. split; [reflexivity|]. split; [exact Hdata|].
    split; [exact Hne|]. split; [exact Hpcm|]. split; [reflexivity|].
    split; [by apply AudioMore.base64ToUint8Array_btoa|].
    unfold audioPart.
    change ("data:audio/wav;base64," +:+ ?p)
      with ("data:" +:+ ("audio" +:+ "/" +:+ "wav") +:+ ";base64," +:+ p).
    by rewrite DataUriFacts.match_data_uri_written.
  - cbn [obind]. right. split; [reflexivity|]. right. right.
    exists resp, data. split; [reflexivity|]. split; [exact Hdata|].
    split; [|reflexivity].
    destruct before as [|c before].
    + cbn in Hsplit. by injection Hsplit as ->.
    + destruct before; discriminate.
Qed.

End World.

(** Two bytes of audio, 1 and 2, become the 46-byte file of the header
    and those two bytes. *)
Lemma generateAudio_result_witness :
  generateAudio Studio.speakingWorld "Hello." None (Some "Deep Narrative") []
  = (Returns "data:audio/wav;base64,UklGRiYAAABXQVZFZm10IBAAAAABAAEAwF0AAIC7AAACABAAZGF0YQIAAAABAg==",
     [EvGenerateContent {| apiKey := Some "KEY" |}
        (Support.audioRequest "Hello." (Some "Deep Narrative"))])
  /\ base64ToUint8Array "AQI=" = Returns [1; 2]
  /\ base64ToUint8Array "UklGRiYAAABXQVZFZm10IBAAAAABAAEAwF0AAIC7AAACABAAZGF0YQIAAAABAg=="
     = Returns (canonicalHeader 2 24000 ++ [1; 2]).
Proof.
  destruct (generateAudio_result Studio.speakingWorld "Hello." None (Some "Deep Narrative") [])
    as [_ H].
  split; [reflexivity|]. split; [reflexivity|].
  replace (generateAudio Studio.speakingWorld "Hello." None (Some "Deep Narrative") [])
    with (@Returns string "data:audio/wav;base64,UklGRiYAAABXQVZFZm10IBAAAAABAAEAwF0AAIC7AAACABAAZGF0YQIAAAABAg==",
          [EvGenerateContent {| apiKey := Some "KEY" |}
             (Support.audioRequest "Hello." (Some "Deep Narrative"))]) in H
    by reflexivity.
  destruct H as (response & data & pcm & payload & Hresp & _ & Hdata & _ & Hpcm & Huri & Hpayload & _).
  injection Hresp as <-. injection Hdata as <-.
  assert (pcm = [1; 2]) as -> by (by injection Hpcm).
  pose proof (DataUriFacts.strip_prefix_app "data:audio/wav;base64," payload) as Hs.
  rewrite <- Huri in Hs. vm_compute in Hs. injection Hs as <-. exact Hpayload.
Defined.

Lemma replies_never_empty_witness :
  exists s,
    fst (sendChatMessage Studio.silentWorld [] "hello" None []) = Returns s
    /\ s <> EmptyString.
Proof.
  eexists. split; [reflexivity|].
  apply (proj1 (replies_never_empty Studio.silentWorld) [] "hello" None [] _ eq_refl).
Defined.

Lemma analyzeVideo_rejects_urls_witness :
  exists e,
    analyzeVideo Scenarios.refusingWorld "https://example.com/clip.mp4"
      "Analyze the visual style briefly." "gemini-3-flash-preview" []
    = (Throws e, [])
    /\ (e = missingKeyError \/ sdk_new Scenarios.refusingWorld (API_KEY Scenarios.refusingWorld) = Some e
        \/ e = mkError "Direct URL analysis not implemented.").
Proof.
  apply (analyzeVideo_rejects_urls Scenarios.refusingWorld "https://example.com/clip.mp4").
  reflexivity.
Defined.

End ReplyFacts.

(** ** Browser utilities *)

Module DomFacts.
Import Support GeminiService DataUriFacts.

Lemma startsWith_inv (s p : string) : startsWith s p = true -> exists r, s = p +:+ r.
Proof.
  unfold startsWith. revert s. induction p as [|a p IH]; intros s H.
  - exists s. reflexivity.
  - destruct s as [|b s]; [discriminate|]. cbn [String.prefix] in H.
    destruct (ascii_dec a b) as [<-|]; [|discriminate].
    destruct (IH s H) as [r ->]. exists r. reflexivity.
Qed.

Section World.

Variable w : World.

(** X13.  [urlToBase64] around a failing browser: when the download
    fails, the result is the empty string, not an error, and nothing is
    read; when the download succeeds and the file reader fails, that error
    is thrown: the reader's promise is returned without being awaited, so
    the [catch] does not see it. *)
Theorem urlToBase64_failures (url : string) (t : Trace) :
  (forall e, dom_fetchBlob w t url = Rejected e ->
             urlToBase64 w url t = (Returns EmptyString, t ++ [EvFetch url]))
  /\ (forall blob e,
        dom_fetchBlob w t url = Resolved blob ->
        dom_readAsDataURL w (t ++ [EvFetch url]) blob = Rejected e ->
        urlToBase64 w url t = (Throws e, t ++ [EvFetch url; EvReadAsDataURL blob]))
  /\ (forall blob uri,
        dom_fetchBlob w t url = Resolved blob ->
        dom_readAsDataURL w (t ++ [EvFetch url]) blob = Resolved uri ->
        urlToBase64 w url t = (Returns uri, t ++ [EvFetch url; EvReadAsDataURL blob])).
Proof.
  unfold urlToBase64, try_catch, bind, perform, ret.
  split; [|split].
  - intros e ->. reflexivity.
  - intros blob e -> Hread. cbn [fst snd]. rewrite Hread, <- app_assoc. reflexivity.
  - intros blob uri -> Hread. cbn [fst snd]. rewrite Hread, <- app_assoc. reflexivity.
Qed.

(** A data URI of one of the three types goes through as it is. *)
Lemma convertImageToCompatibleFormat_through (sub payload : string) (t : Trace) :
  In sub ["png"; "jpeg"; "jpg"] ->
  convertImageToCompatibleFormat w ("data:image/" +:+ sub +:+ ";base64," +:+ payload) t
  = (Returns {| ci_data := payload; ci_mimeType := "image/" +:+ sub;
                fullDataUri := "data:image/" +:+ sub +:+ ";base64," +:+ payload |}, t).
Proof.
  intros Hin. unfold convertImageToCompatibleFormat.
  assert (Hpass : startsWith ("data:image/" +:+ sub +:+ ";base64," +:+ payload)
                    "data:image/png;base64,"
                  || startsWith ("data:image/" +:+ sub +:+ ";base64," +:+ payload)
                       "data:image/jpeg;base64,"
                  || startsWith ("data:image/" +:+ sub +:+ ";base64," +:+ payload)
                       "data:image/jpg;base64," = true).
  { cbn [In] in Hin. destruct Hin as [<-|[<-|[<-|[]]]].
    - change ("data:image/" +:+ "png" +:+ ";base64," +:+ payload)
        with ("data:image/png;base64," +:+ payload).
      by rewrite (ImageFacts.startsWith_app "data:image/png;base64," payload).
    - change ("data:image/" +:+ "jpeg" +:+ ";base64," +:+ payload)
        with ("data:image/jpeg;base64," +:+ payload).
      rewrite (ImageFacts.startsWith_app "data:image/jpeg;base64," payload).
      by rewrite orb_true_r.
    - change ("data:image/" +:+ "jpg" +:+ ";base64," +:+ payload)
        with ("data:image/jpg;base64," +:+ payload).
      rewrite (ImageFacts.startsWith_app "data:image/jpg;base64," payload).
      by rewrite orb_true_r. }
  rewrite Hpass. cbn [In] in Hin. destruct Hin as [<-|[<-|[<-|[]]]]; reflexivity.
Qed.

Lemma passes_through_inv (base64Str : string) :
  passes_through base64Str = true ->
  exists sub payload,
    In sub ["png"; "jpeg"; "jpg"]
    /\ base64Str = "data:image/" +:+ sub +:+ ";base64," +:+ payload.
Proof.
  unfold passes_through. intros H.
  apply orb_true_iff in H as [H|H]; [apply orb_true_iff in H as [H|H]|];
    apply startsWith_inv in H as [payload ->].
  - exists "png", payload. split; [cbn; tauto|reflexivity].
  - exists "jpeg", payload. split; [cbn; tauto|reflexivity].
  - exists "jpg", payload. split; [cbn; tauto|reflexivity].
Qed.

(** Anything else is loaded and drawn again by the browser. *)
Lemma convertImageToCompatibleFormat_redrawn (base64Str : string) (t : Trace) :
  passes_through base64Str = false ->
  convertImageToCompatibleFormat w base64Str t
  = match dom_imageToPng w t base64Str with
    | Resolved png =>
        (Returns {| ci_data := match strip_prefix "data:image/png;base64," png with
                               | Some rest => rest
                               | None => png
                               end;
                    ci_mimeType := "image/png";
                    fullDataUri := png |}, t ++ [EvLoadImage base64Str])
    | Rejected e => (Throws e, t ++ [EvLoadImage base64Str])
    end.
Proof.
  unfold passes_through, convertImageToCompatibleFormat. intros ->.
  unfold bind, perform, ret. by destruct (dom_imageToPng w t base64Str).
Qed.

(** X14.  [convertImageToCompatibleFormat] hands back a PNG or a JPEG,
    whatever it is given.  A data URI of type [image/png], [image/jpeg] or
    [image/jpg] goes through untouched, without any work in the browser:
    the call returns at once, the type and the data being the two pieces of
    the argument and [fullDataUri] the argument itself.  Anything else, and
    nothing else, is loaded and redrawn: the result is what the canvas
    gives, of type [image/png], and the call fails when the browser does. *)
Theorem convertImageToCompatibleFormat_result (base64Str : string) (t : Trace) :
  (forall sub payload,
      In sub ["png"; "jpeg"; "jpg"] ->
      base64Str = "data:image/" +:+ sub +:+ ";base64," +:+ payload ->
      convertImageToCompatibleFormat w base64Str t
      = (Returns {| ci_data := payload; ci_mimeType := "image/" +:+ sub;
                    fullDataUri := base64Str |}, t))
  /\ (passes_through base64Str = true ->
      exists sub payload,
        In sub ["png"; "jpeg"; "jpg"]
        /\ base64Str = "data:image/" +:+ sub +:+ ";base64," +:+ payload)
  /\ (passes_through base64Str = false ->
      convertImageToCompatibleFormat w base64Str t
      = match dom_imageToPng w t base64Str with
        | Resolved png =>
            (Returns {| ci_data := match strip_prefix "data:image/png;base64," png with
                                   | Some rest => rest
                                   | None => png
                                   end;
                        ci_mimeType := "image/png";
                        fullDataUri := png |}, t ++ [EvLoadImage base64Str])
        | Rejected e => (Throws e, t ++ [EvLoadImage base64Str])
        end)
  /\ match convertImageToCompatibleFormat w base64Str t with
     | (Returns c, t') =>
         In (ci_mimeType c) compatible_types
         /\ ((t' = t /\ fullDataUri c = base64Str
              /\ base64Str = "data:" +:+ ci_mimeType c +:+ ";base64," +:+ ci_data c)
             \/ (t' = t ++ [EvLoadImage base64Str]
                 /\ ci_mimeType c = "image/png"
                 /\ dom_imageToPng w t base64Str = Resolved (fullDataUri c)))
     | (Throws e, t') =>
         t' = t ++ [EvLoadImage base64Str] /\ dom_imageToPng w t base64Str = Rejected e
     | (Diverges, _) => False
     end.
Proof.
  split; [|split; [apply passes_through_inv|split; [apply convertImageToCompatibleFormat_redrawn|]]].
  - intros sub payload Hin ->. by apply convertImageToCompatibleFormat_through.
  - destruct (passes_through base64Str) eqn:Hpass.
    + destruct (passes_through_inv base64Str Hpass) as (sub & payload & Hin & ->).
      rewrite (convertImageToCompatibleFormat_through sub payload t Hin).
      cbn [ci_mimeType ci_data fullDataUri]. split.
      * cbn in Hin. destruct Hin as [<-|[<-|[<-|[]]]]; cbn; tauto.
      * left. split; [reflexivity|]. split; [reflexivity|].
        cbn in Hin. destruct Hin as [<-|[<-|[<-|[]]]]; reflexivity.
    + rewrite (convertImageToCompatibleFormat_redrawn base64Str t Hpass).
      destruct (dom_imageToPng w t base64Str) as [png|e]; [|done].
      cbn [ci_mimeType fullDataUri]. split; [cbn; tauto|right]. done.
Qed.

End World.

(** A JPEG goes through in a browser that cannot draw; a WebP does not. *)
Lemma convertImageToCompatibleFormat_result_witness :
  convertImageToCompatibleFormat Scenarios.refusingWorld "data:image/jpeg;base64,/9j/4AAQSkZJRg==" []
  = (Returns {| ci_data := "/9j/4AAQSkZJRg=="; ci_mimeType := "image/jpeg";
                fullDataUri := "data:image/jpeg;base64,/9j/4AAQSkZJRg==" |}, [])
  /\ convertImageToCompatibleFormat Scenarios.refusingWorld Studio.webp []
     = (Throws (mkError "Image conversion failed for Veo compatibility"),
        [EvLoadImage Studio.webp]).
Proof.
  split.
  - apply (convertImageToCompatibleFormat_result Scenarios.refusingWorld
             "data:image/jpeg;base64,/9j/4AAQSkZJRg==" []);
      [cbn; tauto|reflexivity].
  - destruct (convertImageToCompatibleFormat_result Scenarios.refusingWorld Studio.webp [])
      as (_ & _ & H & _).
    rewrite H; reflexivity.
Defined.

Lemma urlToBase64_failures_witness :
  urlToBase64 Scenarios.refusingWorld "https://videos.example/1" []
  = (Returns EmptyString, [EvFetch "https://videos.example/1"])
  /\ urlToBase64 Studio.obligingWorld "https://videos.example/1" []
     = (Returns Studio.clipUri,
        [EvFetch "https://videos.example/1";
         EvReadAsDataURL "blob:https://videos.example/1"]).
Proof.
  split.
  - apply (urlToBase64_failures Scenarios.refusingWorld "https://videos.example/1" [])
      with (e := mkError "Failed to fetch").
    reflexivity.
  - apply (urlToBase64_failures Studio.obligingWorld "https://videos.example/1" [])
      with (blob := "blob:https://videos.example/1"); reflexivity.
Defined.

End DomFacts.

(** ** More on video generation *)

Module VideoMore.
Import Support GeminiService OutcomeLogic VideoFacts ImageFacts.

Section World.

Variable w : World.

Lemma convertImageToCompatibleFormat_settled (s : string) (t : Trace) :
  fst (convertImageToCompatibleFormat w s t) <> Diverges.
Proof.
  unfold convertImageToCompatibleFormat.
  destruct (_ || _).
  - destruct (match_data_uri _ _ _) as [[m r]|]; discriminate.
  - unfold bind, perform. cbn [fst snd].
    destruct (dom_imageToPng w t s); discriminate.
Qed.

Lemma head_last_some {A} (l : list A) :
  (2 <= length l)%nat -> exists a b, head l = Some a /\ last l = Some b.
Proof.
  destruct l as [|a l]; [cbn; lia|]. intros _. exists a.
  destruct (last (a :: l)) as [b|] eqn:Hlast; [by exists b|].
  apply last_None in Hlast. discriminate.
Qed.

Ltac standard img t :=
  split; [|done];
  destruct (truthy_str img) eqn:Himg;
  [ unfold try_catch, bind;
    let Hs := fresh "Hs" in
    pose proof (convertImageToCompatibleFormat_settled (interp img) t) as Hs;
    destruct (convertImageToCompatibleFormat w (interp img) t) as [[c|e|] t1]; cbn in *;
    [ | |done]
  | cbn ];
  repeat split; try done; try (intros [x Hx]; discriminate).

(** X15.  The request [generateVideo] prepares.  The prompt is always the
    user prompt followed by the quality suffix, and one video is asked for
    per request.  A last frame is set exactly in the first-last-frame
    branch (mode [FIRST_LAST_FRAME] with at least two reference images),
    where a start image is set too and the single input image is not looked
    at.  Outside that branch the preparation never fails: an input image
    that cannot be converted is left out. *)
Theorem prepareRequest_result (prompt model : string) (options : VideoOptions)
    (inputImageBase64 : option string) (videoInput : JsVal)
    (referenceImages : option (list string)) (t : Trace) :
  let run := prepareRequest w prompt model options inputImageBase64 videoInput
               referenceImages t in
  match fst run with
  | Returns req =>
      vr_model req = model
      /\ vr_prompt req = prompt +:+ qualitySuffix
      /\ numberOfVideos (vr_config req) = 1
      /\ (is_Some (lastFrame (vr_config req)) <-> firstLastFrames options referenceImages = true)
      /\ (firstLastFrames options referenceImages = true -> is_Some (vr_image req))
      /\ (truthy_str inputImageBase64 = false ->
          firstLastFrames options referenceImages = false -> vr_image req = None)
  | Throws e => firstLastFrames options referenceImages = true
  | Diverges => False
  end
  /\ (firstLastFrames options referenceImages = true ->
      run = prepareRequest w prompt model options None videoInput referenceImages t).
Proof.
  cbv zeta. unfold prepareRequest, firstLastFrames.
  destruct (vo_generationMode options) as [mode|]; [|standard inputImageBase64 t].
  destruct referenceImages as [refs|]; [|standard inputImageBase64 t].
  destruct (String.eqb mode "FIRST_LAST_FRAME" && (2 <=? length refs)%nat) eqn:Hflf;
    [|standard inputImageBase64 t].
  apply andb_true_iff in Hflf as [_ Hlen]. apply Nat.leb_le in Hlen.
  destruct (head_last_some refs Hlen) as (first & final & -> & ->).
  split; [|reflexivity].
  unfold bind.
  pose proof (convertImageToCompatibleFormat_settled first t) as Hs1.
  destruct (convertImageToCompatibleFormat w first t) as [[c1|e1|] t1];
    cbn [fst] in *; [| done..].
  pose proof (convertImageToCompatibleFormat_settled final t1) as Hs2.
  destruct (convertImageToCompatibleFormat w final t1) as [[c2|e2|] t2];
    cbn [fst] in *; [| done..].
  cbn. repeat split; eauto; discriminate.
Qed.

Lemma allSettled_not_thrown {A} (ops : list (IO A)) (t : Trace) e t' :
  allSettled ops t <> (Throws e, t').
Proof.
  revert t. induction ops as [|op ops IH]; intros t; [discriminate|].
  cbn [allSettled]. destruct (op t) as [[a|e0|] t1]; [| |discriminate];
    unfold bind, ret; specialize (IH t1);
    destruct (allSettled ops t1) as [[rs|e1|] t2]; try discriminate; congruence.
Qed.

Lemma usableVideos_usable (results : list (Settled VideoOp)) :
  Forall (fun vid => truthy_str (vid_uri vid) = true) (usableVideos results)
  /\ (length (usableVideos results) <= length results)%nat.
Proof.
  induction results as [|r results [IHu IHl]]; [split; [constructor|reflexivity]|].
  change (usableVideos (r :: results))
    with (match usableVideo r with
          | Some y => y :: usableVideos results
          | None => usableVideos results
          end).
  destruct (usableVideo r) as [vid|] eqn:Hr; [|split; [exact IHu|cbn; lia]].
  split; [|cbn; lia]. constructor; [|exact IHu].
  destruct r as [op|e]; [|discriminate]. cbn in Hr.
  destruct (op_video op) as [v|]; [|discriminate].
  destruct (truthy_str (vid_uri v)) eqn:Hv; [|discriminate]. by injection Hr as <-.
Qed.

(** The [catch] block of [generateVideo]: one still image, or the wrapped
    message of the cause. *)
Lemma fallbackToImage_cases (prompt : string) (options : VideoOptions) (cause : JsVal)
    (t : Trace) :
  (exists img,
      fst (fallbackToImage w prompt options cause t)
      = Returns {| uri := Some img; isFallbackImage := Some true;
                   videoMetadata := None; uris := None |}
      /\ is_data_uri img = true)
  \/ fst (fallbackToImage w prompt options cause t)
     = Throws (mkError ("Video generation failed: " +:+ to_string (getErrorMessage w cause))).
Proof.
  unfold fallbackToImage, try_catch, bind.
  destruct (generateImageFromText_cases w (fallbackPrompt prompt) "gemini-2.5-flash-image" []
              {| io_aspectRatio := vo_aspectRatio options; io_resolution := None;
                 io_count := None |} t)
    as [(e & -> & _)|(o & -> & [(img & imgs & -> & Huri)|(msg & ->)])]; cbn.
  - by right.
  - left. exists img. split; [reflexivity|]. by inversion Huri.
  - by right.
Qed.

(** X16.  What [generateVideo] hands back.  A result is of one of two
    kinds.  Videos: [isFallbackImage] is [false], [uris] lists the usable
    videos in order, each with the key appended, never more than were asked
    for and never none; [uri] is the first of them and [videoMetadata] its
    video.  Still image: [isFallbackImage] is [true], [uri] is a data URI,
    and there are no [uris] and no metadata.  In both, [uri] is defined.
    An error is the one of the SDK constructor, the one of the preparation
    of the request, or an [Error] whose message starts with
    ["Video generation failed: "]. *)
Theorem generateVideo_result (fuel : nat) (prompt model : string) (options : VideoOptions)
    (inputImageBase64 : option string) (videoInput : JsVal)
    (referenceImages : option (list string)) (t : Trace) :
  match fst (generateVideo w fuel prompt model options inputImageBase64 videoInput
               referenceImages t) with
  | Returns r =>
      (exists vid vids,
          r = {| uri := Some (keyedUri w vid);
                 uris := Some (map (keyedUri w) (vid :: vids));
                 videoMetadata := Some vid;
                 isFallbackImage := Some false |}
          /\ Forall (fun v => truthy_str (vid_uri v) = true) (vid :: vids)
          /\ (length (vid :: vids) <= fanOutCount options)%nat)
      \/ (exists img,
            r = {| uri := Some img; isFallbackImage := Some true;
                   videoMetadata := None; uris := None |}
            /\ is_data_uri img = true)
  | Throws e =>
      sdk_new w (API_KEY w) = Some e
      \/ fst (prepareRequest w prompt model options inputImageBase64 videoInput
                referenceImages t) = Throws e
      \/ exists msg, e = mkError ("Video generation failed: " +:+ msg)
  | Diverges => True
  end.
Proof.
  unfold generateVideo, newGoogleGenAI.
  destruct (sdk_new w (API_KEY w)) as [e|] eqn:Hnew; [by left|].
  unfold bind at 1, ret at 1. unfold bind at 1.
  destruct (prepareRequest w prompt model options inputImageBase64 videoInput
              referenceImages t) as [[req|e|] t1] eqn:Hprep; cbn [fst];
    [|right; by left|done].
  unfold try_catch, bind.
  destruct (allSettled _ t1) as [[results|e|] t2] eqn:Hall; [| |done].
  - destruct (usableVideos_usable results) as [Husable Hlen].
    rewrite (allSettled_length _ _ _ _ Hall), length_replicate in Hlen.
    destruct (usableVideos results) as [|vid vids] eqn:Hus.
    + rewrite (joinResults_none w results t2 Hus).
      destruct (fallbackToImage_cases prompt options (failureCause results) t2)
        as [(img & -> & Himg)| ->].
      * right. by exists img.
      * right. right. by eexists.
    + rewrite (joinResults_some w results vid vids t2 Hus). cbn [fst].
      left. exists vid, vids. done.
  - by destruct (allSettled_not_thrown _ _ _ _ Hall).
Qed.

(** X18.  An image that cannot be converted.  In the first-last-frame
    branch the failure on the start image ends the call: the error is
    thrown as it is, no video is submitted and no still image is asked for
    instead.  On the single input image the same failure is swallowed: the
    video is submitted without an image. *)
Theorem generateVideo_conversion_failure (fuel : nat) (prompt model : string)
    (options : VideoOptions) (videoInput : JsVal) (src : string) (e : JsVal)
    (t t1 : Trace) :
  sdk_new w (API_KEY w) = None ->
  convertImageToCompatibleFormat w src t = (Throws e, t1) ->
  src <> EmptyString ->
  (forall refs img,
      firstLastFrames options (Some refs) = true -> head refs = Some src ->
      generateVideo w fuel prompt model options img videoInput (Some refs) t = (Throws e, t1))
  /\ (forall refs,
        firstLastFrames options refs = false -> (0 < fanOutCount options)%nat ->
        exists req,
          vr_image req = None
          /\ (t1 ++ [EvGenerateVideos {| apiKey := API_KEY w |} req])
               `prefix_of`
               snd (generateVideo w fuel prompt model options (Some src) videoInput refs t)).
Proof.
  intros Hnew Hconv Hsrc. split.
  - intros refs img Hflf Hhead.
    unfold generateVideo, newGoogleGenAI. rewrite Hnew.
    unfold bind at 1, ret at 1. unfold bind at 1.
    unfold prepareRequest. unfold firstLastFrames in Hflf.
    destruct (vo_generationMode options) as [mode|]; [|discriminate].
    rewrite Hflf, Hhead.
    pose proof Hflf as Hlen. apply andb_true_iff in Hlen as [_ Hlen].
    apply Nat.leb_le in Hlen.
    destruct (head_last_some refs Hlen) as (a & b & _ & ->).
    unfold bind at 1. rewrite Hconv. reflexivity.
  - intros refs Hflf Hcount.
    assert (Htruthy : truthy_str (Some src) = true).
    { cbn. apply negb_true_iff. by apply String.eqb_neq. }
    assert (Hprep : exists req,
               vr_image req = None
               /\ prepareRequest w prompt model options (Some src) videoInput refs t
                  = (Returns req, t1)).
    { unfold prepareRequest. cbv zeta. rewrite Htruthy.
      unfold firstLastFrames in Hflf.
      destruct (vo_generationMode options) as [mode|];
        [destruct refs as [refs|]; [rewrite Hflf|]|];
        unfold try_catch, bind; cbn [interp]; rewrite Hconv;
        (eexists; split; [|reflexivity]); reflexivity. }
    destruct Hprep as (req & Himg & Hprep). exists req. split; [exact Himg|].
    by apply TraceFacts.generateVideo_submits_unchecked.
Qed.

(** X19.  A poll refused as overloaded, for a single video (the order of
    events is that of the program when one operation runs).  The wrapper
    retries the whole operation, not the poll: after the wait of 2000 ms
    the video request is submitted a second time, and the operation the
    service had accepted is left behind. *)
Theorem generateVideo_resubmits_after_poll (fuel : nat) (prompt model : string)
    (options : VideoOptions) (inputImageBase64 : option string) (videoInput : JsVal)
    (referenceImages : option (list string)) (t0 t1 : Trace) (req : VideoRequest)
    (op : VideoOp) (e : JsVal) :
  let ai := {| apiKey := API_KEY w |} in
  sdk_new w (API_KEY w) = None ->
  prepareRequest w prompt model options inputImageBase64 videoInput referenceImages t0
  = (Returns req, t1) ->
  fanOutCount options = 1%nat ->
  sdk_generateVideos w t1 ai req = Resolved op ->
  op_done op = false ->
  sdk_getVideosOperation w (t1 ++ [EvGenerateVideos ai req; EvWait 10000]) ai op
  = Rejected e ->
  isOverloaded w e = Returns true ->
  (t1 ++ [EvGenerateVideos ai req; EvWait 10000; EvGetVideosOperation ai op;
          EvWait 2000; EvGenerateVideos ai req])
    `prefix_of`
    snd (generateVideo w (S fuel) prompt model options inputImageBase64 videoInput
           referenceImages t0).
Proof.
  intros ai Hnew Hprep Hcount Hsubmit Hpending Hpoll Hover.
  pose proof (TraceFacts.videoOperation_extends w (S fuel) req) as Hop.
  assert (Hfirst : forall t, (t ++ [EvGenerateVideos ai req])
                               `prefix_of` snd (videoOperation w (S fuel) req t)).
  { intros t. unfold videoOperation, newGoogleGenAI. rewrite Hnew.
    unfold bind at 1, ret at 1. unfold bind at 1, perform at 1.
    destruct (sdk_generateVideos w t _ req) as [op'|e']; [|reflexivity].
    apply TraceFacts.pollUntilDone_extends. }
  assert (Hfail : videoOperation w (S fuel) req t1
                  = (Throws e, t1 ++ [EvGenerateVideos ai req; EvWait 10000;
                                      EvGetVideosOperation ai op])).
  { unfold videoOperation, newGoogleGenAI. rewrite Hnew.
    unfold bind at 1, ret at 1. unfold bind at 1, perform at 1.
    fold ai. rewrite Hsubmit. cbn [pollUntilDone]. rewrite Hpending.
    unfold bind, wait, perform. cbn [fst snd].
    rewrite <- !app_assoc. cbn [app]. rewrite Hpoll. reflexivity. }
  assert (Hrun : (t1 ++ [EvGenerateVideos ai req; EvWait 10000; EvGetVideosOperation ai op;
                         EvWait 2000; EvGenerateVideos ai req])
                   `prefix_of`
                   snd (retryWithBackoff_default w (videoOperation w (S fuel) req) t1)).
  { unfold retryWithBackoff_default, retryWithBackoff. change (Z.to_nat 3) with 3%nat.
    rewrite (RetryFacts.retry_loop_transient w _ _ _ _ _ _ _ e _ Hfail Hover) by lia.
    apply TraceFacts.retry_loop_prefix; [exact Hop|].
    etrans; [|apply Hfirst]. rewrite <- !app_assoc. reflexivity. }
  unfold generateVideo, newGoogleGenAI. rewrite Hnew.
  unfold bind at 1, ret at 1. unfold bind at 1. rewrite Hprep. rewrite Hcount.
  apply TraceFacts.prefix_try_catch; [|intros e'; apply TraceFacts.fallbackToImage_extends].
  apply TraceFacts.prefix_bind; [|intros rs; apply TraceFacts.joinResults_extends].
  cbn [replicate allSettled].
  destruct (retryWithBackoff_default w (videoOperation w (S fuel) req) t1) as [[a|e'|] t2];
    cbn [snd] in Hrun; [| |exact Hrun]; exact Hrun.
Qed.

End World.

Lemma generateVideo_conversion_failure_witness :
  generateVideo Scenarios.refusingWorld 5 "a cat" "veo-3.1-fast-generate-preview"
    Studio.weaverOptions None JUndefined (Some [Studio.webp; Studio.framePng]) []
  = (Throws (mkError "Image conversion failed for Veo compatibility"),
     [EvLoadImage Studio.webp])
  /\ exists req,
       vr_image req = None
       /\ ([EvLoadImage Studio.webp] ++ [EvGenerateVideos {| apiKey := Some "KEY" |} req])
            `prefix_of`
            snd (generateVideo Scenarios.refusingWorld 5 "a cat"
                   "veo-3.1-fast-generate-preview" Studio.weaverOptions (Some Studio.webp)
                   JUndefined None []).
Proof.
  destruct (generateVideo_conversion_failure Scenarios.refusingWorld 5 "a cat"
              "veo-3.1-fast-generate-preview" Studio.weaverOptions JUndefined Studio.webp
              (mkError "Image conversion failed for Veo compatibility")
              [] [EvLoadImage Studio.webp] eq_refl eq_refl ltac:(discriminate))
    as [Hframes Hsingle].
  split.
  - apply Hframes; reflexivity.
  - apply Hsingle; [reflexivity|]. cbn. lia.
Defined.

Lemma generateVideo_resubmits_after_poll_witness :
  exists req op,
    ([EvGenerateVideos {| apiKey := Some "KEY" |} req; EvWait 10000;
      EvGetVideosOperation {| apiKey := Some "KEY" |} op;
      EvWait 2000; EvGenerateVideos {| apiKey := Some "KEY" |} req])
      `prefix_of`
      snd (generateVideo Studio.busyWorld 3 "a cat" "veo-3.1-fast-generate-preview"
             (Scenarios.videoOptions None) None JUndefined None []).
Proof.
  eexists. eexists.
  apply (generateVideo_resubmits_after_poll Studio.busyWorld 2 "a cat"
           "veo-3.1-fast-generate-preview" (Scenarios.videoOptions None) None JUndefined
           None [] [] _ (Scenarios.pendingOp "operations/1") Scenarios.unavailable);
    reflexivity.
Defined.

End VideoMore.

(** ** Counting remote calls *)

Module CostFacts.
Import Support GeminiService Scenarios ImageFacts.

Section Count.

Variable count : Trace -> nat.
Hypothesis Hadd : additive count.

Lemma spends_ret {A} (a : A) : spends count (ret a) 0.
Proof. intros t. cbn. lia. Qed.

Lemma spends_throw {A} e : spends count (@throw A e) 0.
Proof. intros t. cbn. lia. Qed.

Lemma spends_lift {A} (o : Outcome A) : spends count (lift o) 0.
Proof. intros t. cbn. lia. Qed.

Lemma spends_perform {A} ev (answer : Trace -> Settled A) :
  spends count (perform ev answer) (count [ev]).
Proof. intros t. cbn. rewrite Hadd. lia. Qed.

Lemma spends_bind {A B} (m : IO A) (f : A -> IO B) n1 n2 :
  spends count m n1 -> (forall a, spends count (f a) n2) ->
  spends count (bind m f) (n1 + n2).
Proof.
  intros Hm Hf t. specialize (Hm t). unfold bind.
  destruct (m t) as [[a|e|] t1]; cbn in *; try lia.
  specialize (Hf a t1). lia.
Qed.

Lemma spends_try_catch {A} (m : IO A) (h : JsVal -> IO A) n1 n2 :
  spends count m n1 -> (forall e, spends count (h e) n2) ->
  spends count (try_catch m h) (n1 + n2).
Proof.
  intros Hm Hh t. specialize (Hm t). unfold try_catch.
  destruct (m t) as [[a|e|] t1]; cbn in *; try lia.
  specialize (Hh e t1). lia.
Qed.

Lemma spends_weaken {A} (m : IO A) n n' :
  spends count m n -> (n <= n')%nat -> spends count m n'.
Proof. intros Hm Hle t. specialize (Hm t). lia. Qed.

(** A loop of at most [remaining] rounds spends at most that many times
    what one execution does, when waiting costs nothing. *)
Lemma spends_retry_loop (w : World) {T} (op : IO T) k maxRetries baseDelay remaining i lastError :
  (forall ms, count [EvWait ms] = 0%nat) ->
  spends count op k ->
  spends count (retry_loop w op maxRetries baseDelay remaining i lastError) (remaining * k).
Proof.
  intros Hwait Hop. revert i lastError.
  induction remaining as [|remaining IH]; intros i lastError; cbn [retry_loop].
  - apply spends_throw.
  - change (S remaining * k)%nat with (k + remaining * k)%nat.
    apply spends_try_catch; [exact Hop|intros e].
    change (remaining * k)%nat with (0 + remaining * k)%nat.
    apply spends_bind; [apply spends_lift|intros b].
    destruct (b && (i <? maxRetries - 1)).
    + change (remaining * k)%nat with (0 + remaining * k)%nat.
      apply spends_bind; [|intros _; apply IH].
      unfold wait. rewrite <- (Hwait (baseDelay * 2 ^ i)). apply spends_perform.
    + eapply spends_weaken; [apply spends_throw|lia].
Qed.

Lemma spends_allSettled {A} (ops : list (IO A)) k :
  Forall (fun op => spends count op k) ops ->
  spends count (allSettled ops) (length ops * k).
Proof.
  induction 1 as [|op ops Hop Hops IH]; [apply spends_ret|].
  cbn [allSettled length]. intros t. specialize (Hop t).
  destruct (op t) as [[a|e|] t1]; cbn [snd] in *; [| |lia].
  - pose proof (spends_bind _ (fun rs => ret (Resolved a :: rs)) _ 0 IH
                  (fun rs => spends_ret _) t1). lia.
  - pose proof (spends_bind _ (fun rs => ret (Rejected e :: rs)) _ 0 IH
                  (fun rs => spends_ret _) t1). lia.
Qed.

End Count.

Lemma submissions_additive : additive submissions.
Proof.
  intros t1 t2. induction t1 as [|ev t1 IH]; [reflexivity|].
  cbn. destruct (is_generateVideos ev); cbn; lia.
Qed.

Lemma imageRequests_additive : additive (fun t => length (contentRequests t)).
Proof. intros t1 t2. by rewrite contentRequests_app, length_app. Qed.

Section World.

Variable w : World.

Lemma convertImageToCompatibleFormat_spends count s :
  additive count -> (forall src, count [EvLoadImage src] = 0%nat) ->
  spends count (convertImageToCompatibleFormat w s) 0.
Proof.
  intros Hadd Hload. unfold convertImageToCompatibleFormat.
  destruct (_ || _).
  - destruct (match_data_uri _ _ _) as [[m r]|]; apply spends_ret.
  - change 0%nat with (0 + 0)%nat. apply spends_bind; [|intros p; apply spends_ret].
    rewrite <- (Hload s). by apply spends_perform.
Qed.

Lemma prepareRequest_spends count prompt model options img vi refs :
  additive count -> (forall src, count [EvLoadImage src] = 0%nat) ->
  spends count (prepareRequest w prompt model options img vi refs) 0.
Proof.
  intros Hadd Hload. unfold prepareRequest. cbv zeta.
  pose proof (fun s => convertImageToCompatibleFormat_spends count s Hadd Hload) as Hconv.
  assert (Hstd : forall request : option VideoImage -> option VideoImage -> VideoRequest,
             spends count
               (if truthy_str img
                then try_catch
                       (compat <- convertImageToCompatibleFormat w (interp img) ;;
                        ret (request (Some (toVideoImage compat)) None))
                       (fun _ => ret (request None None))
                else ret (request None None)) 0).
  { intros request. destruct (truthy_str img); [|apply spends_ret].
    change 0%nat with (0 + 0 + 0)%nat.
    apply spends_try_catch; [|intros e; apply spends_ret].
    apply spends_bind; [apply Hconv|intros c; apply spends_ret]. }
  pose (request := fun image last : option VideoImage =>
                    {| vr_model := model; vr_prompt := enhancedPrompt prompt;
                       vr_image := image;
                       vr_video := if truthy vi then Some vi else None;
                       vr_config := {| numberOfVideos := 1;
                                       vc_aspectRatio :=
                                         or_default (vo_aspectRatio options) "16:9";
                                       vc_resolution :=
                                         or_default (vo_resolution options) "720p";
                                       lastFrame := last |} |}).
  specialize (Hstd request).
  destruct (vo_generationMode options) as [mode|]; [|exact Hstd].
  destruct refs as [refs|]; [|exact Hstd].
  destruct (_ && _); [|exact Hstd].
  destruct (head refs) as [first|]; [|exact Hstd].
  destruct (last refs) as [final|]; [|exact Hstd].
  change 0%nat with (0 + (0 + 0))%nat.
  apply spends_bind; [apply Hconv|intros c1].
  apply spends_bind; [apply Hconv|intros c2]. apply spends_ret.
Qed.

Lemma newGoogleGenAI_spends count key : spends count (newGoogleGenAI w key) 0.
Proof.
  unfold newGoogleGenAI. destruct (sdk_new w key); [apply spends_throw|apply spends_ret].
Qed.

Lemma pollUntilDone_spends count fuel ai op :
  additive count ->
  (forall ms, count [EvWait ms] = 0%nat) ->
  (forall c o, count [EvGetVideosOperation c o] = 0%nat) ->
  spends count (pollUntilDone w fuel ai op) 0.
Proof.
  intros Hadd Hwait Hpoll. revert op.
  induction fuel as [|fuel IH]; intros op; cbn [pollUntilDone].
  - destruct (op_done op); [apply spends_ret|]. intros t. cbn. lia.
  - destruct (op_done op); [apply spends_ret|].
    change 0%nat with (0 + (0 + 0))%nat.
    apply spends_bind; [|intros _].
    { unfold wait. rewrite <- (Hwait 10000). by apply spends_perform. }
    apply spends_bind; [|intros op'; apply IH].
    rewrite <- (Hpoll ai op). by apply spends_perform.
Qed.

Lemma videoOperation_submits_once fuel req :
  spends submissions (videoOperation w fuel req) 1.
Proof.
  unfold videoOperation. change 1%nat with (0 + (1 + 0))%nat.
  apply spends_bind; [apply newGoogleGenAI_spends|intros ai].
  apply spends_bind; [|intros op].
  - apply (spends_perform submissions submissions_additive
             (EvGenerateVideos ai req)).
  - apply pollUntilDone_spends; [apply submissions_additive|done..].
Qed.

Lemma videoOperation_no_image fuel req :
  spends (fun t => length (contentRequests t)) (videoOperation w fuel req) 0.
Proof.
  unfold videoOperation. change 0%nat with (0 + (0 + 0))%nat.
  apply spends_bind; [apply newGoogleGenAI_spends|intros ai].
  apply spends_bind; [|intros op].
  - apply (spends_perform _ imageRequests_additive (EvGenerateVideos ai req)).
  - apply pollUntilDone_spends; [apply imageRequests_additive|done..].
Qed.

Lemma joinResults_spends count results : spends count (joinResults w results) 0.
Proof.
  unfold joinResults. destruct (collectUris w results [] None) as [uris meta].
  destruct (length uris =? 0)%nat; [apply spends_throw|apply spends_ret].
Qed.

Lemma generateImageFromText_spends prompt model imgs options :
  spends submissions (generateImageFromText w prompt model imgs options) 0
  /\ spends (fun t => length (contentRequests t))
       (generateImageFromText w prompt model imgs options) 1.
Proof.
  split; intros t;
    destruct (generateImageFromText_cases w prompt model imgs options t)
      as [(e & -> & _)|(o & -> & _)]; cbn [snd]; try lia.
  - rewrite submissions_additive. cbn. lia.
  - rewrite imageRequests_additive. cbn. lia.
Qed.

Lemma fallbackToImage_spends prompt options cause :
  spends submissions (fallbackToImage w prompt options cause) 0
  /\ spends (fun t => length (contentRequests t)) (fallbackToImage w prompt options cause) 1.
Proof.
  unfold fallbackToImage.
  destruct (generateImageFromText_spends (fallbackPrompt prompt) "gemini-2.5-flash-image" []
              {| io_aspectRatio := vo_aspectRatio options; io_resolution := None;
                 io_count := None |}) as [Hs Hi].
  split.
  - change 0%nat with (0 + 0 + 0)%nat.
    apply spends_try_catch; [|intros e; apply spends_throw].
    apply spends_bind; [exact Hs|intros imgs; apply spends_ret].
  - change 1%nat with (1 + 0 + 0)%nat.
    apply spends_try_catch; [|intros e; apply spends_throw].
    apply spends_bind; [exact Hi|intros imgs; apply spends_ret].
Qed.

(** X17.  What a call of [generateVideo] can cost, however it ends and
    however long the polling lasts: at most three video submissions for
    each video asked for, and at most one image request, the fallback. *)
Theorem generateVideo_cost (fuel : nat) (prompt model : string) (options : VideoOptions)
    (inputImageBase64 : option string) (videoInput : JsVal)
    (referenceImages : option (list string)) (t : Trace) :
  let t' := snd (generateVideo w fuel prompt model options inputImageBase64 videoInput
                   referenceImages t) in
  (submissions t' <= submissions t + 3 * fanOutCount options)%nat
  /\ (length (contentRequests t') <= length (contentRequests t) + 1)%nat.
Proof.
  cbv zeta.
  assert (Hgen : forall count k kimg,
             additive count ->
             (forall ms, count [EvWait ms] = 0%nat) ->
             (forall src, count [EvLoadImage src] = 0%nat) ->
             (forall req, spends count (videoOperation w fuel req) k) ->
             (forall cause, spends count (fallbackToImage w prompt options cause) kimg) ->
             spends count
               (generateVideo w fuel prompt model options inputImageBase64 videoInput
                  referenceImages)
               (fanOutCount options * (3 * k) + kimg)).
  { intros count k kimg Hadd Hwait Hload Hop Hfall. unfold generateVideo.
    apply (spends_weaken count _
             (0 + (0 + (fanOutCount options * (3 * k) + 0 + kimg)))); [|lia].
    apply spends_bind; [apply newGoogleGenAI_spends|intros ai].
    apply spends_bind; [by apply prepareRequest_spends|intros req].
    apply spends_try_catch; [|exact Hfall].
    apply spends_bind; [|intros rs; apply joinResults_spends].
    eapply spends_weaken.
    - apply (spends_allSettled count _ (3 * k)).
      apply Forall_replicate. unfold retryWithBackoff_default, retryWithBackoff.
      change (Z.to_nat 3) with 3%nat. by apply spends_retry_loop.
    - rewrite length_replicate. lia. }
  split.
  - pose proof (Hgen submissions 1%nat 0%nat submissions_additive
                  ltac:(done) ltac:(done) (videoOperation_submits_once fuel)
                  (fun cause => proj1 (fallbackToImage_spends prompt options cause)) t).
    lia.
  - pose proof (Hgen (fun t => length (contentRequests t)) 0%nat 1%nat imageRequests_additive
                  ltac:(done) ltac:(done) (videoOperation_no_image fuel)
                  (fun cause => proj2 (fallbackToImage_spends prompt options cause)) t).
    lia.
Qed.

End World.

End CostFacts.

(** ** More on the strategies *)

Module StrategyMore.
Import Support GeminiService Strategies OutcomeLogic.

Lemma truthy_str_some (o : option string) :
  truthy_str o = true -> exists s, o = Some s /\ s <> EmptyString.
Proof.
  destruct o as [s|]; [|discriminate]. cbn. intros H.
  exists s. split; [reflexivity|]. by apply String.eqb_neq, negb_true_iff.
Qed.

Lemma truthy_or_str (a b : option string) :
  truthy_str (or_str a b) = truthy_str b || truthy_str a.
Proof. unfold or_str. destruct (truthy_str a) eqn:Ha; [by rewrite Ha, orb_true_r|by rewrite orb_false_r]. Qed.

(** The seed of the default strategy is the first collected image. *)
Lemma default_seed_first_collected (inputs : list AppNode) :
  match List.find (fun n => truthy_str (image (data n)) || truthy_str (croppedFrame (data n)))
          inputs with
  | Some n => or_null (or_str (croppedFrame (data n)) (image (data n)))
  | None => None
  end = head (collectImages inputs).
Proof.
  induction inputs as [|n inputs IH]; [reflexivity|].
  cbn [List.find collectImages]. rewrite <- truthy_or_str.
  destruct (truthy_str (or_str (croppedFrame (data n)) (image (data n)))) eqn:Hsrc; [|exact IH].
  unfold or_null. rewrite Hsrc.
  destruct (truthy_str_some _ Hsrc) as (s & -> & _). reflexivity.
Qed.

Lemma collectImages_nonempty (inputs : list AppNode) :
  Forall (fun s => s <> EmptyString) (collectImages inputs)
  /\ (length (collectImages inputs) <= length inputs)%nat.
Proof.
  induction inputs as [|n inputs [IHf IHl]]; [split; [constructor|reflexivity]|].
  cbn [collectImages].
  destruct (truthy_str (or_str (croppedFrame (data n)) (image (data n)))) eqn:Hsrc;
    [|split; [exact IHf|cbn; lia]].
  destruct (truthy_str_some _ Hsrc) as (s & -> & Hs).
  split; [by constructor|cbn; lia].
Qed.

(** X20.  The default strategy and FrameWeaver choose the same seed: the
    first image FrameWeaver collects, which is the cropped frame, or else
    the image, of the first upstream node that has one of the two.  The
    images collected are never empty strings, at most one per input, and
    they are the reference images of FrameWeaver. *)
Theorem seed_is_first_collected (svc : Service) (node : AppNode) (inputs : list AppNode)
    (prompt : string) (t : Trace) :
  (exists r,
      processDefaultVideoGen node inputs prompt t = (Returns r, t)
      /\ inputImageForGeneration r = head (collectImages inputs))
  /\ (forall r t',
        processFrameWeaver node inputs prompt t = (Returns r, t') ->
        inputImageForGeneration r = head (collectImages inputs)
        /\ referenceImages r = Some (collectImages inputs))
  /\ Forall (fun s => s <> EmptyString) (collectImages inputs)
  /\ (length (collectImages inputs) <= length inputs)%nat.
Proof.
  split; [|split; [|apply collectImages_nonempty]].
  - eexists. split; [reflexivity|]. cbn [inputImageForGeneration].
    apply default_seed_first_collected.
  - intros r t' H. unfold processFrameWeaver in H. AnyService.run_inner H; try discriminate;
      injection H as <- _; split; reflexivity.
Qed.

(** X21.  StoryContinuator looks at one upstream node only, the first
    that has a video reference or video metadata.  When that node has
    metadata and no reference, nothing is extracted and no call is made,
    whatever videos the later inputs carry: the seed is [null]. *)
Theorem storyContinuator_metadata_shadows (svc : Service) (node : AppNode)
    (before after : list AppNode) (v : AppNode) (prompt : string) (t : Trace) :
  Forall (fun n => truthy_str (videoUri (data n)) = false
                   /\ truthy (nd_videoMetadata (data n)) = false) before ->
  truthy (nd_videoMetadata (data v)) = true ->
  truthy_str (videoUri (data v)) = false ->
  processStoryContinuator node (before ++ v :: after) prompt t
  = (Returns {| finalPrompt := prompt; videoInput := JNull;
                inputImageForGeneration := None; referenceImages := None;
                generationMode := "CONTINUE" |}, t).
Proof.
  intros Hbefore Hmeta Huri. unfold processStoryContinuator.
  assert (Hfind : List.find (fun n => truthy_str (videoUri (data n))
                                      || truthy (nd_videoMetadata (data n)))
                    (before ++ v :: after) = Some v).
  { induction Hbefore as [|n before [Hu Hm] _ IH]; cbn [app List.find].
    - by rewrite Huri, Hmeta.
    - by rewrite Hu, Hm. }
  rewrite Hfind, Huri. reflexivity.
Qed.

Lemma storyContinuator_metadata_shadows_witness :
  fst (@processStoryContinuator (geminiService Studio.obligingWorld)
         (Scenarios.taggedNode (Some "CONTINUE"))
         [Scenarios.imageNode "i" (Some Studio.framePng) None; Studio.metadataNode "m";
          Scenarios.videoNode "v" Studio.clipUri]
         "a cat" [])
  = Returns {| finalPrompt := "a cat"; videoInput := JNull;
               inputImageForGeneration := None; referenceImages := None;
               generationMode := "CONTINUE" |}
  /\ fst (@processStoryContinuator (geminiService Studio.obligingWorld)
            (Scenarios.taggedNode (Some "CONTINUE"))
            [Scenarios.imageNode "i" (Some Studio.framePng) None;
             Scenarios.videoNode "v" Studio.clipUri]
            "a cat" [])
     = Returns {| finalPrompt := "a cat"; videoInput := JNull;
                  inputImageForGeneration := Some Studio.framePng; referenceImages := None;
                  generationMode := "CONTINUE" |}.
Proof.
  split; [|reflexivity].
  exact (f_equal fst
           (storyContinuator_metadata_shadows (geminiService Studio.obligingWorld)
              (Scenarios.taggedNode (Some "CONTINUE"))
              [Scenarios.imageNode "i" (Some Studio.framePng) None]
              [Scenarios.videoNode "v" Studio.clipUri] (Studio.metadataNode "m") "a cat" []
              ltac:(repeat constructor) eq_refl eq_refl)).
Defined.

Section World.

Variable w : World.

Lemma urlToBase64_fetch_rejected (url : string) (t : Trace) (e : JsVal) :
  dom_fetchBlob w t url = Rejected e ->
  urlToBase64 w url t = (Returns EmptyString, t ++ [EvFetch url]).
Proof. intros H. unfold urlToBase64, try_catch, bind, perform, ret. by rewrite H. Qed.

Lemma analyzeVideo_not_data (video prompt model : string) (t : Trace) :
  startsWith video "data:" = false ->
  exists e, analyzeVideo w video prompt model t = (Throws e, t).
Proof.
  intros Hdata. unfold analyzeVideo, bind.
  destruct (ReplyFacts.getClient_cases w t) as [->|(e & -> & _)]; [|by eexists].
  rewrite Hdata. by eexists.
Qed.

(** The prompt of SceneDirector, by the style found upstream. *)
Lemma sceneDirector_prompt (node : AppNode) (inputs : list AppNode) (prompt style : string)
    (t t1 : Trace) :
  @upstreamStyle (geminiService w) inputs t = (Returns style, t1) ->
  exists r t',
    @processSceneDirector (geminiService w) node inputs prompt t = (Returns r, t')
    /\ finalPrompt r = prompt +:+ ". " +:+ nl +:+ nl +:+ "Style: " +:+ style.
Proof.
  intros Hstyle. unfold processSceneDirector. unfold bind at 1. rewrite Hstyle.
  destruct (always_run
              (if truthy_str (selectSceneImage node inputs)
               then restored <- @restore (geminiService w) node prompt
                                  (interp (selectSceneImage node inputs)) ;;
                    ret (Some restored)
               else ret (selectSceneImage node inputs))
              (fun _ => True) t1) as (img & t2 & Hrun & _).
  { destruct (truthy_str (selectSceneImage node inputs)); [|by apply outcomes_ret].
    eapply outcomes_bind; [|intros restored _; by apply outcomes_ret].
    apply (StrategyFacts.restore_always (Hsvc := ServiceFacts.geminiService_settling w)). }
  unfold bind at 1. rewrite Hrun. eexists. eexists. split; reflexivity.
Qed.

(** X22.  An upstream video given by an [http] address that cannot be
    downloaded.  No strategy notices: [urlToBase64] answers with the empty
    string, the analysis refuses it without a request, so that CharacterRef
    keeps the prompt as it is and SceneDirector appends an empty style
    line; StoryContinuator goes on to extract the last frame of the empty
    source. *)
Theorem failed_download_goes_unnoticed (node : AppNode) (inputs : list AppNode)
    (prompt : string) (t : Trace) (v : AppNode) (uri : string) (e : JsVal) :
  List.find (fun n => truthy_str (videoUri (data n))) inputs = Some v ->
  videoUri (data v) = Some uri ->
  startsWith uri "http" = true ->
  dom_fetchBlob w t uri = Rejected e ->
  (exists r,
      @processCharacterRef (geminiService w) node inputs prompt t
      = (Returns r, t ++ [EvFetch uri])
      /\ finalPrompt r = prompt)
  /\ (exists r t',
        @processSceneDirector (geminiService w) node inputs prompt t = (Returns r, t')
        /\ finalPrompt r = prompt +:+ ". " +:+ nl +:+ nl +:+ "Style: ")
  /\ (List.find (fun n => truthy_str (videoUri (data n))
                          || truthy (nd_videoMetadata (data n))) inputs = Some v ->
      exists r,
        @processStoryContinuator (geminiService w) node inputs prompt t
        = (Returns r, t ++ [EvFetch uri; EvSeekLastFrame EmptyString])).
Proof.
  intros Hfind Huri Hhttp Hfetch.
  assert (Htruthy : truthy_str (videoUri (data v)) = true).
  { by destruct (find_some _ _ Hfind) as [_ H]. }
  pose proof (urlToBase64_fetch_rejected uri t e Hfetch) as Hurl.
  split; [|split].
  - unfold processCharacterRef. rewrite Hfind, Htruthy, Huri. cbn [interp].
    unfold materialize. rewrite Hhttp. cbn [svc_urlToBase64 svc_analyzeVideo geminiService].
    unfold bind at 1, try_catch, bind at 1. rewrite Hurl.
    destruct (analyzeVideo_not_data EmptyString "Describe only the motion and camera movement."
                "gemini-3-flash-preview" (t ++ [EvFetch uri]) eq_refl) as [e' ->].
    eexists. split; reflexivity.
  - apply (sceneDirector_prompt node inputs prompt EmptyString t (t ++ [EvFetch uri])).
    unfold upstreamStyle. rewrite Hfind, Htruthy, Huri. cbn [interp].
    unfold materialize. rewrite Hhttp. cbn [svc_urlToBase64 svc_analyzeVideo geminiService].
    unfold try_catch, bind at 1. rewrite Hurl.
    destruct (analyzeVideo_not_data EmptyString "Analyze the visual style briefly."
                "gemini-3-flash-preview" (t ++ [EvFetch uri]) eq_refl) as [e' ->].
    reflexivity.
  - intros Hfirst. unfold processStoryContinuator. rewrite Hfirst, Htruthy, Huri.
    cbn [interp]. unfold materialize. rewrite Hhttp.
    cbn [svc_urlToBase64 svc_extractLastFrame geminiService].
    unfold bind at 1, try_catch, bind at 1. rewrite Hurl.
    unfold bind, extractLastFrame, perform, ret. cbn [fst snd].
    rewrite <- app_assoc. cbn [app].
    destruct (dom_seekLastFrame w (t ++ [EvFetch uri]) EmptyString) as [frame|e'];
      eexists; reflexivity.
Qed.

(** X23.  The placeholder of [analyzeVideo] ends up in the prompt.  When
    the analysis request is answered without text, [analyzeVideo] returns
    ["Analysis failed"], and the strategies take it for a description: the
    prompt of CharacterRef starts with ["Motion: Analysis failed. "] and the
    one of SceneDirector ends with ["Style: Analysis failed"]. *)
Theorem analysis_placeholder_in_prompt (node : AppNode) (inputs : list AppNode)
    (prompt : string) (t : Trace) (v : AppNode) (uri : string) :
  truthy_str (API_KEY w) = true ->
  sdk_new w (API_KEY w) = None ->
  (forall t ai req, exists resp,
      sdk_generateContent w t ai req = Resolved resp /\ truthy_str (resp_text resp) = false) ->
  List.find (fun n => truthy_str (videoUri (data n))) inputs = Some v ->
  videoUri (data v) = Some uri ->
  startsWith uri "data:" = true ->
  (exists r t',
      @processCharacterRef (geminiService w) node inputs prompt t = (Returns r, t')
      /\ finalPrompt r = "Motion: Analysis failed. " +:+ prompt)
  /\ (exists r t',
        @processSceneDirector (geminiService w) node inputs prompt t = (Returns r, t')
        /\ finalPrompt r = prompt +:+ ". " +:+ nl +:+ nl +:+ "Style: Analysis failed").
Proof.
  intros Hkey Hnew Hsilent Hfind Huri Hdata.
  assert (Htruthy : truthy_str (videoUri (data v)) = true).
  { by destruct (find_some _ _ Hfind) as [_ H]. }
  assert (Hhttp : startsWith uri "http" = false).
  { apply DomFacts.startsWith_inv in Hdata as [r ->]. reflexivity. }
  assert (Hanalysis : forall p m t0, exists t1,
             analyzeVideo w uri p m t0 = (Returns "Analysis failed", t1)).
  { intros p m t0. unfold analyzeVideo, getClient, newGoogleGenAI.
    rewrite Hkey, Hnew. cbn [negb]. unfold bind at 1, ret at 1. rewrite Hdata.
    unfold bind, perform. cbn [fst snd].
    match goal with
    | |- context [sdk_generateContent w ?a ?b ?c] =>
        destruct (Hsilent a b c) as (resp & -> & Htext)
    end.
    eexists. unfold ret. f_equal. f_equal. unfold or_default.
    destruct (resp_text resp) as [s|]; [|reflexivity].
    cbn in Htext. apply negb_false_iff in Htext. by rewrite Htext. }
  split.
  - unfold processCharacterRef. rewrite Hfind, Htruthy, Huri. cbn [interp].
    unfold materialize. rewrite Hhttp. cbn [svc_analyzeVideo geminiService].
    unfold bind at 1, try_catch, bind at 1. unfold ret at 1.
    destruct (Hanalysis "Describe only the motion and camera movement."
                "gemini-3-flash-preview" t) as [t1 ->].
    eexists. eexists. split; reflexivity.
  - destruct (Hanalysis "Analyze the visual style briefly." "gemini-3-flash-preview" t)
      as [t1 Hrun].
    apply (sceneDirector_prompt node inputs prompt "Analysis failed" t t1).
    unfold upstreamStyle. rewrite Hfind, Htruthy, Huri. cbn [interp].
    unfold materialize. rewrite Hhttp. cbn [svc_analyzeVideo geminiService].
    unfold try_catch, bind at 1. unfold ret at 1. by rewrite Hrun.
Qed.

End World.

Lemma failed_download_goes_unnoticed_witness :
  (exists r,
      @processCharacterRef (geminiService Scenarios.refusingWorld)
        (Scenarios.taggedNode (Some "CHARACTER_REF"))
        [Scenarios.videoNode "v" "https://videos.example/1"] "a cat" []
      = (Returns r, [EvFetch "https://videos.example/1"])
      /\ finalPrompt r = "a cat")
  /\ (exists r,
        @processStoryContinuator (geminiService Scenarios.refusingWorld)
          (Scenarios.taggedNode (Some "CHARACTER_REF"))
          [Scenarios.videoNode "v" "https://videos.example/1"] "a cat" []
        = (Returns r, [EvFetch "https://videos.example/1"; EvSeekLastFrame EmptyString])).
Proof.
  destruct (failed_download_goes_unnoticed Scenarios.refusingWorld
              (Scenarios.taggedNode (Some "CHARACTER_REF"))
              [Scenarios.videoNode "v" "https://videos.example/1"] "a cat" []
              (Scenarios.videoNode "v" "https://videos.example/1")
              "https://videos.example/1" (mkError "Failed to fetch")
              eq_refl eq_refl eq_refl eq_refl) as (Hc & _ & Hs).
  split; [exact Hc|]. apply Hs. reflexivity.
Defined.

Lemma analysis_placeholder_in_prompt_witness :
  exists r t',
    @processCharacterRef (geminiService Studio.silentWorld)
      (Scenarios.taggedNode (Some "CHARACTER_REF"))
      [Scenarios.videoNode "v" Studio.clipUri] "a cat" []
    = (Returns r, t')
    /\ finalPrompt r = "Motion: Analysis failed. a cat".
Proof.
  apply (analysis_placeholder_in_prompt Studio.silentWorld
           (Scenarios.taggedNode (Some "CHARACTER_REF"))
           [Scenarios.videoNode "v" Studio.clipUri] "a cat" []
           (Scenarios.videoNode "v" Studio.clipUri) Studio.clipUri);
    try reflexivity.
  intros t ai req. eexists. split; reflexivity.
Defined.

End StrategyMore.

(** ** What choosing a strategy can cost *)

Module StrategyCost.
Import Support GeminiService Strategies Scenarios CostFacts.

Section Count.

Variable w : World.
Variable count : Trace -> nat.
Variable k : nat.
Hypothesis Hadd : additive count.
Hypothesis Hfetch : forall url, count [EvFetch url] = 0%nat.
Hypothesis Hread : forall blob, count [EvReadAsDataURL blob] = 0%nat.
Hypothesis Hseek : forall src, count [EvSeekLastFrame src] = 0%nat.
Hypothesis Hcontent : forall ai req, (count [EvGenerateContent ai req] <= k)%nat.

Lemma getClient_spends : spends count (getClient w) 0.
Proof.
  unfold getClient. destruct (negb _); [apply spends_throw|apply newGoogleGenAI_spends].
Qed.

Lemma generateContent_spends ai req :
  spends count (perform (EvGenerateContent ai req) (fun t => sdk_generateContent w t ai req)) k.
Proof. eapply spends_weaken; [by apply spends_perform|apply Hcontent]. Qed.

Lemma urlToBase64_spends url : spends count (urlToBase64 w url) 0.
Proof.
  unfold urlToBase64. change 0%nat with (0 + 0 + 0 + 0)%nat.
  apply spends_bind.
  - apply spends_try_catch; [|intros e; apply spends_ret].
    apply spends_bind; [|intros b; apply spends_ret].
    rewrite <- (Hfetch url). by apply spends_perform.
  - intros [b|]; [|apply spends_ret]. rewrite <- (Hread b). by apply spends_perform.
Qed.

Lemma extractLastFrame_spends src : spends count (extractLastFrame w src) 0.
Proof. unfold extractLastFrame. rewrite <- (Hseek src). by apply spends_perform. Qed.

Lemma analyzeVideo_spends v p m : spends count (analyzeVideo w v p m) k.
Proof.
  unfold analyzeVideo. change k with (0 + k)%nat.
  apply spends_bind; [apply getClient_spends|intros ai].
  destruct (startsWith v "data:"); [|eapply spends_weaken; [apply spends_throw|lia]].
  replace k with (k + 0)%nat by lia.
  apply spends_bind; [apply generateContent_spends|intros r; apply spends_ret].
Qed.

Lemma orchestrateVideoPrompt_spends imgs p : spends count (orchestrateVideoPrompt w imgs p) k.
Proof.
  unfold orchestrateVideoPrompt. change k with (0 + k)%nat.
  apply spends_bind; [apply getClient_spends|intros ai].
  replace k with (k + 0)%nat by lia.
  apply spends_bind; [apply generateContent_spends|intros r; apply spends_ret].
Qed.

Lemma generateImageFromText_spends_any p m imgs o :
  spends count (generateImageFromText w p m imgs o) k.
Proof.
  intros t.
  destruct (ImageFacts.generateImageFromText_cases w p m imgs o t)
    as [(e & -> & _)|(r & -> & _)]; cbn [snd]; [lia|].
  rewrite Hadd. pose proof (Hcontent {| apiKey := API_KEY w |} (imageRequest p m imgs o)). lia.
Qed.

Lemma materialize_spends src : spends count (@materialize (geminiService w) src) 0.
Proof.
  unfold materialize. destruct (startsWith src "http"); [apply urlToBase64_spends|apply spends_ret].
Qed.

Lemma processDefaultVideoGen_spends node inputs prompt :
  spends count (processDefaultVideoGen node inputs prompt) 0.
Proof. apply spends_ret. Qed.

Lemma processStoryContinuator_spends node inputs prompt :
  spends count (@processStoryContinuator (geminiService w) node inputs prompt) 0.
Proof.
  unfold processStoryContinuator. change 0%nat with (0 + 0)%nat.
  apply spends_bind; [|intros imgs; apply spends_ret].
  destruct (List.find _ inputs) as [v|]; [|apply spends_ret].
  destruct (truthy_str (videoUri (data v))); [|apply spends_ret].
  change 0%nat with (0 + (0 + 0) + 0)%nat.
  apply spends_try_catch; [|intros e; apply spends_ret].
  apply spends_bind; [apply materialize_spends|intros src].
  apply spends_bind; [apply extractLastFrame_spends|intros f; apply spends_ret].
Qed.

Lemma processFrameWeaver_spends node inputs prompt :
  spends count (@processFrameWeaver (geminiService w) node inputs prompt) k.
Proof.
  unfold processFrameWeaver. replace k with (k + 0)%nat by lia.
  apply spends_bind; [|intros p; apply spends_ret].
  destruct (2 <=? _)%nat; [|eapply spends_weaken; [apply spends_ret|lia]].
  destruct (head _); [|eapply spends_weaken; [apply spends_ret|lia]].
  destruct (last _); [|eapply spends_weaken; [apply spends_ret|lia]].
  replace k with (k + 0)%nat by lia.
  apply spends_try_catch; [apply orchestrateVideoPrompt_spends|intros e; apply spends_ret].
Qed.

Lemma analysis_spends (inputs : list AppNode) (question : string) :
  spends count
    (match List.find (fun n => truthy_str (videoUri (data n))) inputs with
     | Some v =>
         if truthy_str (videoUri (data v)) then
           try_catch
             (vidData <- @materialize (geminiService w) (interp (videoUri (data v))) ;;
              analyzeVideo w vidData question "gemini-3-flash-preview")
             (fun _ => ret EmptyString)
         else ret EmptyString
     | None => ret EmptyString
     end) k.
Proof.
  destruct (List.find _ inputs) as [v|]; [|eapply spends_weaken; [apply spends_ret|lia]].
  destruct (truthy_str (videoUri (data v))); [|eapply spends_weaken; [apply spends_ret|lia]].
  replace k with (0 + k + 0)%nat by lia.
  apply spends_try_catch; [|intros e; apply spends_ret].
  apply spends_bind; [apply materialize_spends|intros src]. apply analyzeVideo_spends.
Qed.

Lemma processCharacterRef_spends node inputs prompt :
  spends count (@processCharacterRef (geminiService w) node inputs prompt) k.
Proof.
  unfold processCharacterRef. replace k with (k + 0)%nat by lia.
  apply spends_bind; [apply analysis_spends|intros m; apply spends_ret].
Qed.

Lemma processSceneDirector_spends node inputs prompt :
  spends count (@processSceneDirector (geminiService w) node inputs prompt) (2 * k).
Proof.
  unfold processSceneDirector. replace (2 * k)%nat with (k + (k + 0))%nat by lia.
  apply spends_bind; [apply analysis_spends|intros style].
  apply spends_bind; [|intros img; apply spends_ret].
  destruct (truthy_str _); [|eapply spends_weaken; [apply spends_ret|lia]].
  unfold restore. eapply spends_weaken.
  - apply spends_bind; [|intros r; apply spends_ret].
    apply spends_try_catch; [|intros e; apply spends_ret].
    apply spends_bind; [apply generateImageFromText_spends_any|intros imgs; apply spends_ret].
  - lia.
Qed.

Lemma getGenerationStrategy_spends node inputs prompt :
  spends count (@getGenerationStrategy (geminiService w) node inputs prompt) (2 * k).
Proof.
  unfold getGenerationStrategy.
  repeat match goal with |- context [if ?b then _ else _] => destruct b end.
  - eapply spends_weaken; [apply processCharacterRef_spends|lia].
  - eapply spends_weaken; [apply processFrameWeaver_spends|lia].
  - apply processSceneDirector_spends.
  - eapply spends_weaken; [apply processStoryContinuator_spends|lia].
  - eapply spends_weaken; [apply processDefaultVideoGen_spends|lia].
Qed.

Lemma strategies_spend node inputs prompt :
  spends count (processDefaultVideoGen node inputs prompt) 0
  /\ spends count (@processStoryContinuator (geminiService w) node inputs prompt) 0
  /\ spends count (@processFrameWeaver (geminiService w) node inputs prompt) k
  /\ spends count (@processSceneDirector (geminiService w) node inputs prompt) (2 * k)
  /\ spends count (@processCharacterRef (geminiService w) node inputs prompt) k
  /\ spends count (@getGenerationStrategy (geminiService w) node inputs prompt) (2 * k).
Proof.
  repeat split.
  - apply processDefaultVideoGen_spends.
  - apply processStoryContinuator_spends.
  - apply processFrameWeaver_spends.
  - apply processSceneDirector_spends.
  - apply processCharacterRef_spends.
  - apply getGenerationStrategy_spends.
Qed.

End Count.

(** X24.  Choosing a strategy never starts a video: whatever the node,
    the inputs and the world, no strategy submits a video request.  The
    requests for content are few: none for the default strategy and
    StoryContinuator, at most one for FrameWeaver and CharacterRef, at
    most two for SceneDirector, and so at most two for the factory. *)
Theorem strategy_cost (w : World) (node : AppNode) (inputs : list AppNode)
    (prompt : string) (t : Trace) :
  let requests (t' : Trace) := length (contentRequests t') in
  let after (strategy : AppNode -> list AppNode -> string -> IO StrategyResult) :=
    snd (strategy node inputs prompt t) in
  Forall (fun strategy => (submissions (after strategy) <= submissions t)%nat
                          /\ (requests (after strategy) <= requests t + 2)%nat)
    (allStrategies (geminiService w))
  /\ (requests (after processDefaultVideoGen) <= requests t)%nat
  /\ (requests (after (@processStoryContinuator (geminiService w))) <= requests t)%nat
  /\ (requests (after (@processFrameWeaver (geminiService w))) <= requests t + 1)%nat
  /\ (requests (after (@processCharacterRef (geminiService w))) <= requests t + 1)%nat.
Proof.
  cbv zeta.
  assert (Hsub : forall ai req, (submissions [EvGenerateContent ai req] <= 0)%nat) by done.
  assert (Himg : forall ai req,
             (length (contentRequests [EvGenerateContent ai req]) <= 1)%nat) by done.
  destruct (strategies_spend w submissions 0%nat submissions_additive
              ltac:(done) ltac:(done) ltac:(done) Hsub node inputs prompt)
    as (S1 & S2 & S3 & S4 & S5 & S6).
  destruct (strategies_spend w (fun t => length (contentRequests t)) 1%nat
              imageRequests_additive ltac:(done) ltac:(done) ltac:(done) Himg
              node inputs prompt)
    as (R1 & R2 & R3 & R4 & R5 & R6).
  specialize (S1 t). specialize (S2 t). specialize (S3 t). specialize (S4 t).
  specialize (S5 t). specialize (S6 t).
  specialize (R1 t). specialize (R2 t). specialize (R3 t). specialize (R4 t).
  specialize (R5 t). specialize (R6 t). cbv beta in *.
  split; [|repeat split; lia].
  unfold allStrategies. repeat constructor; lia.
Qed.

End StrategyCost.

(** ** From a strategy to the video request *)

Module PipelineFacts.
Import Support GeminiService Strategies OutcomeLogic.

(** What any strategy returns, under any service: no video input, and
    either FrameWeaver's tag with the collected images, or one of the four
    other tags without reference images. *)
Lemma strategy_result_refs (svc : Service) node inputs prompt t r t' :
  getGenerationStrategy node inputs prompt t = (Returns r, t') ->
  videoInput r = JNull
  /\ ((generationMode r = "FIRST_LAST_FRAME"
       /\ referenceImages r = Some (collectImages inputs)
       /\ inputImageForGeneration r = head (collectImages inputs))
      \/ (In (generationMode r) single_image_modes /\ referenceImages r = None)).
Proof.
  intros H.
  pose proof (StrategyFacts.getGenerationStrategy_cases node inputs prompt) as Hg.
  cbn [In] in Hg. destruct Hg as [Hg|[Hg|[Hg|[Hg|[Hg|[]]]]]]; rewrite <- Hg in H; clear Hg.
  - injection H as <- _. split; [reflexivity|]. right. cbn. tauto.
  - unfold processStoryContinuator in H. AnyService.run_inner H; try discriminate.
    injection H as <- _. split; [reflexivity|]. right. cbn. tauto.
  - unfold processFrameWeaver in H. AnyService.run_inner H; try discriminate.
    injection H as <- _. split; [reflexivity|]. left. done.
  - unfold processSceneDirector in H. AnyService.run_inner H; try discriminate.
    injection H as <- _. split; [reflexivity|]. right. cbn. tauto.
  - unfold processCharacterRef in H. AnyService.run_inner H; try discriminate.
    injection H as <- _. split; [reflexivity|]. right. cbn. tauto.
Qed.

Lemma prepareRequest_video (w : World) prompt model options img vi refs t req t1 :
  prepareRequest w prompt model options img vi refs t = (Returns req, t1) ->
  vr_video req = if truthy vi then Some vi else None.
Proof.
  unfold prepareRequest. cbv zeta. intros H.
  assert (Hstd : forall image1 image2,
             (if truthy_str img
              then try_catch
                     (compat <- convertImageToCompatibleFormat w (interp img) ;;
                      ret {| vr_model := model; vr_prompt := enhancedPrompt prompt;
                             vr_image := image1 compat;
                             vr_video := if truthy vi then Some vi else None;
                             vr_config := {| numberOfVideos := 1;
                                             vc_aspectRatio :=
                                               or_default (vo_aspectRatio options) "16:9";
                                             vc_resolution :=
                                               or_default (vo_resolution options) "720p";
                                             lastFrame := None |} |})
                     (fun _ => ret {| vr_model := model; vr_prompt := enhancedPrompt prompt;
                                      vr_image := image2;
                                      vr_video := if truthy vi then Some vi else None;
                                      vr_config := {| numberOfVideos := 1;
                                                      vc_aspectRatio :=
                                                        or_default (vo_aspectRatio options) "16:9";
                                                      vc_resolution :=
                                                        or_default (vo_resolution options) "720p";
                                                      lastFrame := None |} |})
              else ret {| vr_model := model; vr_prompt := enhancedPrompt prompt;
                          vr_image := image2;
                          vr_video := if truthy vi then Some vi else None;
                          vr_config := {| numberOfVideos := 1;
                                          vc_aspectRatio :=
                                            or_default (vo_aspectRatio options) "16:9";
                                          vc_resolution :=
                                            or_default (vo_resolution options) "720p";
                                          lastFrame := None |} |}) t = (Returns req, t1) ->
             vr_video req = if truthy vi then Some vi else None).
  { intros image1 image2 Hrun. destruct (truthy_str img).
    - unfold try_catch, bind in Hrun.
      destruct (convertImageToCompatibleFormat w (interp img) t) as [[c|e|] t2];
        [| |discriminate]; by injection Hrun as <- _.
    - by injection Hrun as <- _. }
  destruct (vo_generationMode options) as [mode|]; [|exact (Hstd (fun c => Some (toVideoImage c)) None H)].
  destruct refs as [refs|]; [|exact (Hstd (fun c => Some (toVideoImage c)) None H)].
  destruct (_ && _); [|exact (Hstd (fun c => Some (toVideoImage c)) None H)].
  destruct (head refs) as [first|]; [|exact (Hstd (fun c => Some (toVideoImage c)) None H)].
  destruct (last refs) as [final|]; [|exact (Hstd (fun c => Some (toVideoImage c)) None H)].
  unfold bind in H.
  destruct (convertImageToCompatibleFormat w first t) as [[c1|e1|] t2]; try discriminate.
  destruct (convertImageToCompatibleFormat w final t2) as [[c2|e2|] t3]; try discriminate.
  by injection H as <- _.
Qed.

(** X25.  A strategy result handed to [generateVideo], with the mode of
    the result as [options.generationMode].  The branch of the first and
    last frame is taken exactly for a result of FrameWeaver that collected
    at least two images; a result of FrameWeaver with fewer images, and
    every result of the other strategies, is treated as plain text- or
    image-to-video, with the seed image of the result as the only image.
    No request ever carries a video: the video input of a result is
    [null]. *)
Theorem strategy_result_selects_branch (svc : Service) (node : AppNode)
    (inputs : list AppNode) (prompt : string) (t t' : Trace) (r : StrategyResult)
    (options : VideoOptions) :
  getGenerationStrategy node inputs prompt t = (Returns r, t') ->
  vo_generationMode options = Some (generationMode r) ->
  (firstLastFrames options (referenceImages r) = true
   <-> generationMode r = "FIRST_LAST_FRAME" /\ (2 <= length (collectImages inputs))%nat)
  /\ (forall w p model t0 req t1,
        prepareRequest w p model options (inputImageForGeneration r) (videoInput r)
          (referenceImages r) t0 = (Returns req, t1) ->
        vr_video req = None).
Proof.
  intros Hrun Hmode.
  destruct (strategy_result_refs svc node inputs prompt t r t' Hrun)
    as [Hvideo [(Hflf & Hrefs & _)|(Hother & Hrefs)]].
  - assert (Hbranch : firstLastFrames options (referenceImages r) = true
                      <-> generationMode r = "FIRST_LAST_FRAME"
                          /\ (2 <= length (collectImages inputs))%nat).
    { unfold firstLastFrames. rewrite Hmode, Hrefs, Hflf.
      change (String.eqb "FIRST_LAST_FRAME" "FIRST_LAST_FRAME") with true. cbn [andb].
      split.
      - intros H. split; [reflexivity|by apply Nat.leb_le].
      - intros [_ H]. by apply Nat.leb_le. }
    split; [exact Hbranch|].
    intros w p model t0 req t1 Hprep.
    rewrite (prepareRequest_video _ _ _ _ _ _ _ _ _ _ Hprep), Hvideo. reflexivity.
  - assert (Hne : generationMode r <> "FIRST_LAST_FRAME").
    { cbn in Hother. intros Heq. rewrite Heq in Hother.
      destruct Hother as [H|[H|[H|[H|[]]]]]; discriminate. }
    assert (Hbranch : firstLastFrames options (referenceImages r) = false).
    { unfold firstLastFrames. by rewrite Hmode, Hrefs. }
    split; [rewrite Hbranch; split; [discriminate|tauto]|].
    intros w p model t0 req t1 Hprep.
    rewrite (prepareRequest_video _ _ _ _ _ _ _ _ _ _ Hprep), Hvideo. reflexivity.
Qed.

Lemma strategy_result_selects_branch_witness :
  exists r t',
    @getGenerationStrategy (geminiService Studio.obligingWorld)
      (Scenarios.taggedNode (Some "FIRST_LAST_FRAME"))
      [Scenarios.imageNode "a" (Some Studio.framePng) None;
       Scenarios.imageNode "b" (Some Studio.webp) None] "a cat" []
    = (Returns r, t')
    /\ firstLastFrames Studio.weaverOptions (referenceImages r) = true.
Proof.
  eexists. eexists. split; [reflexivity|].
  apply (strategy_result_selects_branch (geminiService Studio.obligingWorld)
           (Scenarios.taggedNode (Some "FIRST_LAST_FRAME"))
           [Scenarios.imageNode "a" (Some Studio.framePng) None;
            Scenarios.imageNode "b" (Some Studio.webp) None] "a cat" [] _ _
           Studio.weaverOptions eq_refl eq_refl).
  split; [reflexivity|]. cbn. lia.
Defined.

End PipelineFacts.

(** ** The stored key *)

Module SettingsFacts.
Import Settings.

Lemma dropWhiteSpace_clean (us : Text) : clean_start (dropWhiteSpace us).
Proof.
  induction us as [|u us IH]; [exact I|]. cbn [dropWhiteSpace].
  destruct (is_white_space u) eqn:Hu; [exact IH|exact Hu].
Qed.

Lemma dropWhiteSpace_of_clean (us : Text) : clean_start us -> dropWhiteSpace us = us.
Proof. destruct us as [|u us]; [done|]. cbn. by intros ->. Qed.

Lemma dropWhiteSpace_keeps_last (us : Text) (u : Z) :
  is_white_space u = false -> exists pre, dropWhiteSpace (us ++ [u]) = pre ++ [u].
Proof.
  intros Hu. induction us as [|a us IH]; cbn [app dropWhiteSpace].
  - rewrite Hu. by exists [].
  - destruct (is_white_space a); [exact IH|]. by exists (a :: us).
Qed.

(** Trimming the end keeps a clean start. *)
Lemma trimEnd_clean (us : Text) :
  clean_start us -> clean_start (rev (dropWhiteSpace (rev us))).
Proof.
  destruct us as [|u us]; [done|]. cbn [clean_start rev]. intros Hu.
  destruct (dropWhiteSpace_keeps_last (rev us) u Hu) as [pre ->].
  rewrite rev_app_distr. exact Hu.
Qed.

Lemma trim_idempotent (s : Text) : trim (trim s) = trim s.
Proof.
  unfold trim.
  set (x := dropWhiteSpace s).
  rewrite (dropWhiteSpace_of_clean (rev (dropWhiteSpace (rev x))))
    by apply trimEnd_clean, dropWhiteSpace_clean.
  rewrite rev_involutive.
  rewrite (dropWhiteSpace_of_clean (dropWhiteSpace (rev x))) by apply dropWhiteSpace_clean.
  reflexivity.
Qed.

(** What is left after trimming neither starts nor ends with white space. *)
Lemma trim_clean (s : Text) : clean_start (trim s) /\ clean_start (rev (trim s)).
Proof.
  unfold trim. split.
  - apply trimEnd_clean, dropWhiteSpace_clean.
  - rewrite rev_involutive. apply dropWhiteSpace_clean.
Qed.

(** Trimming takes white space off the two ends and nothing else: the text
    is the trimmed text between two runs of white space. *)
Lemma dropWhiteSpace_split (us : Text) :
  exists ws, us = ws ++ dropWhiteSpace us /\ forallb is_white_space ws = true.
Proof.
  induction us as [|u us (ws & Heq & Hws)]; [by exists []|]. cbn [dropWhiteSpace].
  destruct (is_white_space u) eqn:Hu.
  - exists (u :: ws). cbn [app forallb]. rewrite Hu, Hws. split; [by f_equal|reflexivity].
  - by exists [].
Qed.

Lemma trim_split (s : Text) :
  exists before after,
    s = before ++ trim s ++ after
    /\ forallb is_white_space before = true
    /\ forallb is_white_space after = true.
Proof.
  destruct (dropWhiteSpace_split s) as (before & Hs & Hbefore).
  destruct (dropWhiteSpace_split (rev (dropWhiteSpace s))) as (ws & Hrev & Hws).
  exists before, (rev ws). split; [|split; [exact Hbefore|]].
  - rewrite Hs at 1. f_equal. unfold trim.
    rewrite <- rev_app_distr, <- Hrev. by rewrite rev_involutive.
  - rewrite forallb_forall in *. intros u Hu. apply Hws. by apply in_rev.
Qed.

(** X26.  Saving and reading back, for any text of the field.  After
    [handleSave], [getPolloKey] returns the text of the field with the
    white space at both ends removed: the field is that text between two
    runs of white space, full-width spaces and byte-order marks included,
    and the text stored neither starts nor ends with white space.  Every
    other entry of the storage is as it was.  A blank field is stored as
    the empty string: the entry is not removed.  Opening the modal again
    and saving without typing leaves the storage as it is. *)
Theorem handleSave_round_trip (p : Page) :
  getPolloKey (localStorage (handleSave p)) = Some (trim (polloKey p))
  /\ (exists before after,
        polloKey p = before ++ trim (polloKey p) ++ after
        /\ forallb is_white_space before = true
        /\ forallb is_white_space after = true)
  /\ clean_start (trim (polloKey p))
  /\ clean_start (rev (trim (polloKey p)))
  /\ (forall key, key <> literal "pollo_api_key" ->
                  getItem (localStorage (handleSave p)) key = getItem (localStorage p) key)
  /\ (forallb is_white_space (polloKey p) = true ->
      getPolloKey (localStorage (handleSave p)) = Some [])
  /\ localStorage (handleSave (loadStored (handleSave p))) = localStorage (handleSave p).
Proof.
  assert (Hstored : getItem (localStorage (handleSave p)) (literal "pollo_api_key")
                    = Some (trim (polloKey p))).
  { unfold getItem, handleSave, setItem. cbn [localStorage]. apply lookup_insert_eq. }
  split; [exact Hstored|]. split; [apply trim_split|].
  split; [apply trim_clean|]. split; [apply trim_clean|]. split; [|split].
  - intros key Hkey. unfold getItem, handleSave, setItem. cbn [localStorage].
    by apply lookup_insert_ne.
  - intros Hblank. unfold getPolloKey. rewrite Hstored. f_equal.
    destruct (trim_split (polloKey p)) as (before & after & Heq & _ & _).
    pose proof (trim_clean (polloKey p)) as [Hclean _].
    destruct (trim (polloKey p)) as [|u us]; [reflexivity|].
    cbn [clean_start] in Hclean. rewrite Heq in Hblank.
    rewrite !forallb_app in Hblank. cbn [forallb] in Hblank.
    rewrite Hclean in Hblank. cbn in Hblank.
    by rewrite andb_false_r in Hblank.
  - unfold loadStored. rewrite Hstored.
    destruct (trim (polloKey p)) as [|u us] eqn:Htrim.
    + unfold handleSave, setItem. cbn [localStorage polloKey].
      apply insert_insert_eq.
    + unfold handleSave, setItem. cbn [localStorage polloKey].
      rewrite <- Htrim, trim_idempotent. apply insert_insert_eq.
Qed.

(** A key typed with a full-width space before it, a byte-order mark and
    a line break after it. *)
Lemma handleSave_round_trip_witness :
  getPolloKey
    (localStorage
       (handleSave {| polloKey := [12288; 32] ++ literal "sk-1 2" ++ [65279; 10];
                      isSaved := false; localStorage := ∅; timers := [] |}))
  = Some (literal "sk-1 2").
Proof.
  destruct (handleSave_round_trip
              {| polloKey := [12288; 32] ++ literal "sk-1 2" ++ [65279; 10];
                 isSaved := false; localStorage := ∅; timers := [] |}) as [H _].
  rewrite H. reflexivity.
Defined.

End SettingsFacts.

(** ** The prompt of a sequence of frames *)

Module FrameFacts.
Import Tools.

Lemma join_app (sep : string) (l1 l2 : list string) :
  l1 <> [] -> l2 <> [] ->
  join sep (l1 ++ l2) = join sep l1 +:+ sep +:+ join sep l2.
Proof.
  intros H1 H2. induction l1 as [|x l1 IH]; [done|].
  destruct l1 as [|y l1].
  - destruct l2 as [|z l2]; [done|]. reflexivity.
  - change (join sep ((x :: y :: l1) ++ l2))
      with (x +:+ sep +:+ join sep ((y :: l1) ++ l2)).
    rewrite IH by done.
    change (join sep (x :: y :: l1)) with (x +:+ sep +:+ join sep (y :: l1)).
    by rewrite !AudioFacts.append_assoc.
Qed.

(** X27.  The prompt of a sequence is built piece by piece: for two
    non-empty runs of frames, the prompt of the two in a row is the prompt
    of the first, [" transitioning to "], and the pieces of the second.  A
    frame without a transition prompt, or with an empty one, contributes
    ["scene"], so that no piece is empty; with no frame at all the prompt is
    the bare heading. *)
Theorem compileMultiFramePrompt_app (frames1 frames2 : list Frame) :
  frames1 <> [] -> frames2 <> [] ->
  compileMultiFramePrompt (frames1 ++ frames2)
  = compileMultiFramePrompt frames1 +:+ " transitioning to "
    +:+ join " transitioning to " (map framePrompt frames2)
  /\ Forall (fun f => framePrompt f <> EmptyString) (frames1 ++ frames2)
  /\ compileMultiFramePrompt [] = "A sequence showing: ".
Proof.
  intros H1 H2. split; [|split; [|reflexivity]].
  - unfold compileMultiFramePrompt. rewrite map_app, join_app.
    + by rewrite !AudioFacts.append_assoc.
    + by destruct frames1.
    + by destruct frames2.
  - apply List.Forall_forall. intros f _. unfold framePrompt.
    by apply ImageFacts.or_default_nonempty.
Qed.

Lemma compileMultiFramePrompt_app_witness :
  compileMultiFramePrompt
    ([ {| transition := Some {| tr_prompt := Some "a door opens" |} |} ]
     ++ [ {| transition := None |};
          {| transition := Some {| tr_prompt := Some EmptyString |} |} ])
  = "A sequence showing: a door opens transitioning to scene transitioning to scene".
Proof.
  destruct (compileMultiFramePrompt_app
              [ {| transition := Some {| tr_prompt := Some "a door opens" |} |} ]
              [ {| transition := None |};
                {| transition := Some {| tr_prompt := Some EmptyString |} |} ]
              ltac:(discriminate) ltac:(discriminate)) as [H _].
  rewrite H. reflexivity.
Defined.

End FrameFacts.

(** ** A count that asks for no video *)

Module CountFacts.
Import Support GeminiService Scenarios VideoFacts.

(** X28.  A negative [options.count] is truthy, so it is not replaced by
    1, and the loop that submits the videos is not entered.  With nothing
    submitted there is nothing usable and nothing rejected: the call goes
    straight to the still image, with ["Video generation failed."] as the
    cause, and when the image fails too the error reads
    ["Video generation failed: Video generation failed."]. *)
Theorem generateVideo_negative_count (w : World) (fuel : nat) (prompt model : string)
    (options : VideoOptions) (inputImageBase64 : option string) (videoInput : JsVal)
    (referenceImages : option (list string)) (t0 t1 : Trace) (req : VideoRequest) (c : Z) :
  vo_count options = Some c -> c < 0 ->
  sdk_new w (API_KEY w) = None ->
  prepareRequest w prompt model options inputImageBase64 videoInput referenceImages t0
  = (Returns req, t1) ->
  let run := generateVideo w fuel prompt model options inputImageBase64 videoInput
               referenceImages t0 in
  run = fallbackToImage w prompt options (mkError "Video generation failed.") t1
  /\ submissions (snd run) = submissions t1
  /\ (forall e, fst run = Throws e ->
                e = mkError "Video generation failed: Video generation failed.").
Proof.
  intros Hcount Hneg Hnew Hprep. cbv zeta.
  assert (Hfan : fanOutCount options = 0%nat).
  { unfold fanOutCount. rewrite Hcount.
    destruct (c =? 0) eqn:E; [lia|]. lia. }
  assert (Hrun : generateVideo w fuel prompt model options inputImageBase64 videoInput
                   referenceImages t0
                 = fallbackToImage w prompt options (mkError "Video generation failed.") t1).
  { rewrite (generateVideo_after_fanout w fuel prompt model options inputImageBase64
               videoInput referenceImages t0 req t1 [] t1 Hnew Hprep)
      by (rewrite Hfan; reflexivity).
    reflexivity. }
  rewrite Hrun. split; [reflexivity|].
  unfold fallbackToImage, try_catch, bind.
  destruct (ImageFacts.generateImageFromText_cases w (fallbackPrompt prompt)
              "gemini-2.5-flash-image" []
              {| io_aspectRatio := vo_aspectRatio options; io_resolution := None;
                 io_count := None |} t1)
    as [(e & -> & _)|(o & -> & [(img & imgs & -> & _)|(msg & ->)])]; cbn [fst snd throw ret].
  - split; [reflexivity|]. by intros e' [= <-].
  - split; [|discriminate]. rewrite CostFacts.submissions_additive. cbn. lia.
  - split; [|by intros e' [= <-]]. rewrite CostFacts.submissions_additive. cbn. lia.
Qed.

Lemma generateVideo_negative_count_witness :
  generateVideo refusingWorld 5 "a cat" "veo-3.1-fast-generate-preview"
    (videoOptions (Some (-1))) None JUndefined None []
  = (Throws (mkError "Video generation failed: Video generation failed."),
     [EvGenerateContent {| apiKey := Some "KEY" |}
        (imageRequest (fallbackPrompt "a cat") "gemini-2.5-flash-image" []
           {| io_aspectRatio := None; io_resolution := None; io_count := None |})]).
Proof.
  destruct (generateVideo_negative_count refusingWorld 5 "a cat"
              "veo-3.1-fast-generate-preview" (videoOptions (Some (-1))) None JUndefined None
              [] [] _ (-1) eq_refl ltac:(lia) eq_refl eq_refl) as (Hrun & _ & _).
  rewrite Hrun. reflexivity.
Defined.

End CountFacts.
